(** * Feedback manager: template rendering, length policy, analytics, stores

    A shallow embedding of the server side of the feedback manager:
    - the [/api/generate-response] handler of [registerRoutes] (placeholder
      substitution, length guidance, the call to the text-generation service,
      persistence of the answer, word count and sentiment);
    - the two implementations of [IStorage]: [MemStorage] (two [Map]s and two
      counters) and [FileStorage] (two JSON files holding an array and a
      [nextId] field);
    - the other routes of [registerRoutes] that read or write a store, make
      the identifier of a profile file, or extract facts from the answer to a
      screenshot;
    and of the parts of the client that make a request or a list of facts:
    [handleGenerateResponse] and [handleEmailCustomer] of the response
    generator, the handlers of the facts editor, and the strings made of
    extracted facts.

    Modelling conventions.
    - A JavaScript string is the list of its UTF-16 code units ([list N]).
    - Identifiers are JavaScript numbers; they are modelled as unbounded
      integers ([Z]), i.e. below 2^53 where [id++] is exact.
    - The facts of a configuration have their declared types.  The feedback
      text of the body of a request, which the handler does not check, is any
      JSON value; a key of the payload of an update may have the value
      [undefined], and the configuration a store holds may therefore lack a
      fact group.
    - The state of [FileStorage] is the content of its two files.  A
      statement about calls on a store is about calls carried out one after
      the other, with files that are read and written, unless it says
      otherwise; calls of [FileStorage] that overlap, and reads and writes
      that fail, are modelled by [interleave].
    - A handler of a component of the client is a function of the state and
      properties it reads, to the values it gives to the state setters and to
      the callbacks it calls. *)

From Stdlib Require Import ZArith NArith QArith List Sorted Ascii String Bool Lia.
From Stdlib Require Import DecimalString.
From stdpp Require Import base option list gmap fin_maps.
Import ListNotations.

Local Open Scope Z_scope.

(** ** JavaScript strings *)

Abbreviation jsstring := (list N).

(** The code units of an ASCII literal of the source. *)
Definition lit (s : string) : jsstring :=
  map N_of_ascii (list_ascii_of_string s).

Definition ch (a : ascii) : N := N_of_ascii a.

(** [s.startsWith(pat)]: [pat] is a prefix of [s]. *)
Fixpoint startsWith (pat s : jsstring) : bool :=
  match pat, s with
  | [], _ => true
  | _ :: _, [] => false
  | p :: pat', c :: s' => (p =? c)%N && startsWith pat' s'
  end.

(** [String.prototype.includes]: [sub] occurs somewhere in [s]. *)
Fixpoint includes (s sub : jsstring) : bool :=
  startsWith sub s ||
  match s with
  | [] => false
  | _ :: s' => includes s' sub
  end.

(** Number of positions of [s] at which [sub] occurs. *)
Fixpoint occurrences (sub s : jsstring) : nat :=
  ((if startsWith sub s then 1 else 0) +
   match s with
   | [] => 0
   | _ :: s' => occurrences sub s'
   end)%nat.

(** [Array.prototype.join] on an array of strings. *)
Fixpoint join (sep : jsstring) (l : list jsstring) : jsstring :=
  match l with
  | [] => []
  | [x] => x
  | x :: l' => x ++ sep ++ join sep l'
  end.

(** ** [String.prototype.replace] with a global literal pattern

    Every pattern of the handler is a regular expression that matches one
    fixed, non-empty text and has no capture group, used with the [g] flag and
    a replacement given as a string.  The replacement string is expanded by
    [GetSubstitution] at every match: [$$] is a dollar sign, [$&] the matched
    text, [$`] the part of the subject before the match, [$'] the part after
    it; with no capture group [$1]...[$99] and [$<] stand for themselves, as
    does any other character. *)

Fixpoint GetSubstitution (matched str : jsstring) (position : nat)
    (replacement : jsstring) : jsstring :=
  match replacement with
  | [] => []
  | c :: r =>
    if (c =? ch "$")%N then
      match r with
      | [] => [c]
      | d :: r' =>
        if (d =? ch "$")%N then ch "$" :: GetSubstitution matched str position r'
        else if (d =? ch "&")%N then matched ++ GetSubstitution matched str position r'
        else if (d =? ch "`")%N then
          take position str ++ GetSubstitution matched str position r'
        else if (d =? ch "'")%N then
          drop (position + length matched) str ++ GetSubstitution matched str position r'
        else c :: GetSubstitution matched str position r
      end
    else c :: GetSubstitution matched str position r
  end.

(** The matches are found from left to right and do not overlap; every
    expansion is computed against the subject [str] of the call.  [skip] counts
    the code units of the current match still to be passed over, [position] is
    the index of the head of [rest] in [str]. *)
Fixpoint replace_scan (pat repl str : jsstring) (skip position : nat)
    (rest : jsstring) : jsstring :=
  match rest with
  | [] => []
  | c :: rest' =>
    match skip with
    | S k => replace_scan pat repl str k (S position) rest'
    | O =>
      if startsWith pat rest then
        GetSubstitution pat str position repl
          ++ replace_scan pat repl str (length pat - 1) (S position) rest'
      else c :: replace_scan pat repl str 0 (S position) rest'
    end
  end.

(** [str.replace(/pat/g, repl)] for a literal, non-empty [pat]. *)
Definition replace (pat repl str : jsstring) : jsstring :=
  replace_scan pat repl str 0 0 str.

(** ** The fact model ([shared/schema.ts]) *)

Module RestaurantFacts.
Record t := mk {
    name : jsstring;
    address : jsstring;
    url : jsstring;
    type : jsstring;
    brandTone : jsstring;
    todoFacts : list jsstring
  }.
End RestaurantFacts.

Module CustomerFacts.
Record t := mk {
    name : jsstring;
    gender : jsstring;
    history : jsstring;
    meal : jsstring;
    todoFacts : list jsstring
  }.
End CustomerFacts.

Module SystemFacts.
Record t := mk {
    promptTemplate : jsstring;
    responseLength : jsstring;
    includeApology : bool;
    includeMarketing : bool;
    multipleResponses : bool
  }.
End SystemFacts.

(** [FactConfiguration]: a row of [fact_configurations]. *)
Module FactConfiguration.
Record t := mk {
    id : Z;
    restaurantFacts : RestaurantFacts.t;
    customerFacts : CustomerFacts.t;
    systemFacts : SystemFacts.t
  }.
End FactConfiguration.

(** [InsertFactConfiguration]: a configuration without its identifier. *)
Module InsertFactConfiguration.
Record t := mk {
    restaurantFacts : RestaurantFacts.t;
    customerFacts : CustomerFacts.t;
    systemFacts : SystemFacts.t
  }.
End InsertFactConfiguration.

(** The object a store holds for a configuration and gives to its callers.
    Its declared type is [FactConfiguration], but the spread of
    [MemStorage.updateFactConfiguration] makes a fact group [undefined] when
    the payload has the key with that value: a group is there, or it is
    [undefined]. *)
Module StoredConfiguration.
Record t := mk {
    id : Z;
    restaurantFacts : option RestaurantFacts.t;
    customerFacts : option CustomerFacts.t;
    systemFacts : option SystemFacts.t
  }.
End StoredConfiguration.

(** The object with the three fact groups of a configuration. *)
Definition stored (config : FactConfiguration.t) : StoredConfiguration.t :=
  {| StoredConfiguration.id := FactConfiguration.id config;
     StoredConfiguration.restaurantFacts := Some (FactConfiguration.restaurantFacts config);
     StoredConfiguration.customerFacts := Some (FactConfiguration.customerFacts config);
     StoredConfiguration.systemFacts := Some (FactConfiguration.systemFacts config) |}.

(** A property of a payload: the key is absent, it is there with the value
    [undefined], or it is there with a value. *)
Inductive property (A : Type) :=
  | KeyAbsent
  | KeyUndefined
  | KeyValue (a : A).

Arguments KeyAbsent {A}.
Arguments KeyUndefined {A}.
Arguments KeyValue {A} a.

(** [Partial<InsertFactConfiguration>]: every fact group is optional, and a
    key may be given the value [undefined]. *)
Module PartialFactConfiguration.
Record t := mk {
    restaurantFacts : property RestaurantFacts.t;
    customerFacts : property CustomerFacts.t;
    systemFacts : property SystemFacts.t
  }.
End PartialFactConfiguration.

(** [{ ...existing, ...config }] for one key: a key of [config] overwrites
    the one of [existing], with whatever value it has. *)
Definition spread {A} (existing : option A) (config : property A) : option A :=
  match config with
  | KeyAbsent => existing
  | KeyUndefined => None
  | KeyValue a => Some a
  end.

(** [config.key || existing.key]: the value of the key when it is truthy, as
    an object is, otherwise the stored one. *)
Definition or_existing {A} (config : property A) (existing : option A) : option A :=
  match config with
  | KeyValue a => Some a
  | _ => existing
  end.

(** A value of the body of a request, of which the handler expects a string.
    [express.json()] gives whatever JSON value the client sent: of a value
    that is not a string (null, a boolean, a number, an array, an object) the
    model keeps what the handler can observe, whether it is truthy and the
    string [ToString] makes of it (5 is truthy and gives [5], an array whose
    one element is the string [great] is truthy and gives [great], null is
    falsy and gives [null]).  [ToString] throws for an object, or an array
    with an object, whose [toString] property is not a function: [text] is
    then [None]. *)
Inductive BodyValue :=
  | Missing
  | StringValue (s : jsstring)
  | OtherValue (truthy : bool) (text : option jsstring).

(** [InsertFeedbackResponse]: [configurationId] is a [serial] column, which
    the insert schema makes optional.  [feedbackText] is declared a string;
    the handler puts there the value of the body of the request. *)
Module InsertFeedbackResponse.
Record t := mk {
    feedbackText : BodyValue;
    aiResponse : jsstring;
    configurationId : option Z
  }.
End InsertFeedbackResponse.

(** [FeedbackResponse]: the object a store keeps.  Its [configurationId] is
    an option because the object built by a store may lack the property. *)
Module FeedbackResponse.
Record t := mk {
    id : Z;
    feedbackText : BodyValue;
    aiResponse : jsstring;
    configurationId : option Z
  }.
End FeedbackResponse.

(** ** Template rendering (the [replace] chain of the handler) *)

Definition render (config : FactConfiguration.t) (feedbackText : jsstring) : jsstring :=
  let restaurantFacts := FactConfiguration.restaurantFacts config in
  let customerFacts := FactConfiguration.customerFacts config in
  let prompt := SystemFacts.promptTemplate (FactConfiguration.systemFacts config) in
  let prompt := replace (lit "{Restaurant Name}") (RestaurantFacts.name restaurantFacts) prompt in
  let prompt := replace (lit "{Address}") (RestaurantFacts.address restaurantFacts) prompt in
  let prompt := replace (lit "{Restaurant Type}") (RestaurantFacts.type restaurantFacts) prompt in
  let prompt := replace (lit "{Brand tone}") (RestaurantFacts.brandTone restaurantFacts) prompt in
  let prompt := replace (lit "{Customer Name}") (CustomerFacts.name customerFacts) prompt in
  let prompt := replace (lit "{Gender}") (CustomerFacts.gender customerFacts) prompt in
  let prompt := replace (lit "{Customer History}") (CustomerFacts.history customerFacts) prompt in
  let prompt := replace (lit "{Meal type}") (CustomerFacts.meal customerFacts) prompt in
  let prompt := replace (lit "{Customer Feedback Text}") feedbackText prompt in
  let prompt := replace (lit "{Restaurant Todo List Facts}")
                  (join (lit ", ") (RestaurantFacts.todoFacts restaurantFacts)) prompt in
  let prompt := replace (lit "{Customer Todo List Facts}")
                  (join (lit ", ") (CustomerFacts.todoFacts customerFacts)) prompt in
  prompt.

(** The eleven recognized placeholders, in the order of the chain. *)
Inductive placeholder :=
  | RestaurantName | Address | RestaurantType | BrandTone
  | CustomerName | Gender | CustomerHistory | MealType
  | CustomerFeedbackText | RestaurantTodoListFacts | CustomerTodoListFacts.

#[global] Instance placeholder_eq_dec : EqDecision placeholder.
Proof. solve_decision. Defined.

Definition placeholders : list placeholder :=
  [RestaurantName; Address; RestaurantType; BrandTone; CustomerName; Gender;
   CustomerHistory; MealType; CustomerFeedbackText; RestaurantTodoListFacts;
   CustomerTodoListFacts].

Definition token (p : placeholder) : jsstring :=
  match p with
  | RestaurantName => lit "{Restaurant Name}"
  | Address => lit "{Address}"
  | RestaurantType => lit "{Restaurant Type}"
  | BrandTone => lit "{Brand tone}"
  | CustomerName => lit "{Customer Name}"
  | Gender => lit "{Gender}"
  | CustomerHistory => lit "{Customer History}"
  | MealType => lit "{Meal type}"
  | CustomerFeedbackText => lit "{Customer Feedback Text}"
  | RestaurantTodoListFacts => lit "{Restaurant Todo List Facts}"
  | CustomerTodoListFacts => lit "{Customer Todo List Facts}"
  end.

(** The value the chain substitutes for a placeholder. *)
Definition value (config : FactConfiguration.t) (feedbackText : jsstring)
    (p : placeholder) : jsstring :=
  let restaurantFacts := FactConfiguration.restaurantFacts config in
  let customerFacts := FactConfiguration.customerFacts config in
  match p with
  | RestaurantName => RestaurantFacts.name restaurantFacts
  | Address => RestaurantFacts.address restaurantFacts
  | RestaurantType => RestaurantFacts.type restaurantFacts
  | BrandTone => RestaurantFacts.brandTone restaurantFacts
  | CustomerName => CustomerFacts.name customerFacts
  | Gender => CustomerFacts.gender customerFacts
  | CustomerHistory => CustomerFacts.history customerFacts
  | MealType => CustomerFacts.meal customerFacts
  | CustomerFeedbackText => feedbackText
  | RestaurantTodoListFacts => join (lit ", ") (RestaurantFacts.todoFacts restaurantFacts)
  | CustomerTodoListFacts => join (lit ", ") (CustomerFacts.todoFacts customerFacts)
  end.

(** Position of a placeholder in the chain. *)
Definition rank (p : placeholder) : nat :=
  match p with
  | RestaurantName => 0 | Address => 1 | RestaurantType => 2 | BrandTone => 3
  | CustomerName => 4 | Gender => 5 | CustomerHistory => 6 | MealType => 7
  | CustomerFeedbackText => 8 | RestaurantTodoListFacts => 9
  | CustomerTodoListFacts => 10
  end%nat.

(** One call of the chain, and the calls for a list of placeholders. *)
Definition pass (config : FactConfiguration.t) (feedbackText : jsstring)
    (prompt : jsstring) (p : placeholder) : jsstring :=
  replace (token p) (value config feedbackText p) prompt.

Definition passes (config : FactConfiguration.t) (feedbackText : jsstring)
    (l : list placeholder) (prompt : jsstring) : jsstring :=
  fold_left (pass config feedbackText) l prompt.

(** [lacks c s]: the code unit [c] does not occur in [s]. *)
Definition lacks (c : N) (s : jsstring) : bool :=
  forallb (fun x => negb (x =? c)%N) s.

(** ** Length guidance and token budget

    [lengthGuidance[config.systemFacts.responseLength] || lengthGuidance.medium]
    reads a property of an object literal whose key is the stored string.  A
    property missing from the literal is looked up in [Object.prototype], so
    the values that can come back are modelled, with their conversions. *)

Fixpoint String_eqb (a b : jsstring) : bool :=
  match a, b with
  | [], [] => true
  | x :: a', y :: b' => (x =? y)%N && String_eqb a' b'
  | _, _ => false
  end.

Inductive JSValue :=
  | Undefined
  | Str (s : jsstring)
  | NativeFunction (name : jsstring)
  | ObjectPrototype.

(** [ToBoolean], as used by [||] and [!]. *)
Definition ToBoolean (v : JSValue) : bool :=
  match v with
  | Undefined => false
  | Str s => negb (String_eqb s [])
  | NativeFunction _ => true
  | ObjectPrototype => true
  end.

(** [ToString], as used by a template literal; a built-in function prints as
    Node prints it. *)
Definition ToString (v : JSValue) : jsstring :=
  match v with
  | Undefined => lit "undefined"
  | Str s => s
  | NativeFunction name => lit "function " ++ name ++ lit "() { [native code] }"
  | ObjectPrototype => lit "[object Object]"
  end.

(** [a || b] *)
Definition or_else (a b : JSValue) : JSValue :=
  if ToBoolean a then a else b.

(** The methods every object inherits from [Object.prototype]. *)
Definition ObjectPrototype_methods : list jsstring :=
  [lit "__defineGetter__"; lit "__defineSetter__"; lit "hasOwnProperty";
   lit "__lookupGetter__"; lit "__lookupSetter__"; lit "isPrototypeOf";
   lit "propertyIsEnumerable"; lit "toString"; lit "valueOf";
   lit "toLocaleString"].

(** Property lookup in [Object.prototype], for an object created by an object
    literal: [constructor] is [Object], [__proto__] answers the prototype of
    the object, which is [Object.prototype] itself. *)
Definition ObjectPrototype_Get (key : jsstring) : JSValue :=
  if String_eqb key (lit "constructor") then NativeFunction (lit "Object")
  else if String_eqb key (lit "__proto__") then ObjectPrototype
  else if existsb (String_eqb key) ObjectPrototype_methods then NativeFunction key
  else Undefined.

Definition guidance_short : jsstring :=
  lit "Keep the response concise, around 2-3 sentences.".
Definition guidance_medium : jsstring :=
  lit "Provide a moderate length response, around 3-4 paragraphs.".
Definition guidance_detailed : jsstring :=
  lit "Provide a comprehensive response with detailed explanations.".

(** [lengthGuidance[key]] *)
Definition lengthGuidance (key : jsstring) : JSValue :=
  if String_eqb key (lit "short") then Str guidance_short
  else if String_eqb key (lit "medium") then Str guidance_medium
  else if String_eqb key (lit "detailed") then Str guidance_detailed
  else ObjectPrototype_Get key.

(** A line feed. *)
Definition LF : N := 10%N.

(** [prompt += `\n\n${lengthGuidance[responseLength] || lengthGuidance.medium}`] *)
Definition appendLengthGuidance (prompt responseLength : jsstring) : jsstring :=
  prompt ++ [LF; LF]
    ++ ToString (or_else (lengthGuidance responseLength) (lengthGuidance (lit "medium"))).

(** The [max_tokens] field of the request. *)
Definition max_tokens (responseLength : jsstring) : Z :=
  if String_eqb responseLength (lit "detailed") then 1000
  else if String_eqb responseLength (lit "short") then 200
  else 500.

(** ** Analytics *)

(** The code units matched by [\s]: white space and line terminators. *)
Definition is_space (c : N) : bool :=
  ((9 <=? c) && (c <=? 13) || (c =? 32) || (c =? 160) || (c =? 5760)
   || (8192 <=? c) && (c <=? 8202) || (c =? 8232) || (c =? 8233)
   || (c =? 8239) || (c =? 8287) || (c =? 12288) || (c =? 65279))%N.

(** [str.split(/\s+/)]: the subject is cut at every maximal run of white
    space; the text before the first run and the text after the last one are
    pieces too, empty or not.  [in_run] tells that the previous code unit was
    white space, [piece] is the piece being read. *)
Fixpoint split_scan (in_run : bool) (piece rest : jsstring) : list jsstring :=
  match rest with
  | [] => [piece]
  | c :: rest' =>
    if is_space c then
      if in_run then split_scan true [] rest'
      else piece :: split_scan true [] rest'
    else split_scan false (piece ++ [c]) rest'
  end.

Definition nonempty (piece : jsstring) : bool :=
  match piece with [] => false | _ => true end.

Definition split_whitespace (str : jsstring) : list jsstring :=
  split_scan false [] str.

(** [aiResponse.split(/\s+/).length] *)
Definition wordCount (aiResponse : jsstring) : nat :=
  length (split_whitespace aiResponse).

(** The whitespace-delimited tokens of a text: its maximal runs of code units
    that are not white space. *)
Fixpoint tokens_scan (piece rest : jsstring) : list jsstring :=
  match rest with
  | [] => match piece with [] => [] | _ => [piece] end
  | c :: rest' =>
    if is_space c then
      match piece with
      | [] => tokens_scan [] rest'
      | _ => piece :: tokens_scan [] rest'
      end
    else tokens_scan (piece ++ [c]) rest'
  end.

Definition whitespace_tokens (str : jsstring) : list jsstring :=
  tokens_scan [] str.

(** The text starts, or ends, with white space. *)
Definition leading_space (str : jsstring) : bool :=
  match str with
  | c :: _ => is_space c
  | [] => false
  end.

Definition trailing_space (str : jsstring) : bool :=
  match last str with
  | Some c => is_space c
  | None => false
  end.

(** [String.prototype.toLowerCase] on the letters A to Z.  Other code units
    are kept: the keywords looked for below are ASCII, the only letters
    outside ASCII whose lower case has an ASCII letter are U+212A (k, which no
    keyword has) and U+0130 (i followed by U+0307, and no keyword ends in i),
    so the searches below answer the same. *)
Definition lower (c : N) : N :=
  if ((65 <=? c) && (c <=? 90))%N then (c + 32)%N else c.

Definition toLowerCase (s : jsstring) : jsstring := map lower s.

Definition positive_keywords : list jsstring :=
  [lit "great"; lit "excellent"; lit "amazing"; lit "wonderful"; lit "outstanding"].

Definition negative_keywords : list jsstring :=
  [lit "bad"; lit "terrible"; lit "awful"; lit "horrible"].

Definition sentiment (feedbackText : jsstring) : jsstring :=
  if includes (toLowerCase feedbackText) (lit "great")
     || includes (toLowerCase feedbackText) (lit "excellent")
     || includes (toLowerCase feedbackText) (lit "amazing")
     || includes (toLowerCase feedbackText) (lit "wonderful")
     || includes (toLowerCase feedbackText) (lit "outstanding")
  then lit "Positive"
  else if includes (toLowerCase feedbackText) (lit "bad")
          || includes (toLowerCase feedbackText) (lit "terrible")
          || includes (toLowerCase feedbackText) (lit "awful")
          || includes (toLowerCase feedbackText) (lit "horrible")
  then lit "Negative"
  else lit "Neutral".

(** The wording of the specification.  Two code units are the same letter
    without regard to case when they are equal, or one is a capital letter,
    A (65) to Z (90), and the other the small letter of the same rank, a (97)
    to z (122). *)
Definition same_letter (c d : N) : Prop :=
  (c = d \/ (65 <= c <= 90 /\ d = c + 32) \/ (65 <= d <= 90 /\ c = d + 32))%N.

(** [text] contains [keyword] without regard to case when some part of
    [text] is [keyword], letter by letter, without regard to case. *)
Definition contains_ignoring_case (text keyword : jsstring) : Prop :=
  exists before part after,
    text = before ++ part ++ after /\ Forall2 same_letter part keyword.

(** ** Storage: [IStorage], [MemStorage] and [FileStorage] *)

(** The interface [IStorage].  A method takes the state of the store and
    gives back the state it leaves, when it writes. *)
Class IStorage (S : Type) := {
  getFactConfiguration : S -> Z -> option StoredConfiguration.t;
  getLatestFactConfiguration : S -> option StoredConfiguration.t;
  createFactConfiguration :
    S -> InsertFactConfiguration.t -> S * FactConfiguration.t;
  updateFactConfiguration :
    S -> Z -> PartialFactConfiguration.t -> S * option StoredConfiguration.t;
  getFeedbackResponse : S -> Z -> option FeedbackResponse.t;
  createFeedbackResponse :
    S -> InsertFeedbackResponse.t -> S * FeedbackResponse.t;
  getAllFeedbackResponses : S -> list FeedbackResponse.t
}.

(** A double quote. *)
Definition DQ : jsstring := [34%N].

(** The prompt template of the default configuration. *)
Definition defaultPromptTemplate : jsstring :=
  lit "You are a customer relationship manager for a restaurant named "
  ++ DQ ++ lit "{Restaurant Name}" ++ DQ ++ lit ", located at "
  ++ DQ ++ lit "{Address}" ++ DQ ++ lit ". The restaurant type is "
  ++ DQ ++ lit "{Restaurant Type}" ++ DQ ++ lit " and communicates with a "
  ++ DQ ++ lit "{Brand tone}" ++ DQ ++ lit " tone."
  ++ [LF; LF]
  ++ lit "A customer named " ++ DQ ++ lit "{Customer Name}" ++ DQ
  ++ lit " ({Gender}), a " ++ DQ ++ lit "{Customer History}" ++ DQ
  ++ lit " customer, recently had " ++ DQ ++ lit "{Meal type}" ++ DQ
  ++ lit " and left feedback: " ++ DQ ++ lit "{Customer Feedback Text}" ++ DQ
  ++ lit "."
  ++ [LF; LF]
  ++ lit "Consider the following additional restaurant facts: {Restaurant Todo List Facts}"
  ++ [LF]
  ++ lit "Consider the following additional customer facts: {Customer Todo List Facts}"
  ++ [LF; LF]
  ++ lit "Generate a thoughtful, concise response addressing the customer's feedback appropriately. If feedback is negative, consider a polite apology. If positive, consider a friendly marketing message inviting them back.".

(** The configuration both stores start with. *)
Definition defaultConfiguration : InsertFactConfiguration.t :=
  {| InsertFactConfiguration.restaurantFacts :=
       {| RestaurantFacts.name := lit "Sample Bistro";
          RestaurantFacts.address := lit "123 Main Street, Anytown";
          RestaurantFacts.url := lit "https://samplebistro.com";
          RestaurantFacts.type := lit "Casual";
          RestaurantFacts.brandTone := lit "Friendly";
          RestaurantFacts.todoFacts :=
            [lit "Currently running Summer Specials"; lit "Famous for seafood dishes"] |};
     InsertFactConfiguration.customerFacts :=
       {| CustomerFacts.name := lit "John Doe";
          CustomerFacts.gender := lit "M";
          CustomerFacts.history := lit "Long-time";
          CustomerFacts.meal := lit "Dinner";
          CustomerFacts.todoFacts :=
            [lit "Prefers window seating"; lit "Usually orders vegetarian dishes"] |};
     InsertFactConfiguration.systemFacts :=
       {| SystemFacts.promptTemplate := defaultPromptTemplate;
          SystemFacts.responseLength := lit "medium";
          SystemFacts.includeApology := true;
          SystemFacts.includeMarketing := true;
          SystemFacts.multipleResponses := false |} |}.

(** [Math.max(...numbers)]; [None] is the [-Infinity] of an empty call. *)
Definition Math_max (numbers : list Z) : option Z :=
  foldr (fun n acc => Some (match acc with None => n | Some m => Z.max n m end))
        None numbers.

(** *** [MemStorage] *)

Module MemStorage.

Record t := mk {
  factConfigs : gmap Z StoredConfiguration.t;
  feedbackResp : gmap Z FeedbackResponse.t;
  currentConfigId : Z;
  currentResponseId : Z
}.

Definition getFactConfiguration (this : t) (id : Z) : option StoredConfiguration.t :=
  factConfigs this !! id.

Definition getLatestFactConfiguration (this : t) : option StoredConfiguration.t :=
  if (size (factConfigs this) =? 0)%nat then None
  else
    match Math_max (map fst (map_to_list (factConfigs this))) with
    | Some latestId => factConfigs this !! latestId
    | None => None
    end.

Definition createFactConfiguration (this : t) (config : InsertFactConfiguration.t)
    : t * FactConfiguration.t :=
  let id := currentConfigId this in
  let factConfig :=
    {| FactConfiguration.id := id;
       FactConfiguration.restaurantFacts := InsertFactConfiguration.restaurantFacts config;
       FactConfiguration.customerFacts := InsertFactConfiguration.customerFacts config;
       FactConfiguration.systemFacts := InsertFactConfiguration.systemFacts config |} in
  ({| factConfigs := <[id := stored factConfig]> (factConfigs this);
      feedbackResp := feedbackResp this;
      currentConfigId := id + 1;
      currentResponseId := currentResponseId this |},
   factConfig).

(** [{ ...existing, ...config, id }]: a key of [config] overwrites the one
    of [existing], also when its value is [undefined]. *)
Definition updateFactConfiguration (this : t) (id : Z)
    (config : PartialFactConfiguration.t) : t * option StoredConfiguration.t :=
  match factConfigs this !! id with
  | None => (this, None)
  | Some existing =>
    let updated :=
      {| StoredConfiguration.id := id;
         StoredConfiguration.restaurantFacts :=
           spread (StoredConfiguration.restaurantFacts existing)
                  (PartialFactConfiguration.restaurantFacts config);
         StoredConfiguration.customerFacts :=
           spread (StoredConfiguration.customerFacts existing)
                  (PartialFactConfiguration.customerFacts config);
         StoredConfiguration.systemFacts :=
           spread (StoredConfiguration.systemFacts existing)
                  (PartialFactConfiguration.systemFacts config) |} in
    ({| factConfigs := <[id := updated]> (factConfigs this);
        feedbackResp := feedbackResp this;
        currentConfigId := currentConfigId this;
        currentResponseId := currentResponseId this |},
     Some updated)
  end.

Definition getFeedbackResponse (this : t) (id : Z) : option FeedbackResponse.t :=
  feedbackResp this !! id.

(** [{ ...response, id }]: [configurationId] is there when [response] has it. *)
Definition createFeedbackResponse (this : t) (response : InsertFeedbackResponse.t)
    : t * FeedbackResponse.t :=
  let id := currentResponseId this in
  let feedbackResponse :=
    {| FeedbackResponse.id := id;
       FeedbackResponse.feedbackText := InsertFeedbackResponse.feedbackText response;
       FeedbackResponse.aiResponse := InsertFeedbackResponse.aiResponse response;
       FeedbackResponse.configurationId := InsertFeedbackResponse.configurationId response |} in
  ({| factConfigs := factConfigs this;
      feedbackResp := <[id := feedbackResponse]> (feedbackResp this);
      currentConfigId := currentConfigId this;
      currentResponseId := id + 1 |},
   feedbackResponse).

(** The values of the map; the order of insertion is not modelled. *)
Definition getAllFeedbackResponses (this : t) : list FeedbackResponse.t :=
  map snd (map_to_list (feedbackResp this)).

(** The fields as the constructor sets them before it creates the default
    configuration. *)
Definition empty : t :=
  {| factConfigs := ∅; feedbackResp := ∅; currentConfigId := 1; currentResponseId := 1 |}.

(** [new MemStorage()] *)
Definition new : t := fst (createFactConfiguration empty defaultConfiguration).

End MemStorage.

#[global] Instance MemStorage_IStorage : IStorage MemStorage.t := {
  getFactConfiguration := MemStorage.getFactConfiguration;
  getLatestFactConfiguration := MemStorage.getLatestFactConfiguration;
  createFactConfiguration := MemStorage.createFactConfiguration;
  updateFactConfiguration := MemStorage.updateFactConfiguration;
  getFeedbackResponse := MemStorage.getFeedbackResponse;
  createFeedbackResponse := MemStorage.createFeedbackResponse;
  getAllFeedbackResponses := MemStorage.getAllFeedbackResponses
}.

(** *** [FileStorage] *)

(** The content of [data/configurations.json]. *)
Module ConfigurationsFile.
Record t := mk {
  configs : list StoredConfiguration.t;
  nextId : Z
}.
End ConfigurationsFile.

(** The content of [data/responses.json]. *)
Module ResponsesFile.
Record t := mk {
  responses : list FeedbackResponse.t;
  nextId : Z
}.
End ResponsesFile.

Module FileStorage.

Record t := mk {
  configFile : ConfigurationsFile.t;
  responsesFile : ResponsesFile.t
}.

Definition readConfigurations (this : t) : ConfigurationsFile.t := configFile this.

Definition writeConfigurations (this : t) (data : ConfigurationsFile.t) : t :=
  {| configFile := data; responsesFile := responsesFile this |}.

Definition readResponses (this : t) : ResponsesFile.t := responsesFile this.

Definition writeResponses (this : t) (data : ResponsesFile.t) : t :=
  {| configFile := configFile this; responsesFile := data |}.

Definition getFactConfiguration (this : t) (id : Z) : option StoredConfiguration.t :=
  let data := readConfigurations this in
  List.find (fun config => StoredConfiguration.id config =? id)
            (ConfigurationsFile.configs data).

Definition getLatestFactConfiguration (this : t) : option StoredConfiguration.t :=
  let data := readConfigurations this in
  if (length (ConfigurationsFile.configs data) =? 0)%nat then None
  else ConfigurationsFile.configs data
         !! (length (ConfigurationsFile.configs data) - 1)%nat.

Definition createFactConfiguration (this : t) (config : InsertFactConfiguration.t)
    : t * FactConfiguration.t :=
  let data := readConfigurations this in
  let id := ConfigurationsFile.nextId data in
  let factConfig :=
    {| FactConfiguration.id := id;
       FactConfiguration.restaurantFacts := InsertFactConfiguration.restaurantFacts config;
       FactConfiguration.customerFacts := InsertFactConfiguration.customerFacts config;
       FactConfiguration.systemFacts := InsertFactConfiguration.systemFacts config |} in
  let data :=
    {| ConfigurationsFile.configs := ConfigurationsFile.configs data ++ [stored factConfig];
       ConfigurationsFile.nextId := ConfigurationsFile.nextId data + 1 |} in
  (writeConfigurations this data, factConfig).

(** [findIndex]: the first index whose element satisfies [f], or [None]
    for [-1]. *)
Fixpoint findIndex {A} (f : A -> bool) (l : list A) : option nat :=
  match l with
  | [] => None
  | x :: l' => if f x then Some 0%nat else S <$> findIndex f l'
  end.

(** [config.restaurantFacts || data.configs[index].restaurantFacts], and
    the same for the two other groups: a group that is absent or [undefined]
    in [config] leaves the stored one. *)
Definition updateFactConfiguration (this : t) (id : Z)
    (config : PartialFactConfiguration.t) : t * option StoredConfiguration.t :=
  let data := readConfigurations this in
  match findIndex (fun c => StoredConfiguration.id c =? id) (ConfigurationsFile.configs data) with
  | None => (this, None)
  | Some index =>
    match ConfigurationsFile.configs data !! index with
    | None => (this, None)
    | Some existing =>
      let updated :=
        {| StoredConfiguration.id := id;
           StoredConfiguration.restaurantFacts :=
             or_existing (PartialFactConfiguration.restaurantFacts config)
                         (StoredConfiguration.restaurantFacts existing);
           StoredConfiguration.customerFacts :=
             or_existing (PartialFactConfiguration.customerFacts config)
                         (StoredConfiguration.customerFacts existing);
           StoredConfiguration.systemFacts :=
             or_existing (PartialFactConfiguration.systemFacts config)
                         (StoredConfiguration.systemFacts existing) |} in
      let data :=
        {| ConfigurationsFile.configs := <[index := updated]> (ConfigurationsFile.configs data);
           ConfigurationsFile.nextId := ConfigurationsFile.nextId data |} in
      (writeConfigurations this data, Some updated)
    end
  end.

Definition getFeedbackResponse (this : t) (id : Z) : option FeedbackResponse.t :=
  let data := readResponses this in
  List.find (fun response => FeedbackResponse.id response =? id)
            (ResponsesFile.responses data).

(** [configurationId: response.configurationId || 1]: an absent identifier
    and the identifier 0 both give 1. *)
Definition createFeedbackResponse (this : t) (response : InsertFeedbackResponse.t)
    : t * FeedbackResponse.t :=
  let data := readResponses this in
  let id := ResponsesFile.nextId data in
  let feedbackResponse :=
    {| FeedbackResponse.id := id;
       FeedbackResponse.feedbackText := InsertFeedbackResponse.feedbackText response;
       FeedbackResponse.aiResponse := InsertFeedbackResponse.aiResponse response;
       FeedbackResponse.configurationId :=
         Some (match InsertFeedbackResponse.configurationId response with
               | Some n => if n =? 0 then 1 else n
               | None => 1
               end) |} in
  let data :=
    {| ResponsesFile.responses := ResponsesFile.responses data ++ [feedbackResponse];
       ResponsesFile.nextId := ResponsesFile.nextId data + 1 |} in
  (writeResponses this data, feedbackResponse).

Definition getAllFeedbackResponses (this : t) : list FeedbackResponse.t :=
  ResponsesFile.responses (readResponses this).

(** What [readConfigurations] and [readResponses] answer when there is no
    file to read. *)
Definition empty : t :=
  {| configFile := {| ConfigurationsFile.configs := []; ConfigurationsFile.nextId := 1 |};
     responsesFile := {| ResponsesFile.responses := []; ResponsesFile.nextId := 1 |} |}.

(** The two files as [ensureDataDirectory] writes them on a first start. *)
Definition new : t :=
  {| configFile :=
       {| ConfigurationsFile.configs :=
            [ stored
                {| FactConfiguration.id := 1;
                   FactConfiguration.restaurantFacts :=
                     InsertFactConfiguration.restaurantFacts defaultConfiguration;
                   FactConfiguration.customerFacts :=
                     InsertFactConfiguration.customerFacts defaultConfiguration;
                   FactConfiguration.systemFacts :=
                     InsertFactConfiguration.systemFacts defaultConfiguration |} ];
          ConfigurationsFile.nextId := 2 |};
     responsesFile := {| ResponsesFile.responses := []; ResponsesFile.nextId := 1 |} |}.

End FileStorage.

#[global] Instance FileStorage_IStorage : IStorage FileStorage.t := {
  getFactConfiguration := FileStorage.getFactConfiguration;
  getLatestFactConfiguration := FileStorage.getLatestFactConfiguration;
  createFactConfiguration := FileStorage.createFactConfiguration;
  updateFactConfiguration := FileStorage.updateFactConfiguration;
  getFeedbackResponse := FileStorage.getFeedbackResponse;
  createFeedbackResponse := FileStorage.createFeedbackResponse;
  getAllFeedbackResponses := FileStorage.getAllFeedbackResponses
}.

(** *** Sequences of calls on a store *)

Inductive call :=
  | CreateFactConfiguration (config : InsertFactConfiguration.t)
  | UpdateFactConfiguration (id : Z) (config : PartialFactConfiguration.t)
  | CreateFeedbackResponse (response : InsertFeedbackResponse.t).

Inductive outcome :=
  | CreatedConfiguration (config : FactConfiguration.t)
  | UpdatedConfiguration (config : option StoredConfiguration.t)
  | CreatedResponse (response : FeedbackResponse.t).

Definition perform {S} `{IStorage S} (storage : S) (c : call) : S * outcome :=
  match c with
  | CreateFactConfiguration config =>
    let '(storage', r) := createFactConfiguration storage config in
    (storage', CreatedConfiguration r)
  | UpdateFactConfiguration id config =>
    let '(storage', r) := updateFactConfiguration storage id config in
    (storage', UpdatedConfiguration r)
  | CreateFeedbackResponse response =>
    let '(storage', r) := createFeedbackResponse storage response in
    (storage', CreatedResponse r)
  end.

Fixpoint run {S} `{IStorage S} (storage : S) (calls : list call) : S * list outcome :=
  match calls with
  | [] => (storage, [])
  | c :: calls' =>
    let '(storage', o) := perform storage c in
    let '(storage'', os) := run storage' calls' in
    (storage'', o :: os)
  end.

(** The identifiers given out by the [createFactConfiguration] calls, and by
    the [createFeedbackResponse] calls, of a sequence, in the order of the
    calls. *)
Fixpoint configurationIds (os : list outcome) : list Z :=
  match os with
  | [] => []
  | CreatedConfiguration c :: os' => FactConfiguration.id c :: configurationIds os'
  | _ :: os' => configurationIds os'
  end.

Fixpoint responseIds (os : list outcome) : list Z :=
  match os with
  | [] => []
  | CreatedResponse r :: os' => FeedbackResponse.id r :: responseIds os'
  | _ :: os' => responseIds os'
  end.

(** A state is reachable from [init] when a sequence of calls leads to it. *)
Definition reachable {S} `{IStorage S} (init storage : S) : Prop :=
  exists calls, fst (run init calls) = storage.

(** *** Calls of [FileStorage] that overlap

    A method of [MemStorage] has no [await]: it runs from its first line to
    its last before anything else does.  A method of [FileStorage] that
    writes awaits twice: the reading of its file, then, having worked on what
    it read, the writing of that file; other calls run while it waits.
    [readFile] may fail: the error is caught and an empty array with [nextId]
    1 stands for the file.  [writeFile] may fail: the error is caught and
    logged, and the method answers as if it had written. *)

(** The file a call reads and writes. *)
Inductive file :=
  | ConfigurationsJson
  | ResponsesJson.

Definition file_of (c : call) : file :=
  match c with
  | CreateFactConfiguration _ => ConfigurationsJson
  | UpdateFactConfiguration _ _ => ConfigurationsJson
  | CreateFeedbackResponse _ => ResponsesJson
  end.

(** The files [target] with the file [f] as it is in [source]. *)
Definition with_file (f : file) (source target : FileStorage.t) : FileStorage.t :=
  match f with
  | ConfigurationsJson =>
    FileStorage.writeConfigurations target (FileStorage.readConfigurations source)
  | ResponsesJson =>
    FileStorage.writeResponses target (FileStorage.readResponses source)
  end.

(** A call under way: it waits for its file to be read; or it has made, of
    what it read, the content [data] to write and its answer, and waits for
    the file to be written; or it has answered. *)
Inductive task :=
  | AwaitsRead (c : call)
  | AwaitsWrite (c : call) (data : FileStorage.t) (answer : outcome)
  | Resolved (answer : outcome).

(** The read or the write a task waits for takes place on the files [this];
    [ok] tells whether it succeeds.  Between the two the method does what the
    model of the call in sequence does, on what was read;
    [updateFactConfiguration] answers without writing when it does not find
    the identifier. *)
Definition resume (ok : bool) (this : FileStorage.t) (t : task) : FileStorage.t * task :=
  match t with
  | AwaitsRead c =>
    let read := if ok then this else with_file (file_of c) FileStorage.empty this in
    let '(data, answer) := perform read c in
    match answer with
    | UpdatedConfiguration None => (this, Resolved answer)
    | _ => (this, AwaitsWrite c data answer)
    end
  | AwaitsWrite c data answer =>
    (if ok then with_file (file_of c) data this else this, Resolved answer)
  | Resolved answer => (this, t)
  end.

(** The tasks take their steps in the order of [schedule], which names at
    each step the task that goes on and tells whether its read or write
    succeeds. *)
Fixpoint interleave (schedule : list (nat * bool)) (this : FileStorage.t)
    (tasks : list task) : FileStorage.t * list task :=
  match schedule with
  | [] => (this, tasks)
  | (i, ok) :: schedule' =>
    match tasks !! i with
    | None => interleave schedule' this tasks
    | Some t =>
      let '(this', t') := resume ok this t in
      interleave schedule' this' (<[i := t']> tasks)
    end
  end.

(** Two calls that both read before either writes; two calls, one after
    the other, on a file that cannot be written; the same on a file that can
    be neither read nor written; two calls one after the other. *)
Definition overlapping : list (nat * bool) :=
  [(0, true); (1, true); (0, true); (1, true)]%nat.

Definition unwritable : list (nat * bool) :=
  [(0, true); (0, false); (1, true); (1, false)]%nat.

Definition unreadable : list (nat * bool) :=
  [(0, false); (0, false); (1, false); (1, false)]%nat.

Definition in_sequence : list (nat * bool) :=
  [(0, true); (0, true); (1, true); (1, true)]%nat.

(** ** The [/api/generate-response] handler of [registerRoutes] *)

(** The body of the request: [feedbackText] is whatever value the client
    sent, [configurationId] is a number or is missing. *)
Module RequestBody.
Record t := mk {
  feedbackText : BodyValue;
  configurationId : option Z
}.
End RequestBody.

(** The request sent to the text-generation service. *)
Module ChatRequest.
Record t := mk {
  model : jsstring;
  system : jsstring;
  user : jsstring;
  max_tokens : Z;
  temperature : Q
}.
End ChatRequest.

(** What the call to the service does: it throws, or it answers a completion
    whose first choice has a content, which may be [null]. *)
Inductive Completion :=
  | Throws (message : jsstring)
  | Content (content : option jsstring).

(** What the handler sends back. *)
Inductive Reply :=
  | Message (status : Z) (message : jsstring)
  | Failure (status : Z) (message error : jsstring)
  | Generated (savedResponse : FeedbackResponse.t) (wordCount : nat) (sentiment : jsstring).

Definition status (r : Reply) : Z :=
  match r with
  | Message s _ => s
  | Failure s _ _ => s
  | Generated _ _ _ => 200
  end.

(** [!value] for an optional string: missing or empty. *)
Definition falsy (value : option jsstring) : bool :=
  match value with
  | None => true
  | Some s => String_eqb s []
  end.

(** [!value] for a value of the body: missing, the empty string, or another
    value that is not truthy. *)
Definition BodyValue_falsy (value : BodyValue) : bool :=
  match value with
  | Missing => true
  | StringValue s => String_eqb s []
  | OtherValue truthy _ => negb truthy
  end.

(** [ToString] of a value of the body, which [String.prototype.replace]
    applies to a replacement that is not a function; [None] when it
    throws. *)
Definition BodyValue_ToString (value : BodyValue) : option jsstring :=
  match value with
  | Missing => Some (lit "undefined")
  | StringValue s => Some s
  | OtherValue _ text => text
  end.

(** The message of the [TypeError] that reading [property] of [undefined]
    throws (the wording of V8 since its version 9.3). *)
Definition TypeError_reading (property : jsstring) : jsstring :=
  lit "Cannot read properties of undefined (reading '" ++ property ++ lit "')".

(** The fact groups the handler reads of the configuration it got from the
    store, in the order in which it reads them: [systemFacts] for the
    template, [restaurantFacts] for the first replacement, [customerFacts]
    for the fifth.  Reading a property of a group that is [undefined] throws;
    the answer is then the property that was read. *)
Definition readConfiguration (config : StoredConfiguration.t)
    : jsstring + FactConfiguration.t :=
  match StoredConfiguration.systemFacts config with
  | None => inl (lit "promptTemplate")
  | Some systemFacts =>
    match StoredConfiguration.restaurantFacts config with
    | None => inl (lit "name")
    | Some restaurantFacts =>
      match StoredConfiguration.customerFacts config with
      | None => inl (lit "name")
      | Some customerFacts =>
        inr {| FactConfiguration.id := StoredConfiguration.id config;
               FactConfiguration.restaurantFacts := restaurantFacts;
               FactConfiguration.customerFacts := customerFacts;
               FactConfiguration.systemFacts := systemFacts |}
      end
    end
  end.

Definition systemRole : jsstring :=
  lit "You are a professional customer relationship manager for restaurants. Generate thoughtful, personalized responses to customer feedback.".

Section Handler.

Context {S : Type} `{IStorage S}.

(** The service, as a function of the request it is sent. *)
Variable openai : ChatRequest.t -> Completion.

(** The request the handler sends to the service. *)
Definition chatRequest (config : FactConfiguration.t) (prompt : jsstring) : ChatRequest.t :=
  let responseLength := SystemFacts.responseLength (FactConfiguration.systemFacts config) in
  {| ChatRequest.model := lit "gpt-4o";
     ChatRequest.system := systemRole;
     ChatRequest.user := prompt;
     ChatRequest.max_tokens := max_tokens responseLength;
     ChatRequest.temperature := 7 # 10 |}.

(** From the call of the service to the answer: common to both revisions of
    the handler.  The answer of the service is saved before the sentiment is
    computed; [feedbackText.toLowerCase()] throws when [feedbackText] is not a
    string, the values that get here being truthy: a number, [true], an array
    or an object, none of which has the method. *)
Definition complete (storage : S) (feedbackText : BodyValue)
    (config : FactConfiguration.t) (prompt : jsstring) : S * Reply :=
  match openai (chatRequest config prompt) with
  | Throws message =>
    (storage, Failure 500 (lit "Failed to generate AI response") message)
  | Content content =>
    if falsy content then
      (storage, Message 500 (lit "Failed to generate response"))
    else
      let aiResponse := default [] content in
      let '(storage', savedResponse) :=
        createFeedbackResponse storage
          {| InsertFeedbackResponse.feedbackText := feedbackText;
             InsertFeedbackResponse.aiResponse := aiResponse;
             InsertFeedbackResponse.configurationId := Some (FactConfiguration.id config) |} in
      match feedbackText with
      | StringValue text =>
        (storage', Generated savedResponse (wordCount aiResponse) (sentiment text))
      | _ =>
        (storage',
         Failure 500 (lit "Failed to generate AI response")
                 (lit "feedbackText.toLowerCase is not a function"))
      end
  end.

(** Validation of the text, choice of the configuration, and the prompt.
    What is thrown on the way is caught by the handler, which answers status
    500 with the message of the error. *)
Definition prepare (storage : S) (body : RequestBody.t)
    : Reply + (BodyValue * FactConfiguration.t * jsstring) :=
  if BodyValue_falsy (RequestBody.feedbackText body) then
    inl (Message 400 (lit "Feedback text is required"))
  else
    let feedbackText := RequestBody.feedbackText body in
    let config :=
      match RequestBody.configurationId body with
      | Some configurationId =>
        if configurationId =? 0 then getLatestFactConfiguration storage
        else getFactConfiguration storage configurationId
      | None => getLatestFactConfiguration storage
      end in
    match config with
    | None => inl (Message 404 (lit "Configuration not found"))
    | Some config =>
      match readConfiguration config with
      | inl property =>
        inl (Failure 500 (lit "Failed to generate AI response")
                     (TypeError_reading property))
      | inr config =>
        match BodyValue_ToString feedbackText with
        | None =>
          inl (Failure 500 (lit "Failed to generate AI response")
                       (lit "Cannot convert object to primitive value"))
        | Some text =>
          let prompt := render config text in
          let prompt :=
            appendLengthGuidance prompt
              (SystemFacts.responseLength (FactConfiguration.systemFacts config)) in
          inr (feedbackText, config, prompt)
        end
      end
    end.

(** The handler as first written: the service is always called. *)
Definition generateResponse_first (storage : S) (body : RequestBody.t) : S * Reply :=
  match prepare storage body with
  | inl reply => (storage, reply)
  | inr (feedbackText, config, prompt) => complete storage feedbackText config prompt
  end.

(** The handler with the check of the API key ([openaiApiKey] is the value
    of the environment variable, if any). *)
Definition generateResponse (openaiApiKey : option jsstring)
    (storage : S) (body : RequestBody.t) : S * Reply :=
  match prepare storage body with
  | inl reply => (storage, reply)
  | inr (feedbackText, config, prompt) =>
    if falsy openaiApiKey
       || String_eqb (default [] openaiApiKey) (lit "dummy_key_for_development")
    then
      (storage,
       Failure 500
         (lit "OpenAI API key not configured. Please set the OPENAI_API_KEY environment variable.")
         (lit "Missing API key"))
    else complete storage feedbackText config prompt
  end.

End Handler.

(** ** Sample data *)

(** The default facts, stored under identifier 1, with a template of
    one's choice. *)
Definition sampleConfiguration (promptTemplate : jsstring) : FactConfiguration.t :=
  {| FactConfiguration.id := 1;
     FactConfiguration.restaurantFacts :=
       InsertFactConfiguration.restaurantFacts defaultConfiguration;
     FactConfiguration.customerFacts :=
       InsertFactConfiguration.customerFacts defaultConfiguration;
     FactConfiguration.systemFacts :=
       {| SystemFacts.promptTemplate := promptTemplate;
          SystemFacts.responseLength := lit "medium";
          SystemFacts.includeApology := true;
          SystemFacts.includeMarketing := true;
          SystemFacts.multipleResponses := false |} |}.

(** The same, for a customer of another name. *)
Definition sampleConfigurationFor (customerName promptTemplate : jsstring)
    : FactConfiguration.t :=
  {| FactConfiguration.id := 1;
     FactConfiguration.restaurantFacts :=
       InsertFactConfiguration.restaurantFacts defaultConfiguration;
     FactConfiguration.customerFacts :=
       {| CustomerFacts.name := customerName;
          CustomerFacts.gender := lit "M";
          CustomerFacts.history := lit "Long-time";
          CustomerFacts.meal := lit "Dinner";
          CustomerFacts.todoFacts := [lit "Prefers window seating"] |};
     FactConfiguration.systemFacts :=
       FactConfiguration.systemFacts (sampleConfiguration promptTemplate) |}.

(** A payload that gives the restaurant facts only. *)
Definition samplePartial : PartialFactConfiguration.t :=
  {| PartialFactConfiguration.restaurantFacts :=
       KeyValue
            {| RestaurantFacts.name := lit "Harbour Grill";
               RestaurantFacts.address := lit "9 Quay Road";
               RestaurantFacts.url := lit "https://harbourgrill.example";
               RestaurantFacts.type := lit "Fine dining";
               RestaurantFacts.brandTone := lit "Formal";
               RestaurantFacts.todoFacts := [] |};
     PartialFactConfiguration.customerFacts := KeyAbsent;
     PartialFactConfiguration.systemFacts := KeyAbsent |}.

Definition sampleResponse : InsertFeedbackResponse.t :=
  {| InsertFeedbackResponse.feedbackText := StringValue (lit "Great food!");
     InsertFeedbackResponse.aiResponse := lit "Thank you!";
     InsertFeedbackResponse.configurationId := Some 1 |}.

(** A sequence of calls on a store. *)
Definition sampleCalls : list call :=
  [CreateFactConfiguration defaultConfiguration;
   CreateFactConfiguration defaultConfiguration;
   UpdateFactConfiguration 1 samplePartial;
   CreateFeedbackResponse sampleResponse;
   CreateFactConfiguration defaultConfiguration].

(** A service that answers an empty content. *)
Definition emptyCompletion (request : ChatRequest.t) : Completion :=
  Content (Some []).

(** ** Invariants of the stores *)

(** [MemStorage]: an object is stored under its own identifier, and the
    identifiers in use are below the counter. *)
Definition MemStorage_invariant (this : MemStorage.t) : Prop :=
  (forall k config, MemStorage.factConfigs this !! k = Some config ->
     StoredConfiguration.id config = k /\ k < MemStorage.currentConfigId this)
  /\ (forall k response, MemStorage.feedbackResp this !! k = Some response ->
        FeedbackResponse.id response = k /\ k < MemStorage.currentResponseId this).

(** [FileStorage]: each array is in increasing order of identifier, and the
    identifiers in use are below [nextId]. *)
Definition FileStorage_invariant (this : FileStorage.t) : Prop :=
  let configurations := FileStorage.configFile this in
  let responses := FileStorage.responsesFile this in
  (StronglySorted Z.lt (map StoredConfiguration.id (ConfigurationsFile.configs configurations))
   /\ Forall (fun i => i < ConfigurationsFile.nextId configurations)
        (map StoredConfiguration.id (ConfigurationsFile.configs configurations)))
  /\ (StronglySorted Z.lt (map FeedbackResponse.id (ResponsesFile.responses responses))
      /\ Forall (fun i => i < ResponsesFile.nextId responses)
           (map FeedbackResponse.id (ResponsesFile.responses responses))).

(** ** Statements about a store, in terms of the interface *)

(** Identifiers given out by [create] increase, and are not in use. *)
Definition identifiers_increase (S : Type) `{IStorage S} (init : S) : Prop :=
  (forall (storage : S) (calls : list call),
     StronglySorted Z.lt (configurationIds (snd (run storage calls)))
     /\ StronglySorted Z.lt (responseIds (snd (run storage calls))))
  /\ (forall (storage : S) (c1 c2 : InsertFactConfiguration.t),
        FactConfiguration.id (snd (createFactConfiguration storage c1))
        < FactConfiguration.id
            (snd (createFactConfiguration (fst (createFactConfiguration storage c1)) c2)))
  /\ (forall (storage : S) (r1 r2 : InsertFeedbackResponse.t),
        FeedbackResponse.id (snd (createFeedbackResponse storage r1))
        < FeedbackResponse.id
            (snd (createFeedbackResponse (fst (createFeedbackResponse storage r1)) r2)))
  /\ (forall storage : S, reachable init storage ->
        forall (config : InsertFactConfiguration.t) (response : InsertFeedbackResponse.t),
          getFactConfiguration storage
            (FactConfiguration.id (snd (createFactConfiguration storage config))) = None
          /\ getFeedbackResponse storage
               (FeedbackResponse.id (snd (createFeedbackResponse storage response))) = None).

(** [getLatestFactConfiguration] answers a configuration of the store whose
    identifier is the highest, and nothing exactly when the store has no
    configuration. *)
Definition latest_is_highest {S : Type} `{IStorage S} (storage : S) : Prop :=
  (getLatestFactConfiguration storage = None
   <-> forall id, getFactConfiguration storage id = None)
  /\ forall latest, getLatestFactConfiguration storage = Some latest ->
       getFactConfiguration storage (StoredConfiguration.id latest) = Some latest
       /\ forall id config, getFactConfiguration storage id = Some config ->
            StoredConfiguration.id config <= StoredConfiguration.id latest.

(** The wording of the specification, for one fact group: a group the
    payload gives replaces the stored one; a group it does not give, be the
    key absent or its value [undefined], is left as it is. *)
Definition group_updated {A} (payload : property A) (existing updated : option A)
    : Prop :=
  match payload with
  | KeyValue a => updated = Some a
  | KeyAbsent | KeyUndefined => updated = existing
  end.

(** No key of the payload has the value [undefined]. *)
Definition defined {A} (payload : property A) : bool :=
  match payload with
  | KeyUndefined => false
  | _ => true
  end.

Definition defined_payload (partial : PartialFactConfiguration.t) : bool :=
  defined (PartialFactConfiguration.restaurantFacts partial)
  && defined (PartialFactConfiguration.customerFacts partial)
  && defined (PartialFactConfiguration.systemFacts partial).

(** [updateFactConfiguration] on an identifier of the store, for the
    payloads [covered]: the fact groups given replace the stored ones, the
    others and the identifier are kept, the configuration stays under its
    identifier, and nothing else changes. *)
Definition update_in_place (S : Type) `{IStorage S}
    (covered : PartialFactConfiguration.t -> Prop) : Prop :=
  forall (storage : S) (id : Z) (partial : PartialFactConfiguration.t)
         (existing : StoredConfiguration.t),
    covered partial ->
    getFactConfiguration storage id = Some existing ->
    exists updated,
      snd (updateFactConfiguration storage id partial) = Some updated
      /\ StoredConfiguration.id updated = id
      /\ group_updated (PartialFactConfiguration.restaurantFacts partial)
           (StoredConfiguration.restaurantFacts existing)
           (StoredConfiguration.restaurantFacts updated)
      /\ group_updated (PartialFactConfiguration.customerFacts partial)
           (StoredConfiguration.customerFacts existing)
           (StoredConfiguration.customerFacts updated)
      /\ group_updated (PartialFactConfiguration.systemFacts partial)
           (StoredConfiguration.systemFacts existing)
           (StoredConfiguration.systemFacts updated)
      /\ getFactConfiguration (fst (updateFactConfiguration storage id partial)) id
         = Some updated
      /\ (forall id', id' <> id ->
            getFactConfiguration (fst (updateFactConfiguration storage id partial)) id'
            = getFactConfiguration storage id')
      /\ getAllFeedbackResponses (fst (updateFactConfiguration storage id partial))
         = getAllFeedbackResponses storage
      /\ FactConfiguration.id
           (snd (createFactConfiguration
                   (fst (updateFactConfiguration storage id partial)) defaultConfiguration))
         = FactConfiguration.id (snd (createFactConfiguration storage defaultConfiguration)).

(** [updateFactConfiguration] on an identifier the store does not have. *)
Definition update_not_found (S : Type) `{IStorage S} : Prop :=
  forall (storage : S) (id : Z) (partial : PartialFactConfiguration.t),
    getFactConfiguration storage id = None ->
    updateFactConfiguration storage id partial = (storage, None).

(** ** Templates as sequences of text and placeholders *)

Inductive segment :=
  | Text (s : jsstring)
  | Hole (p : placeholder).

Definition segment_text (seg : segment) : jsstring :=
  match seg with
  | Text s => s
  | Hole p => token p
  end.

(** The template a sequence of segments stands for. *)
Definition flatten (segs : list segment) : jsstring :=
  concat (map segment_text segs).

(** The text of a segment has no opening brace. *)
Definition plain (seg : segment) : bool :=
  match seg with
  | Text s => lacks (ch "{") s
  | Hole _ => true
  end.

(** The value of a placeholder has neither an opening brace nor a dollar
    sign. *)
Definition value_plain (config : FactConfiguration.t) (feedbackText : jsstring)
    (p : placeholder) : bool :=
  lacks (ch "{") (value config feedbackText p)
  && lacks (ch "$") (value config feedbackText p).

(** The placeholder of a segment, if any, has such a value. *)
Definition substitutable (config : FactConfiguration.t) (feedbackText : jsstring)
    (seg : segment) : bool :=
  match seg with
  | Text _ => true
  | Hole p => value_plain config feedbackText p
  end.

(** A placeholder replaced by its value. *)
Definition fill (config : FactConfiguration.t) (feedbackText : jsstring)
    (seg : segment) : segment :=
  match seg with
  | Text s => Text s
  | Hole p => Text (value config feedbackText p)
  end.

(** The effect of the call for [q] on a segment, and of the calls for a list
    of placeholders. *)
Definition step (config : FactConfiguration.t) (feedbackText : jsstring)
    (q : placeholder) (seg : segment) : segment :=
  match seg with
  | Text s => Text s
  | Hole p => if decide (p = q) then Text (value config feedbackText q) else Hole p
  end.

Definition steps (config : FactConfiguration.t) (feedbackText : jsstring)
    (l : list placeholder) (seg : segment) : segment :=
  fold_left (fun seg q => step config feedbackText q seg) l seg.

(** The placeholders of a sequence of segments. *)
Fixpoint holes (segs : list segment) : list placeholder :=
  match segs with
  | [] => []
  | Text _ :: segs' => holes segs'
  | Hole p :: segs' => p :: holes segs'
  end.

(** The default template, cut at the placeholder of the feedback text. *)
Definition defaultSegmentsBefore : list segment :=
  [Text (lit "You are a customer relationship manager for a restaurant named " ++ DQ);
   Hole RestaurantName;
   Text (DQ ++ lit ", located at " ++ DQ);
   Hole Address;
   Text (DQ ++ lit ". The restaurant type is " ++ DQ);
   Hole RestaurantType;
   Text (DQ ++ lit " and communicates with a " ++ DQ);
   Hole BrandTone;
   Text (DQ ++ lit " tone." ++ [LF; LF] ++ lit "A customer named " ++ DQ);
   Hole CustomerName;
   Text (DQ ++ lit " (");
   Hole Gender;
   Text (lit "), a " ++ DQ);
   Hole CustomerHistory;
   Text (DQ ++ lit " customer, recently had " ++ DQ);
   Hole MealType;
   Text (DQ ++ lit " and left feedback: " ++ DQ)].

Definition defaultSegmentsAfter : list segment :=
  [Text (DQ ++ lit "." ++ [LF; LF]
         ++ lit "Consider the following additional restaurant facts: ");
   Hole RestaurantTodoListFacts;
   Text ([LF] ++ lit "Consider the following additional customer facts: ");
   Hole CustomerTodoListFacts;
   Text ([LF; LF] ++ lit "Generate a thoughtful, concise response addressing the customer's feedback appropriately. If feedback is negative, consider a polite apology. If positive, consider a friendly marketing message inviting them back.")].

(** ** More string built-ins *)

(** [String.prototype.trimStart], [trimEnd] and [trim]: the code units removed
    are the ones [\s] matches. *)
Fixpoint trimStart (str : jsstring) : jsstring :=
  match str with
  | [] => []
  | c :: str' => if is_space c then trimStart str' else str
  end.

Definition trimEnd (str : jsstring) : jsstring := rev (trimStart (rev str)).

Definition trim (str : jsstring) : jsstring := trimEnd (trimStart str).

(** [str.replace(pat, repl)] for a string [pat]: the first occurrence of
    [pat] is replaced by the expansion of [repl], the rest is kept. *)
Fixpoint replaceFirst_scan (pat repl str : jsstring) (position : nat)
    (rest : jsstring) {struct rest} : jsstring :=
  if startsWith pat rest then
    GetSubstitution pat str position repl ++ drop (length pat) rest
  else
    match rest with
    | [] => []
    | c :: rest' => c :: replaceFirst_scan pat repl str (S position) rest'
    end.

Definition replaceFirst (pat repl str : jsstring) : jsstring :=
  replaceFirst_scan pat repl str 0 str.


(** [str.substring(0, n)] *)
Definition substring0 (n : nat) (str : jsstring) : jsstring := take n str.

(** The decimal text of an integer, as a template literal prints it. *)
Definition Number_toString (n : Z) : jsstring :=
  lit (NilZero.string_of_int (Z.to_int n)).

(** Number of spaces (U+0020) of a text. *)
Definition spaces (str : jsstring) : nat :=
  length (List.filter (fun c => (c =? ch " ")%N) str).

(** ** The other routes on the stores *)

(** Answers of [GET] and [POST /api/fact-configuration]. *)
Inductive ConfigurationReply :=
  | ConfigurationJson (config : StoredConfiguration.t)
  | ConfigurationMessage (status : Z) (message : jsstring)
  | ConfigurationInvalid (status : Z) (message error : jsstring).

(** Answers of [POST /api/save-response] and [POST /api/email-response]. *)
Inductive ResponseReply :=
  | ResponseSaved (message filename : jsstring)
  | ResponseSent (message : jsstring)
  | ResponseMessage (status : Z) (message : jsstring).

Section Routes.

Context {S : Type} `{IStorage S}.

(** [GET /api/fact-configuration] *)
Definition getFactConfigurationRoute (storage : S) : ConfigurationReply :=
  match getLatestFactConfiguration storage with
  | None => ConfigurationMessage 404 (lit "No configuration found")
  | Some config => ConfigurationJson config
  end.

(** [POST /api/fact-configuration]: [parsed] is what
    [insertFactConfigurationSchema.parse(req.body)] does, it throws an error
    with a message or answers the validated data. *)
Definition postFactConfigurationRoute (storage : S)
    (parsed : jsstring + InsertFactConfiguration.t) : S * ConfigurationReply :=
  match parsed with
  | inl message =>
    (storage, ConfigurationInvalid 400 (lit "Invalid configuration data") message)
  | inr validatedData =>
    let '(storage', config) := createFactConfiguration storage validatedData in
    (storage', ConfigurationJson (stored config))
  end.

(** [storage.getFeedbackResponse(responseId)] for the [responseId] of a
    request body, a number or missing. *)
Definition lookupResponse (storage : S) (responseId : option Z)
    : option FeedbackResponse.t :=
  match responseId with
  | Some id => getFeedbackResponse storage id
  | None => None
  end.

(** How a template literal prints [responseId]. *)
Definition responseId_text (responseId : option Z) : jsstring :=
  match responseId with
  | Some id => Number_toString id
  | None => lit "undefined"
  end.

(** [POST /api/save-response] *)
Definition saveResponseRoute (storage : S) (responseId : option Z) : ResponseReply :=
  match lookupResponse storage responseId with
  | None => ResponseMessage 404 (lit "Response not found")
  | Some response =>
    ResponseSaved (lit "Response saved successfully")
                  (lit "response_" ++ responseId_text responseId ++ lit ".txt")
  end.

(** [POST /api/email-response] *)
Definition emailResponseRoute (storage : S) (responseId : option Z)
    (customerEmail : jsstring) : ResponseReply :=
  match lookupResponse storage responseId with
  | None => ResponseMessage 404 (lit "Response not found")
  | Some response => ResponseSent (lit "Email sent successfully")
  end.

End Routes.

(** ** The response generator of the client *)

(** [handleGenerateResponse]: the body of the request sent for the text of
    the feedback field, or nothing when the trimmed text is empty. *)
Definition handleGenerateResponse (feedbackText : jsstring)
    (configuration : FactConfiguration.t) : option RequestBody.t :=
  if String_eqb (trim feedbackText) [] then None
  else Some {| RequestBody.feedbackText := StringValue (trim feedbackText);
               RequestBody.configurationId := Some (FactConfiguration.id configuration) |}.

(** [handleEmailCustomer]: the address made from the name of the customer.
    [lowerCase] stands for [String.prototype.toLowerCase]. *)
Definition customerEmail (lowerCase : jsstring -> jsstring)
    (configuration : FactConfiguration.t) : jsstring :=
  replaceFirst (lit " ") (lit ".")
    (lowerCase (CustomerFacts.name (FactConfiguration.customerFacts configuration)))
  ++ lit "@example.com".

(** ** Profile files *)




(** A text that is not empty and has no white space, as the keywords of
    [sentiment]. *)
Definition spaceless (keyword : jsstring) : bool :=
  nonempty keyword && forallb (fun c => negb (is_space c)) keyword.

(** A text made of white space only. *)
Definition blank (str : jsstring) : Prop := Forall (fun c => is_space c = true) str.

(** ** Facts extracted from a screenshot *)

(** A fact, as the client reads the answer of
    [/api/analyze-feedback-screenshot]. *)
Module ExtractedFact.
Record t := mk {
  category : jsstring;
  value : jsstring;
  confidence : jsstring
}.
End ExtractedFact.

(** The longest prefix of [str] that ends with [c]. *)
Fixpoint upToLast (c : N) (str : jsstring) : option jsstring :=
  match str with
  | [] => None
  | x :: str' =>
    match upToLast c str' with
    | Some prefix => Some (x :: prefix)
    | None => if (x =? c)%N then Some [x] else None
    end
  end.

(** [responseText.match(/\[[\s\S]*\]/)]: the text from the first opening
    bracket to the last closing bracket after it. *)
Fixpoint matchJsonArray (str : jsstring) : option jsstring :=
  match str with
  | [] => None
  | x :: str' =>
    if (x =? ch "[")%N then
      match upToLast (ch "]") str' with
      | Some inner => Some (x :: inner)
      | None => None
      end
    else matchJsonArray str'
  end.

Section Screenshot.

(** [JSON.parse], with its answer read as an array of facts; [None] when it
    throws. *)
Variable JSON_parse : jsstring -> option (list ExtractedFact.t).

(** The facts the route makes of the text answered by the service. *)
Definition extractFacts (responseText : jsstring) : list ExtractedFact.t :=
  let fallback :=
    [{| ExtractedFact.category := lit "Raw Feedback";
        ExtractedFact.value := substring0 200 responseText;
        ExtractedFact.confidence := lit "low" |}] in
  match matchJsonArray responseText with
  | Some jsonMatch =>
    match JSON_parse jsonMatch with
    | Some extractedFacts => extractedFacts
    | None => fallback
    end
  | None => fallback
  end.

End Screenshot.

(** The strings the client makes of the facts ([processImage],
    [handleAddToCustomerFacts]). *)
Definition factStrings (facts : list ExtractedFact.t) : list jsstring :=
  map (fun fact => ExtractedFact.category fact ++ lit ": " ++ ExtractedFact.value fact)
      facts.

(** ** The facts editor of the client *)

(** [array.filter((_, i) => keep(i))] and [array.map((x, i) => f(x, i))],
    [i] being the index of the head. *)
Fixpoint filter_index {A} (keep : nat -> bool) (i : nat) (l : list A) : list A :=
  match l with
  | [] => []
  | x :: l' =>
    if keep i then x :: filter_index keep (S i) l' else filter_index keep (S i) l'
  end.

Fixpoint map_index {A B} (f : A -> nat -> B) (i : nat) (l : list A) : list B :=
  match l with
  | [] => []
  | x :: l' => f x i :: map_index f (S i) l'
  end.

Module FactsEditor.

(** The state of the component: the two lists being edited and the index of
    the fact being edited in each. *)
Record State := mkState {
  localRestaurantFacts : list jsstring;
  localCustomerFacts : list jsstring;
  editingRestaurantFact : option nat;
  editingCustomerFact : option nat
}.

(** [updateRestaurantFacts({ todoFacts })] and
    [updateCustomerFacts({ todoFacts })]: the configuration given to
    [onConfigurationChange]. *)
Definition updateRestaurantFacts (configuration : FactConfiguration.t)
    (todoFacts : list jsstring) : FactConfiguration.t :=
  let facts := FactConfiguration.restaurantFacts configuration in
  {| FactConfiguration.id := FactConfiguration.id configuration;
     FactConfiguration.restaurantFacts :=
       {| RestaurantFacts.name := RestaurantFacts.name facts;
          RestaurantFacts.address := RestaurantFacts.address facts;
          RestaurantFacts.url := RestaurantFacts.url facts;
          RestaurantFacts.type := RestaurantFacts.type facts;
          RestaurantFacts.brandTone := RestaurantFacts.brandTone facts;
          RestaurantFacts.todoFacts := todoFacts |};
     FactConfiguration.customerFacts := FactConfiguration.customerFacts configuration;
     FactConfiguration.systemFacts := FactConfiguration.systemFacts configuration |}.

Definition updateCustomerFacts (configuration : FactConfiguration.t)
    (todoFacts : list jsstring) : FactConfiguration.t :=
  let facts := FactConfiguration.customerFacts configuration in
  {| FactConfiguration.id := FactConfiguration.id configuration;
     FactConfiguration.restaurantFacts := FactConfiguration.restaurantFacts configuration;
     FactConfiguration.customerFacts :=
       {| CustomerFacts.name := CustomerFacts.name facts;
          CustomerFacts.gender := CustomerFacts.gender facts;
          CustomerFacts.history := CustomerFacts.history facts;
          CustomerFacts.meal := CustomerFacts.meal facts;
          CustomerFacts.todoFacts := todoFacts |};
     FactConfiguration.systemFacts := FactConfiguration.systemFacts configuration |}.

(** A handler answers the next state and the configuration it gives to
    [onConfigurationChange], if it calls it. *)

Definition addRestaurantFact (configuration : FactConfiguration.t) (state : State)
    : State * option FactConfiguration.t :=
  let newFacts := localRestaurantFacts state ++ [[]] in
  ({| localRestaurantFacts := newFacts;
      localCustomerFacts := localCustomerFacts state;
      editingRestaurantFact := Some (length newFacts - 1)%nat;
      editingCustomerFact := editingCustomerFact state |},
   Some (updateRestaurantFacts configuration newFacts)).

Definition removeRestaurantFact (configuration : FactConfiguration.t) (state : State)
    (index : nat) : State * option FactConfiguration.t :=
  let newFacts :=
    filter_index (fun i => negb (i =? index)%nat) 0 (localRestaurantFacts state) in
  ({| localRestaurantFacts := newFacts;
      localCustomerFacts := localCustomerFacts state;
      editingRestaurantFact := None;
      editingCustomerFact := editingCustomerFact state |},
   Some (updateRestaurantFacts configuration newFacts)).

Definition updateLocalRestaurantFact (state : State) (index : nat) (value : jsstring)
    : State * option FactConfiguration.t :=
  let newFacts :=
    map_index (fun fact i => if (i =? index)%nat then value else fact) 0
              (localRestaurantFacts state) in
  ({| localRestaurantFacts := newFacts;
      localCustomerFacts := localCustomerFacts state;
      editingRestaurantFact := editingRestaurantFact state;
      editingCustomerFact := editingCustomerFact state |},
   None).

Definition saveRestaurantFact (configuration : FactConfiguration.t) (state : State)
    (index : nat) : State * option FactConfiguration.t :=
  ({| localRestaurantFacts := localRestaurantFacts state;
      localCustomerFacts := localCustomerFacts state;
      editingRestaurantFact := None;
      editingCustomerFact := editingCustomerFact state |},
   Some (updateRestaurantFacts configuration (localRestaurantFacts state))).

Definition addCustomerFact (configuration : FactConfiguration.t) (state : State)
    : State * option FactConfiguration.t :=
  let newFacts := localCustomerFacts state ++ [[]] in
  ({| localRestaurantFacts := localRestaurantFacts state;
      localCustomerFacts := newFacts;
      editingRestaurantFact := editingRestaurantFact state;
      editingCustomerFact := Some (length newFacts - 1)%nat |},
   Some (updateCustomerFacts configuration newFacts)).

Definition removeCustomerFact (configuration : FactConfiguration.t) (state : State)
    (index : nat) : State * option FactConfiguration.t :=
  let newFacts :=
    filter_index (fun i => negb (i =? index)%nat) 0 (localCustomerFacts state) in
  ({| localRestaurantFacts := localRestaurantFacts state;
      localCustomerFacts := newFacts;
      editingRestaurantFact := editingRestaurantFact state;
      editingCustomerFact := None |},
   Some (updateCustomerFacts configuration newFacts)).

(** [handleRestaurantFactKeyDown]: Enter saves, Escape takes the facts of
    the configuration back. *)
Definition handleRestaurantFactKeyDown (configuration : FactConfiguration.t)
    (state : State) (key : jsstring) (index : nat) : State * option FactConfiguration.t :=
  let '(state, change) :=
    if String_eqb key (lit "Enter") then saveRestaurantFact configuration state index
    else (state, None) in
  if String_eqb key (lit "Escape") then
    ({| localRestaurantFacts :=
          RestaurantFacts.todoFacts (FactConfiguration.restaurantFacts configuration);
        localCustomerFacts := localCustomerFacts state;
        editingRestaurantFact := None;
        editingCustomerFact := editingCustomerFact state |},
     change)
  else (state, change).

(** [hasChanges] of a row: the fact differs from the one of the configuration
    at the same index, or from the empty string when there is none. *)
Definition restaurantFactHasChanges (configuration : FactConfiguration.t)
    (fact : jsstring) (index : nat) : bool :=
  negb (String_eqb fact
          (default []
             (RestaurantFacts.todoFacts (FactConfiguration.restaurantFacts configuration)
                !! index))).

End FactsEditor.

(** ** A further invariant of the file store *)

(** The identifiers in use are at least 1. *)
Definition FileStorage_positive (this : FileStorage.t) : Prop :=
  Forall (fun i => 1 <= i)
    (map StoredConfiguration.id (ConfigurationsFile.configs (FileStorage.configFile this)))
  /\ 1 <= ConfigurationsFile.nextId (FileStorage.configFile this).

(** A value in which no dollar sign is followed by [$], [&], a backquote or a
    quote: an amount such as [$20]. *)
Fixpoint dollar_safe (v : jsstring) : bool :=
  match v with
  | [] => true
  | c :: v' =>
    (if (c =? ch "$")%N then
       match v' with
       | [] => true
       | d :: _ => negb ((d =? ch "$") || (d =? ch "&") || (d =? ch "`") || (d =? ch "'"))%N
       end
     else true) && dollar_safe v'
  end.

(** ** Calls of the chain that find their token at the placeholders only *)

(** The call for [q] finds the token of [q] at the placeholders of [segs]
    only: the token occurs in the text of [segs] as often as [segs] has the
    placeholder. *)
Definition quiet (q : placeholder) (segs : list segment) : bool :=
  (occurrences (token q) (flatten segs) =? count_occ placeholder_eq_dec (holes segs) q)%nat.

(** The same at every call of a chain. *)
Fixpoint quiet_chain (config : FactConfiguration.t) (feedbackText : jsstring)
    (l : list placeholder) (segs : list segment) : bool :=
  match l with
  | [] => true
  | q :: l' =>
    quiet q segs && quiet_chain config feedbackText l' (map (step config feedbackText q) segs)
  end.

(** The values of the placeholders of [segs] are dollar-safe. *)
Definition safe_values (config : FactConfiguration.t) (feedbackText : jsstring)
    (segs : list segment) : bool :=
  forallb (fun p => dollar_safe (value config feedbackText p)) (holes segs).

(** The values of the placeholders of [segs] have no opening brace. *)
Definition braceless_values (config : FactConfiguration.t) (feedbackText : jsstring)
    (segs : list segment) : bool :=
  forallb (fun p => lacks (ch "{") (value config feedbackText p)) (holes segs).

(** ** Texts in which no token can start *)

(** [s] ends inside a brace: its last brace, if it has one, is an opening
    one; [inside] tells whether the text before [s] does. *)
Fixpoint unclosed (inside : bool) (s : jsstring) : bool :=
  match s with
  | [] => inside
  | c :: s' =>
    if (c =? ch "{")%N then unclosed true s'
    else if (c =? ch "}")%N then unclosed false s'
    else unclosed inside s'
  end.

(** A text that cannot take part in an occurrence of the token of [p] that
    the text around it completes: it does not hold the token, and it does not
    end inside a brace. *)
Definition inert (p : placeholder) (seg : segment) : bool :=
  negb (unclosed false (segment_text seg))
  && negb (includes (segment_text seg) (token p)).

(** The text of a segment, or the value of its placeholder, is inert for
    every recognized token. *)
Definition inert_all (config : FactConfiguration.t) (feedbackText : jsstring)
    (seg : segment) : bool :=
  forallb (fun q => inert q (fill config feedbackText seg)) placeholders.

(** ** Further statements about a store, in terms of the interface *)

(** [createFactConfiguration] keeps the facts it is given, and the
    configuration it answers is then the one stored under its identifier and
    the latest one; nothing else changes. *)
Definition create_configuration_round_trip {S : Type} `{IStorage S} (storage : S) : Prop :=
  forall config : InsertFactConfiguration.t,
    let created := snd (createFactConfiguration storage config) in
    let storage' := fst (createFactConfiguration storage config) in
    (FactConfiguration.restaurantFacts created = InsertFactConfiguration.restaurantFacts config
     /\ FactConfiguration.customerFacts created = InsertFactConfiguration.customerFacts config
     /\ FactConfiguration.systemFacts created = InsertFactConfiguration.systemFacts config)
    /\ getFactConfiguration storage' (FactConfiguration.id created) = Some (stored created)
    /\ getLatestFactConfiguration storage' = Some (stored created)
    /\ (forall id, id <> FactConfiguration.id created ->
          getFactConfiguration storage' id = getFactConfiguration storage id)
    /\ getAllFeedbackResponses storage' = getAllFeedbackResponses storage.

(** [createFeedbackResponse] keeps the two texts it is given, and the
    response it answers is then the one stored under its identifier and one
    more response of the list; nothing else changes. *)
Definition create_response_round_trip {S : Type} `{IStorage S} (storage : S) : Prop :=
  forall response : InsertFeedbackResponse.t,
    let saved := snd (createFeedbackResponse storage response) in
    let storage' := fst (createFeedbackResponse storage response) in
    (FeedbackResponse.feedbackText saved = InsertFeedbackResponse.feedbackText response
     /\ FeedbackResponse.aiResponse saved = InsertFeedbackResponse.aiResponse response)
    /\ getFeedbackResponse storage' (FeedbackResponse.id saved) = Some saved
    /\ (forall id, id <> FeedbackResponse.id saved ->
          getFeedbackResponse storage' id = getFeedbackResponse storage id)
    /\ length (getAllFeedbackResponses storage')
       = Datatypes.S (length (getAllFeedbackResponses storage))
    /\ In saved (getAllFeedbackResponses storage')
    /\ (forall id, getFactConfiguration storage' id = getFactConfiguration storage id)
    /\ getLatestFactConfiguration storage' = getLatestFactConfiguration storage.

(** No sequence of calls removes or changes a response, removes a
    configuration or changes its identifier. *)
Definition records_persist {S : Type} `{IStorage S} (storage : S) : Prop :=
  forall calls : list call,
    let storage' := fst (run storage calls) in
    (forall id response, getFeedbackResponse storage id = Some response ->
       getFeedbackResponse storage' id = Some response)
    /\ (forall id config, getFactConfiguration storage id = Some config ->
          exists config', getFactConfiguration storage' id = Some config'
                          /\ StoredConfiguration.id config' = StoredConfiguration.id config)
    /\ (length (getAllFeedbackResponses storage)
        <= length (getAllFeedbackResponses storage'))%nat.

(** ** Statements about the handler on a store *)


(** The key is configured. *)
Definition configured (openaiApiKey : option jsstring) : bool :=
  negb (falsy openaiApiKey
        || String_eqb (default [] openaiApiKey) (lit "dummy_key_for_development")).

(** The status of the answer is 200, 400, 404 or 500, and 200 only for a
    feedback text that is a string.  For a feedback text that is a string, or
    that is not truthy, the list of responses has one more with 200 and is
    the same otherwise.  For a text that is not a string the list of
    responses has one more, although the status is not 200, exactly when the
    service is asked and answers a text: the response is saved before
    [toLowerCase] is called on the feedback text, and the answer is the
    status 500 of the [catch] clause. *)
Definition one_response_per_success {S : Type} `{IStorage S} (storage : S) : Prop :=
  forall (openai : ChatRequest.t -> Completion) (openaiApiKey : option jsstring)
         (body : RequestBody.t),
    let result := generateResponse openai openaiApiKey storage body in
    let before := length (getAllFeedbackResponses storage) in
    let after := length (getAllFeedbackResponses (fst result)) in
    In (status (snd result)) [200; 400; 404; 500]
    /\ (status (snd result) = 200 ->
        exists text, RequestBody.feedbackText body = StringValue text)
    /\ ((exists text, RequestBody.feedbackText body = StringValue text)
        \/ BodyValue_falsy (RequestBody.feedbackText body) = true ->
        after = (before + if Z.eqb (status (snd result)) 200 then 1 else 0)%nat)
    /\ (forall truthy text,
          RequestBody.feedbackText body = OtherValue truthy text ->
          (after = before \/ after = Datatypes.S before)
          /\ (after = Datatypes.S before
              <-> exists config prompt aiResponse,
                    prepare storage body
                      = inr (RequestBody.feedbackText body, config, prompt)
                    /\ configured openaiApiKey = true
                    /\ openai (chatRequest config prompt) = Content (Some aiResponse)
                    /\ aiResponse <> [])
          /\ (after = Datatypes.S before ->
              snd result
              = Failure 500 (lit "Failed to generate AI response")
                        (lit "feedbackText.toLowerCase is not a function"))).

(** The response of an answer of the handler is found by the routes that
    save it and send it. *)
Definition generated_response_found {S : Type} `{IStorage S} (storage : S) : Prop :=
  forall (openai : ChatRequest.t -> Completion) (openaiApiKey : option jsstring)
         (body : RequestBody.t) (storage' : S) (saved : FeedbackResponse.t)
         (count : nat) (tone : jsstring),
    generateResponse openai openaiApiKey storage body
      = (storage', Generated saved count tone) ->
    saveResponseRoute storage' (Some (FeedbackResponse.id saved))
      = ResponseSaved (lit "Response saved successfully")
          (lit "response_" ++ Number_toString (FeedbackResponse.id saved) ++ lit ".txt")
    /\ forall customerEmail,
         emailResponseRoute storage' (Some (FeedbackResponse.id saved)) customerEmail
         = ResponseSent (lit "Email sent successfully").

(** A configuration posted is the one the next [GET] answers and the one the
    handler uses for a request without identifier. *)
Definition posted_configuration_used {S : Type} `{IStorage S} (storage : S) : Prop :=
  forall (validatedData : InsertFactConfiguration.t),
    let result := postFactConfigurationRoute storage (inr validatedData) in
    exists config,
      snd result = ConfigurationJson (stored config)
      /\ FactConfiguration.restaurantFacts config
         = InsertFactConfiguration.restaurantFacts validatedData
      /\ FactConfiguration.customerFacts config
         = InsertFactConfiguration.customerFacts validatedData
      /\ FactConfiguration.systemFacts config
         = InsertFactConfiguration.systemFacts validatedData
      /\ getFactConfigurationRoute (fst result) = ConfigurationJson (stored config)
      /\ forall feedbackText, feedbackText <> [] ->
           prepare (fst result)
             {| RequestBody.feedbackText := StringValue feedbackText;
                RequestBody.configurationId := None |}
           = inr (StringValue feedbackText, config,
                  appendLengthGuidance (render config feedbackText)
                    (SystemFacts.responseLength (FactConfiguration.systemFacts config))).

(** ** Further sample data *)

(** A service that answers the text of [sampleResponse], a request for the
    latest configuration, and a key. *)
Definition sampleCompletion (request : ChatRequest.t) : Completion :=
  Content (Some (lit "Thank you!")).

Definition sampleBody : RequestBody.t :=
  {| RequestBody.feedbackText := StringValue (lit "Great food!");
     RequestBody.configurationId := None |}.

Definition sampleKey : option jsstring := Some (lit "sk-test").

(** The answer of the handler is 404 exactly for a request with a feedback
    text and a configuration identifier, other than 0, that the store does
    not have. *)
Definition not_found_is_unknown_identifier {S : Type} `{IStorage S} (storage : S) : Prop :=
  forall (openai : ChatRequest.t -> Completion) (openaiApiKey : option jsstring)
         (body : RequestBody.t),
    status (snd (generateResponse openai openaiApiKey storage body)) = 404
    <-> BodyValue_falsy (RequestBody.feedbackText body) = false
        /\ exists configurationId,
             RequestBody.configurationId body = Some configurationId
             /\ configurationId <> 0
             /\ getFactConfiguration storage configurationId = None.

(** ** The two stores side by side *)

(** The two stores answer the same to every read. *)
Definition stores_agree (mem : MemStorage.t) (file : FileStorage.t) : Prop :=
  (forall id, getFactConfiguration mem id = getFactConfiguration file id)
  /\ getLatestFactConfiguration mem = getLatestFactConfiguration file
  /\ (forall id, getFeedbackResponse mem id = getFeedbackResponse file id)
  /\ length (getAllFeedbackResponses mem) = length (getAllFeedbackResponses file).

(** The calls for which the two stores are compared: a call that creates a
    response gives the identifier of a configuration, other than 0, and no
    key of the payload of an update has the value [undefined]. *)
Definition taken_alike (c : call) : bool :=
  match c with
  | CreateFactConfiguration _ => true
  | UpdateFactConfiguration _ partial => defined_payload partial
  | CreateFeedbackResponse response =>
    match InsertFeedbackResponse.configurationId response with
    | Some configurationId => negb (configurationId =? 0)
    | None => false
    end
  end.

(** The fields of an in-memory store and of a file-backed store hold the
    same: the counters are equal, and a map has under an identifier what
    [find] answers for it in the array. *)
Definition stores_related (mem : MemStorage.t) (file : FileStorage.t) : Prop :=
  (MemStorage.currentConfigId mem = ConfigurationsFile.nextId (FileStorage.configFile file)
   /\ MemStorage.currentResponseId mem = ResponsesFile.nextId (FileStorage.responsesFile file))
  /\ (forall id,
        MemStorage.factConfigs mem !! id
        = List.find (fun config => StoredConfiguration.id config =? id)
            (ConfigurationsFile.configs (FileStorage.configFile file)))
  /\ (forall id,
        MemStorage.feedbackResp mem !! id
        = List.find (fun response => FeedbackResponse.id response =? id)
            (ResponsesFile.responses (FileStorage.responsesFile file)))
  /\ size (MemStorage.feedbackResp mem)
     = length (ResponsesFile.responses (FileStorage.responsesFile file)).

(** The responses listed are the ones stored under their identifiers. *)
Definition responses_listed {S : Type} `{IStorage S} (storage : S) : Prop :=
  forall response : FeedbackResponse.t,
    In response (getAllFeedbackResponses storage)
    <-> getFeedbackResponse storage (FeedbackResponse.id response) = Some response.
(** * Properties *)

(** ** Strings *)

Lemma startsWith_app (p s : jsstring) : startsWith p (p ++ s) = true.
Proof.
  induction p as [|c p IH]; simpl; [reflexivity|].
  rewrite N.eqb_refl. exact IH.
Qed.

Lemma startsWith_spec (p s : jsstring) :
  startsWith p s = true <-> exists t, s = p ++ t.
Proof.
  revert s. induction p as [|c p IH]; intros s; simpl.
  - split; [eauto|reflexivity].
  - destruct s as [|d s]; [split; [discriminate|intros [t Ht]; discriminate]|].
    rewrite andb_true_iff, N.eqb_eq, IH. split.
    + intros [-> [t ->]]. eauto.
    + intros [t Ht]. injection Ht as -> ->. eauto.
Qed.

Lemma includes_spec (s sub : jsstring) :
  includes s sub = true <-> exists before after, s = before ++ sub ++ after.
Proof.
  induction s as [|c s IH]; simpl.
  - rewrite orb_false_r, startsWith_spec. split.
    + intros [t Ht]. exists [], t. exact Ht.
    + intros [b [a Hs]]. destruct b; [eauto|discriminate].
  - rewrite orb_true_iff, startsWith_spec, IH. split.
    + intros [[t Ht]|[b [a Hs]]].
      * exists [], t. exact Ht.
      * exists (c :: b), a. simpl. congruence.
    + intros [[|d b] [a Hs]]; simpl in Hs.
      * left. eauto.
      * right. injection Hs as -> ->. eauto.
Qed.

Lemma String_eqb_eq (a b : jsstring) : String_eqb a b = true <-> a = b.
Proof.
  revert b. induction a as [|x a IH]; intros [|y b]; simpl;
    try (split; [discriminate|congruence]); [tauto|].
  rewrite andb_true_iff, N.eqb_eq, IH. split; [intros [-> ->]|intros [= -> ->]]; auto.
Qed.

Lemma String_eqb_refl (a : jsstring) : String_eqb a a = true.
Proof. apply String_eqb_eq. reflexivity. Qed.

Lemma String_eqb_neq (a b : jsstring) : String_eqb a b = false <-> a <> b.
Proof.
  rewrite <- String_eqb_eq. destruct (String_eqb a b); split; congruence.
Qed.

Lemma lacks_app (c : N) (a b : jsstring) :
  lacks c (a ++ b) = lacks c a && lacks c b.
Proof. unfold lacks. apply forallb_app. Qed.

Lemma lacks_cons (c x : N) (s : jsstring) :
  lacks c (x :: s) = true <-> x <> c /\ lacks c s = true.
Proof.
  unfold lacks. simpl. rewrite andb_true_iff, negb_true_iff, N.eqb_neq. tauto.
Qed.

Lemma lacks_startsWith (c : N) (body s : jsstring) :
  lacks c s = true -> s <> [] -> startsWith (c :: body) s = false.
Proof.
  destruct s as [|x s]; [congruence|]. intros [Hx _]%lacks_cons _. simpl.
  apply andb_false_iff. left. apply N.eqb_neq. congruence.
Qed.

Lemma lacks_occurrences (c : N) (body s : jsstring) :
  lacks c s = true -> occurrences (c :: body) s = 0%nat.
Proof.
  induction s as [|x s IH]; [reflexivity|]. intros Hs.
  cbn [occurrences]. rewrite lacks_startsWith by (exact Hs || discriminate).
  apply lacks_cons in Hs as [_ Hs]. rewrite IH by exact Hs. reflexivity.
Qed.

Lemma occurrences_includes (sub s : jsstring) :
  includes s sub = true <-> (0 < occurrences sub s)%nat.
Proof.
  induction s as [|x s IH]; simpl.
  - destruct (startsWith sub []); simpl; split; (lia || congruence).
  - rewrite orb_true_iff, IH. destruct (startsWith sub (x :: s)); simpl.
    + split; [lia|auto].
    + split; [intros [?|?]; [discriminate|lia]|auto].
Qed.

(** ** [replace] *)

Example replace_all_matches :
  replace (lit "{A}") (lit "x") (lit "a{A}b{A}{A}") = lit "axbxx".
Proof. reflexivity. Qed.

Example replace_dollar_patterns :
  replace (lit "{A}") (lit "<$&|$`|$'|$$|$1>") (lit "a{A}b") = lit "a<{A}|a|b|$|$1>b".
Proof. reflexivity. Qed.

(** A replacement without dollar sign is inserted as it is. *)
Lemma GetSubstitution_plain (matched str : jsstring) (position : nat) (v : jsstring) :
  lacks (ch "$") v = true -> GetSubstitution matched str position v = v.
Proof.
  induction v as [|c v IH]; [reflexivity|].
  intros [Hc Hv]%lacks_cons. cbn [GetSubstitution].
  apply N.eqb_neq in Hc. rewrite Hc. f_equal. exact (IH Hv).
Qed.

(** So is a replacement in which no dollar sign is followed by [$], [&], a
    backquote or a quote. *)
Lemma GetSubstitution_safe (matched str : jsstring) (position : nat) (v : jsstring) :
  dollar_safe v = true -> GetSubstitution matched str position v = v.
Proof.
  induction v as [|c v IH]; [reflexivity|].
  cbn [dollar_safe]. intros [Hc Hv]%andb_true_iff. cbn [GetSubstitution].
  destruct (c =? ch "$")%N; [|rewrite IH by exact Hv; reflexivity].
  destruct v as [|d v]; [reflexivity|].
  apply negb_true_iff in Hc. apply orb_false_iff in Hc as [Hc H4].
  apply orb_false_iff in Hc as [Hc H3]. apply orb_false_iff in Hc as [H1 H2].
  rewrite H1, H2, H3, H4, IH by exact Hv. reflexivity.
Qed.

Section Scan.

Variables (c : N) (body repl : jsstring).

Lemma replace_scan_lacks (str : jsstring) (position : nat) (s : jsstring) :
  lacks c s = true -> replace_scan (c :: body) repl str 0 position s = s.
Proof.
  revert position. induction s as [|x s IH]; intros position Hs; [reflexivity|].
  cbn [replace_scan]. rewrite lacks_startsWith by (exact Hs || discriminate).
  apply lacks_cons in Hs as [_ Hs]. rewrite IH by exact Hs. reflexivity.
Qed.

Lemma replace_scan_before (str : jsstring) (position : nat) (before rest : jsstring) :
  lacks c before = true ->
  replace_scan (c :: body) repl str 0 position (before ++ rest)
  = before ++ replace_scan (c :: body) repl str 0 (position + length before) rest.
Proof.
  revert position. induction before as [|x before IH]; intros position Hb.
  - simpl. rewrite Nat.add_0_r. reflexivity.
  - change ((x :: before) ++ rest) with (x :: (before ++ rest)).
    cbn [replace_scan].
    assert (Hx : startsWith (c :: body) (x :: before ++ rest) = false).
    { apply lacks_cons in Hb as [Hx _]. simpl. apply andb_false_iff. left.
      apply N.eqb_neq. congruence. }
    rewrite Hx. apply lacks_cons in Hb as [_ Hb]. rewrite IH by exact Hb.
    simpl. do 3 f_equal. lia.
Qed.

Lemma replace_scan_skip (pat str : jsstring) (position : nat) (l rest : jsstring) :
  replace_scan pat repl str (length l) position (l ++ rest)
  = replace_scan pat repl str 0 (position + length l) rest.
Proof.
  revert position. induction l as [|x l IH]; intros position; simpl.
  - rewrite Nat.add_0_r. reflexivity.
  - rewrite IH. f_equal. lia.
Qed.

End Scan.

(** ** The chain of replacements *)

Lemma render_passes (config : FactConfiguration.t) (feedbackText : jsstring) :
  render config feedbackText
  = passes config feedbackText placeholders
      (SystemFacts.promptTemplate (FactConfiguration.systemFacts config)).
Proof. reflexivity. Qed.

(** A token is an opening brace followed by a text without opening brace,
    and has no dollar sign. *)
Lemma token_shape (p : placeholder) :
  token p = ch "{" :: tail (token p)
  /\ lacks (ch "{") (tail (token p)) = true
  /\ lacks (ch "$") (token p) = true.
Proof. destruct p; repeat split; reflexivity. Qed.

(** No token is at the head of a text that starts with another token. *)
Lemma token_distinct (p q : placeholder) (after : jsstring) :
  p <> q -> startsWith (token q) (token p ++ after) = false.
Proof. destruct p, q; intros Hne; try congruence; reflexivity. Qed.

Lemma placeholders_complete (p : placeholder) : p ∈ placeholders.
Proof. destruct p; unfold placeholders; set_solver. Qed.


(** ** Rendering a well-formed template *)

Lemma placeholders_split (p : placeholder) :
  placeholders = take (rank p) placeholders ++ p :: drop (S (rank p)) placeholders
  /\ p ∉ take (rank p) placeholders.
Proof.
  destruct p; (split; [reflexivity|]);
    apply (bool_decide_unpack _); vm_compute; exact I.
Qed.

Lemma placeholders_later (p q : placeholder) :
  (rank p < rank q)%nat -> q ∈ drop (S (rank p)) placeholders.
Proof.
  destruct p, q; simpl; intros Hr; try lia;
    apply (bool_decide_unpack _); vm_compute; exact I.
Qed.

Section Segments.

Variables (config : FactConfiguration.t) (feedbackText : jsstring).

Lemma passes_cons (p : placeholder) (l : list placeholder) (s : jsstring) :
  passes config feedbackText (p :: l) s
  = passes config feedbackText l (pass config feedbackText s p).
Proof. reflexivity. Qed.


Lemma flatten_cons (seg : segment) (segs : list segment) :
  flatten (seg :: segs) = segment_text seg ++ flatten segs.
Proof. reflexivity. Qed.



Lemma substitutable_holes (segs : list segment) :
  forallb (substitutable config feedbackText) segs = true ->
  forall q, q ∈ holes segs -> value_plain config feedbackText q = true.
Proof.
  induction segs as [|[s|p] segs IH]; cbn [forallb holes substitutable].
  - intros _ q Hq. inversion Hq.
  - exact IH.
  - intros [Hp Hs]%andb_true_iff q [->|Hq]%elem_of_cons; auto.
Qed.

(** One call of the chain on a template in which every opening brace opens a
    token. *)
Lemma replace_scan_segments (q : placeholder) (str : jsstring)
    (segs : list segment) (position : nat) :
  forallb plain segs = true ->
  (q ∈ holes segs -> lacks (ch "$") (value config feedbackText q) = true) ->
  replace_scan (token q) (value config feedbackText q) str 0 position (flatten segs)
  = flatten (map (step config feedbackText q) segs).
Proof.
  destruct (token_shape q) as [Hq [Hqb _]].
  set (body := tail (token q)) in *. clearbody body.
  revert position. induction segs as [|seg segs IH]; intros position Hp Hs;
    [rewrite Hq; reflexivity|].
  cbn [forallb] in Hp. apply andb_true_iff in Hp as [Hp Hps].
  rewrite map_cons, !flatten_cons.
  destruct seg as [s|p]; cbn [segment_text step holes] in *.
  - specialize (IH (position + length s)%nat Hps Hs). rewrite Hq in IH |- *.
    rewrite replace_scan_before by exact Hp. rewrite IH. reflexivity.
  - assert (Hs' : q ∈ holes segs -> lacks (ch "$") (value config feedbackText q) = true).
    { intros Hin. apply Hs. right. exact Hin. }
    destruct (decide (p = q)) as [->|Hne]; cbn [segment_text].
    + assert (Hd : lacks (ch "$") (value config feedbackText q) = true).
      { apply Hs. left. }
      specialize (IH (position + length (ch "{" :: body))%nat Hps Hs').
      rewrite Hq in IH |- *.
      change ((ch "{" :: body) ++ flatten segs) with (ch "{" :: (body ++ flatten segs)).
      cbn [replace_scan].
      change (ch "{" :: body ++ flatten segs) with ((ch "{" :: body) ++ flatten segs).
      rewrite startsWith_app, GetSubstitution_plain by exact Hd.
      f_equal.
      replace (length (ch "{" :: body) - 1)%nat with (length body) by (simpl; lia).
      rewrite replace_scan_skip. rewrite <- IH. f_equal. simpl. lia.
    + pose proof (token_distinct p q (flatten segs) Hne) as Hd.
      destruct (token_shape p) as [Hpt [Hpb _]].
      set (bodyp := tail (token p)) in *. clearbody bodyp.
      specialize (IH (Datatypes.S position + length bodyp)%nat Hps Hs').
      rewrite Hq in IH, Hd |- *. rewrite Hpt in Hd |- *.
      change ((ch "{" :: bodyp) ++ flatten segs)
        with (ch "{" :: (bodyp ++ flatten segs)) in *.
      cbn [replace_scan]. rewrite Hd. f_equal.
      rewrite replace_scan_before by exact Hpb. rewrite IH. reflexivity.
Qed.

Lemma step_plain (q : placeholder) (segs : list segment) :
  forallb plain segs = true ->
  (q ∈ holes segs -> lacks (ch "{") (value config feedbackText q) = true) ->
  forallb plain (map (step config feedbackText q) segs) = true.
Proof.
  induction segs as [|seg segs IH]; [auto|]. cbn [forallb map].
  intros [Hp Hps]%andb_true_iff Hq.
  destruct seg as [s|p]; cbn [step holes] in *.
  - rewrite IH by assumption. cbn [plain] in *. rewrite Hp. reflexivity.
  - rewrite IH by (try assumption; intros Hin; apply Hq; right; exact Hin).
    destruct (decide (p = q)) as [->|Hne]; [|reflexivity].
    cbn [plain]. rewrite Hq by left. reflexivity.
Qed.

Lemma holes_step (q r : placeholder) (segs : list segment) :
  r ∈ holes (map (step config feedbackText q) segs) -> r ∈ holes segs.
Proof.
  induction segs as [|[s|p] segs IH]; cbn [map step holes]; [auto|auto|].
  destruct (decide (p = q)); cbn [holes].
  - intros Hr. right. auto.
  - intros [->|Hr]%elem_of_cons; [left|right; auto].
Qed.

Lemma passes_segments (l : list placeholder) (segs : list segment) :
  forallb plain segs = true ->
  (forall q, q ∈ l -> q ∈ holes segs -> value_plain config feedbackText q = true) ->
  passes config feedbackText l (flatten segs)
  = flatten (map (steps config feedbackText l) segs).
Proof.
  revert segs. induction l as [|q l IH]; intros segs Hp Hv.
  - unfold steps. simpl. rewrite map_id. reflexivity.
  - assert (Hq : q ∈ holes segs ->
                 lacks (ch "{") (value config feedbackText q) = true
                 /\ lacks (ch "$") (value config feedbackText q) = true).
    { intros Hin. apply andb_true_iff. apply Hv; [left|exact Hin]. }
    rewrite passes_cons. unfold pass, replace.
    rewrite replace_scan_segments by (try assumption; intros Hin; apply Hq, Hin).
    rewrite IH.
    + rewrite map_map. reflexivity.
    + apply step_plain; [assumption|]. intros Hin. apply Hq, Hin.
    + intros r Hr Hin. apply Hv; [right; exact Hr|]. eapply holes_step, Hin.
Qed.

Lemma steps_Text (l : list placeholder) (s : jsstring) :
  steps config feedbackText l (Text s) = Text s.
Proof. unfold steps. induction l as [|q l IH]; [reflexivity|exact IH]. Qed.

Lemma steps_Hole (l : list placeholder) (r : placeholder) :
  steps config feedbackText l (Hole r)
  = if decide (r ∈ l) then Text (value config feedbackText r) else Hole r.
Proof.
  induction l as [|q l IH].
  - destruct (decide (r ∈ [])) as [Hin|_]; [inversion Hin|reflexivity].
  - change (steps config feedbackText (q :: l) (Hole r))
      with (steps config feedbackText l (step config feedbackText q (Hole r))).
    cbn [step]. destruct (decide (r = q)) as [->|Hne].
    + rewrite steps_Text. destruct (decide (q ∈ q :: l)) as [_|Hn]; [reflexivity|].
      exfalso. apply Hn. left.
    + rewrite IH. destruct (decide (r ∈ l)) as [Hin|Hn], (decide (r ∈ q :: l)) as [Hin'|Hn'];
        try reflexivity.
      * exfalso. apply Hn'. right. exact Hin.
      * exfalso. apply elem_of_cons in Hin' as [?|?]; auto.
Qed.


Lemma map_steps_fill (l : list placeholder) (segs : list segment) :
  (forall r, r ∈ holes segs -> r ∈ l) ->
  map (steps config feedbackText l) segs = map (fill config feedbackText) segs.
Proof.
  induction segs as [|[s|p] segs IH]; cbn [map holes fill]; intros Hl.
  - reflexivity.
  - rewrite steps_Text, IH by exact Hl. reflexivity.
  - rewrite steps_Hole, IH by (intros r Hr; apply Hl; right; exact Hr).
    destruct (decide (p ∈ l)) as [_|Hn]; [reflexivity|].
    exfalso. apply Hn, Hl. left.
Qed.

Lemma map_steps_id (l : list placeholder) (segs : list segment) :
  (forall r, r ∈ holes segs -> r ∉ l) ->
  map (steps config feedbackText l) segs = segs.
Proof.
  induction segs as [|[s|p] segs IH]; cbn [map holes]; intros Hl.
  - reflexivity.
  - rewrite steps_Text, IH by exact Hl. reflexivity.
  - rewrite steps_Hole, IH by (intros r Hr; apply Hl; right; exact Hr).
    destruct (decide (p ∈ l)) as [Hin|_]; [|reflexivity].
    exfalso. apply (Hl p); [left|exact Hin].
Qed.

Lemma steps_plain (l : list placeholder) (segs : list segment) :
  forallb plain segs = true ->
  (forall r, r ∈ l -> r ∈ holes segs -> value_plain config feedbackText r = true) ->
  forallb plain (map (steps config feedbackText l) segs) = true.
Proof.
  induction segs as [|[s|r] segs IH]; cbn [map forallb holes]; intros Hp Hv.
  - reflexivity.
  - apply andb_true_iff in Hp as [Hs Hp]. rewrite steps_Text, IH by assumption.
    rewrite Hs. reflexivity.
  - apply andb_true_iff in Hp as [_ Hp].
    rewrite IH; [|assumption|intros r' H1 H2; apply Hv; [assumption|right; assumption]].
    rewrite steps_Hole. destruct (decide (r ∈ l)) as [Hin|_]; [|reflexivity].
    cbn [plain]. specialize (Hv r Hin ltac:(left)).
    apply andb_true_iff in Hv as [-> _]. reflexivity.
Qed.


Lemma lacks_fill (segs : list segment) :
  forallb plain segs = true ->
  forallb (substitutable config feedbackText) segs = true ->
  lacks (ch "{") (flatten (map (fill config feedbackText) segs)) = true.
Proof.
  induction segs as [|seg segs IH]; [reflexivity|]. cbn [forallb].
  intros [Hp Hps]%andb_true_iff [Hs Hss]%andb_true_iff.
  rewrite map_cons, flatten_cons, lacks_app, IH by assumption.
  destruct seg as [s|p]; cbn [fill segment_text].
  - cbn [plain] in Hp. rewrite Hp. reflexivity.
  - cbn [substitutable] in Hs. apply andb_true_iff in Hs as [-> _]. reflexivity.
Qed.

(** When every opening brace of the template opens a recognized token, and
    the values of the placeholders of the template have neither an opening
    brace nor a dollar sign, the rendered prompt is the template with every
    token replaced by its value. *)
Lemma render_fill (segs : list segment) :
  SystemFacts.promptTemplate (FactConfiguration.systemFacts config) = flatten segs ->
  forallb plain segs = true ->
  forallb (substitutable config feedbackText) segs = true ->
  render config feedbackText = flatten (map (fill config feedbackText) segs).
Proof.
  intros Ht Hp Hs.
  rewrite render_passes, Ht, passes_segments.
  - f_equal. apply map_steps_fill. intros r _. apply placeholders_complete.
  - exact Hp.
  - intros q _ Hq. eapply substitutable_holes; eassumption.
Qed.

End Segments.

(** The scenario of the specification. *)
Example render_scenario :
  render (sampleConfiguration (lit "Hello {Customer Name} from {Restaurant Name}"))
         (lit "Great food!")
  = lit "Hello John Doe from Sample Bistro".
Proof. reflexivity. Qed.

(** The default template with the default facts: no brace is left. *)
Example render_default :
  lacks (ch "{") (render (sampleConfiguration defaultPromptTemplate) (lit "Great food!"))
  = true.
Proof. reflexivity. Qed.

(** ** Calls that find their token at the placeholders only *)

Lemma occurrences_app_le (pat s rest : jsstring) :
  (occurrences pat rest <= occurrences pat (s ++ rest))%nat.
Proof.
  induction s as [|c s IH]; [reflexivity|].
  change ((c :: s) ++ rest) with (c :: (s ++ rest)). cbn [occurrences]. lia.
Qed.

(** A text in which no match starts is kept by the scan. *)
Lemma replace_scan_silent (pat repl str : jsstring) (position : nat) (s rest : jsstring) :
  occurrences pat (s ++ rest) = occurrences pat rest ->
  replace_scan pat repl str 0 position (s ++ rest)
  = s ++ replace_scan pat repl str 0 (position + length s) rest.
Proof.
  revert position. induction s as [|c s IH]; intros position Hocc.
  - simpl. rewrite Nat.add_0_r. reflexivity.
  - change ((c :: s) ++ rest) with (c :: (s ++ rest)) in *.
    cbn [occurrences] in Hocc.
    pose proof (occurrences_app_le pat s rest) as Hle.
    cbn [replace_scan].
    destruct (startsWith pat (c :: s ++ rest)); [lia|].
    rewrite IH by lia. cbn [app length]. do 3 f_equal. lia.
Qed.

Lemma occurrences_lacks_app (c : N) (body s rest : jsstring) :
  lacks c s = true ->
  occurrences (c :: body) (s ++ rest) = occurrences (c :: body) rest.
Proof.
  induction s as [|x s IH]; [reflexivity|].
  intros [Hx Hs]%lacks_cons.
  change ((x :: s) ++ rest) with (x :: (s ++ rest)). cbn [occurrences startsWith].
  apply N.eqb_neq in Hx. rewrite (N.eqb_sym c x), Hx. cbn [andb]. rewrite IH by exact Hs.
  reflexivity.
Qed.

Lemma occurrences_token_other (p q : placeholder) (rest : jsstring) :
  p <> q -> occurrences (token q) (token p ++ rest) = occurrences (token q) rest.
Proof.
  intros Hne. pose proof (token_distinct p q rest Hne) as Hd.
  destruct (token_shape p) as [Hp [Hpb _]]. destruct (token_shape q) as [Hq _].
  rewrite Hp in Hd |- *. rewrite Hq in Hd |- *.
  change ((ch "{" :: tail (token p)) ++ rest) with (ch "{" :: (tail (token p) ++ rest)) in *.
  cbn [occurrences]. rewrite Hd. apply occurrences_lacks_app. exact Hpb.
Qed.

Lemma occurrences_token_same (q : placeholder) (rest : jsstring) :
  occurrences (token q) (token q ++ rest) = Datatypes.S (occurrences (token q) rest).
Proof.
  pose proof (startsWith_app (token q) rest) as Hs.
  destruct (token_shape q) as [Hq [Hqb _]].
  rewrite Hq in Hs |- *.
  change ((ch "{" :: tail (token q)) ++ rest) with (ch "{" :: (tail (token q) ++ rest)) in *.
  cbn [occurrences]. rewrite Hs. f_equal. apply occurrences_lacks_app. exact Hqb.
Qed.

Lemma holes_le_occurrences (q : placeholder) (segs : list segment) :
  (count_occ placeholder_eq_dec (holes segs) q <= occurrences (token q) (flatten segs))%nat.
Proof.
  induction segs as [|[s|p] segs IH]; [simpl; lia| |].
  - rewrite flatten_cons. cbn [holes segment_text].
    pose proof (occurrences_app_le (token q) s (flatten segs)). lia.
  - rewrite flatten_cons. cbn [holes segment_text].
    destruct (decide (p = q)) as [->|Hne].
    + rewrite count_occ_cons_eq by reflexivity. rewrite occurrences_token_same. lia.
    + rewrite count_occ_cons_neq by exact Hne. rewrite occurrences_token_other by exact Hne.
      exact IH.
Qed.

Lemma quiet_cons (q : placeholder) (seg : segment) (segs : list segment) :
  quiet q (seg :: segs) = true ->
  quiet q segs = true
  /\ occurrences (token q) (flatten (seg :: segs))
     = ((match seg with Hole p => if decide (p = q) then 1 else 0 | Text _ => 0 end)
        + occurrences (token q) (flatten segs))%nat.
Proof.
  unfold quiet. rewrite !Nat.eqb_eq, flatten_cons.
  pose proof (holes_le_occurrences q segs) as Hle.
  destruct seg as [s|p]; cbn [holes segment_text].
  - pose proof (occurrences_app_le (token q) s (flatten segs)). lia.
  - destruct (decide (p = q)) as [->|Hne].
    + rewrite count_occ_cons_eq by reflexivity. rewrite occurrences_token_same. lia.
    + rewrite count_occ_cons_neq by exact Hne. rewrite occurrences_token_other by exact Hne.
      lia.
Qed.

Section Quiet.

Variables (config : FactConfiguration.t) (feedbackText : jsstring).

(** One call of the chain, when the token it looks for occurs at the
    placeholders only. *)
Lemma replace_scan_quiet (q : placeholder) (str : jsstring) (segs : list segment)
    (position : nat) :
  quiet q segs = true ->
  (q ∈ holes segs -> dollar_safe (value config feedbackText q) = true) ->
  replace_scan (token q) (value config feedbackText q) str 0 position (flatten segs)
  = flatten (map (step config feedbackText q) segs).
Proof.
  revert position. induction segs as [|seg segs IH]; intros position Hquiet Hsafe.
  - destruct (token_shape q) as [-> _]. reflexivity.
  - apply quiet_cons in Hquiet as [Hquiet Hocc].
    rewrite map_cons, !flatten_cons in *.
    destruct seg as [s|p]; cbn [segment_text step holes] in *.
    + rewrite replace_scan_silent by exact Hocc. rewrite IH by assumption. reflexivity.
    + assert (Hsafe' : q ∈ holes segs -> dollar_safe (value config feedbackText q) = true).
      { intros Hin. apply Hsafe. right. exact Hin. }
      destruct (decide (p = q)) as [->|Hne]; cbn [segment_text].
      * assert (Hd : dollar_safe (value config feedbackText q) = true) by (apply Hsafe; left).
        destruct (token_shape q) as [Hq _].
        set (body := tail (token q)) in *.
        specialize (IH (position + length (ch "{" :: body))%nat Hquiet Hsafe').
        rewrite Hq in IH |- *.
        change ((ch "{" :: body) ++ flatten segs) with (ch "{" :: (body ++ flatten segs)).
        cbn [replace_scan].
        change (ch "{" :: body ++ flatten segs) with ((ch "{" :: body) ++ flatten segs).
        rewrite startsWith_app, GetSubstitution_safe by exact Hd.
        f_equal.
        replace (length (ch "{" :: body) - 1)%nat with (length body) by (simpl; lia).
        rewrite replace_scan_skip. rewrite <- IH. f_equal. simpl. lia.
      * rewrite replace_scan_silent by exact Hocc. rewrite IH by assumption. reflexivity.
Qed.

Lemma passes_quiet (l : list placeholder) (segs : list segment) :
  quiet_chain config feedbackText l segs = true ->
  (forall q, q ∈ l -> q ∈ holes segs -> dollar_safe (value config feedbackText q) = true) ->
  passes config feedbackText l (flatten segs)
  = flatten (map (steps config feedbackText l) segs).
Proof.
  revert segs. induction l as [|q l IH]; intros segs Hquiet Hsafe.
  - unfold steps. simpl. rewrite map_id. reflexivity.
  - cbn [quiet_chain] in Hquiet. apply andb_true_iff in Hquiet as [Hq Hquiet].
    rewrite passes_cons. unfold pass, replace.
    rewrite replace_scan_quiet
      by first [assumption | intros Hin; apply Hsafe; [left|exact Hin]].
    rewrite IH.
    + rewrite map_map. reflexivity.
    + exact Hquiet.
    + intros r Hr Hin. apply Hsafe; [right; exact Hr|]. eapply holes_step, Hin.
Qed.

Lemma safe_values_holes (segs : list segment) :
  safe_values config feedbackText segs = true ->
  forall q, q ∈ holes segs -> dollar_safe (value config feedbackText q) = true.
Proof.
  unfold safe_values. rewrite forallb_forall. intros Hall q Hq.
  apply Hall, list_elem_of_In, Hq.
Qed.

Lemma braceless_values_holes (segs : list segment) :
  braceless_values config feedbackText segs = true ->
  forall q, q ∈ holes segs -> lacks (ch "{") (value config feedbackText q) = true.
Proof.
  unfold braceless_values. rewrite forallb_forall. intros Hall q Hq.
  apply Hall, list_elem_of_In, Hq.
Qed.

(** When, at every call, the token looked for occurs at the placeholders of
    the template only, and the values are dollar-safe, the rendered prompt is
    the template with every placeholder replaced by its value. *)
Lemma render_quiet (segs : list segment) :
  SystemFacts.promptTemplate (FactConfiguration.systemFacts config) = flatten segs ->
  quiet_chain config feedbackText placeholders segs = true ->
  safe_values config feedbackText segs = true ->
  render config feedbackText = flatten (map (fill config feedbackText) segs).
Proof.
  intros Ht Hquiet Hsafe.
  rewrite render_passes, Ht, passes_quiet.
  - f_equal. apply map_steps_fill. intros r _. apply placeholders_complete.
  - exact Hquiet.
  - intros q _. apply safe_values_holes, Hsafe.
Qed.

(** In a template in which every opening brace opens a token, the tokens
    occur at the placeholders only. *)
Lemma plain_quiet (q : placeholder) (segs : list segment) :
  forallb plain segs = true -> quiet q segs = true.
Proof.
  unfold quiet. rewrite Nat.eqb_eq.
  induction segs as [|[s|p] segs IH]; cbn [forallb plain holes]; intros Hp.
  - destruct (token_shape q) as [-> _]. reflexivity.
  - apply andb_true_iff in Hp as [Hs Hp]. rewrite flatten_cons. cbn [segment_text].
    destruct (token_shape q) as [Hq _]. rewrite Hq in IH |- *.
    rewrite occurrences_lacks_app by exact Hs. exact (IH Hp).
  - rewrite flatten_cons. cbn [segment_text]. cbn [andb] in Hp.
    destruct (decide (p = q)) as [->|Hne].
    + rewrite count_occ_cons_eq by reflexivity. rewrite occurrences_token_same.
      f_equal. exact (IH Hp).
    + rewrite count_occ_cons_neq by exact Hne. rewrite occurrences_token_other by exact Hne.
      exact (IH Hp).
Qed.

Lemma plain_quiet_chain (l : list placeholder) (segs : list segment) :
  forallb plain segs = true ->
  (forall q, q ∈ holes segs -> lacks (ch "{") (value config feedbackText q) = true) ->
  quiet_chain config feedbackText l segs = true.
Proof.
  revert segs. induction l as [|q l IH]; intros segs Hp Hv; [reflexivity|].
  cbn [quiet_chain]. rewrite plain_quiet by exact Hp. cbn [andb].
  apply IH.
  - apply step_plain; [exact Hp|]. intros Hin. apply Hv, Hin.
  - intros r Hin. apply Hv. eapply holes_step, Hin.
Qed.

Lemma lacks_fill_holes (segs : list segment) :
  forallb plain segs = true ->
  (forall q, q ∈ holes segs -> lacks (ch "{") (value config feedbackText q) = true) ->
  lacks (ch "{") (flatten (map (fill config feedbackText) segs)) = true.
Proof.
  induction segs as [|seg segs IH]; [reflexivity|]. cbn [forallb].
  intros [Hp Hps]%andb_true_iff Hv.
  rewrite map_cons, flatten_cons, lacks_app.
  destruct seg as [s|p]; cbn [fill segment_text holes plain] in *.
  - rewrite Hp, IH by assumption. reflexivity.
  - rewrite Hv by left. rewrite IH; [reflexivity|assumption|].
    intros q Hq. apply Hv. right. exact Hq.
Qed.

End Quiet.

(** ** Texts in which no token can start *)

Lemma token_closing (p : placeholder) :
  exists name,
    token p = ch "{" :: name ++ [ch "}"]
    /\ lacks (ch "{") name = true /\ lacks (ch "}") name = true.
Proof.
  exists (removelast (tail (token p))). destruct p; repeat split; reflexivity.
Qed.

Lemma unclosed_inside (s : jsstring) :
  unclosed true s = false -> unclosed false s = false.
Proof.
  induction s as [|c s IH]; [discriminate|]. cbn [unclosed].
  destruct (c =? ch "{")%N; [auto|]. destruct (c =? ch "}")%N; auto.
Qed.

Lemma startsWith_unclosed (name s rest : jsstring) :
  lacks (ch "{") name = true -> lacks (ch "}") name = true ->
  unclosed true s = false ->
  startsWith (name ++ [ch "}"]) (s ++ rest) = true ->
  startsWith (name ++ [ch "}"]) s = true.
Proof.
  revert s. induction name as [|n name IH]; intros s Hopen Hclose Hs Hstarts.
  - destruct s as [|c s]; [discriminate Hs|].
    cbn [app startsWith] in *. apply andb_true_iff in Hstarts as [Hc _].
    rewrite Hc. reflexivity.
  - destruct s as [|c s]; [discriminate Hs|].
    apply lacks_cons in Hopen as [Hn1 Hopen]. apply lacks_cons in Hclose as [Hn2 Hclose].
    cbn [app startsWith] in *. apply andb_true_iff in Hstarts as [Hc Hstarts].
    rewrite Hc. cbn [andb]. apply N.eqb_eq in Hc. subst c.
    cbn [unclosed] in Hs.
    apply N.eqb_neq in Hn1, Hn2. rewrite Hn1, Hn2 in Hs.
    apply IH; assumption.
Qed.

(** No occurrence of a token starts in an inert text, whatever follows. *)
Lemma occurrences_inert (p : placeholder) (s rest : jsstring) :
  unclosed false s = false -> includes s (token p) = false ->
  occurrences (token p) (s ++ rest) = occurrences (token p) rest.
Proof.
  destruct (token_closing p) as [name [Htoken [Hopen Hclose]]]. rewrite Htoken.
  induction s as [|c s IH]; intros Hs Hnone; [reflexivity|].
  cbn [includes] in Hnone. apply orb_false_iff in Hnone as [Hhead Hnone].
  change ((c :: s) ++ rest) with (c :: (s ++ rest)). cbn [occurrences].
  cbn [unclosed] in Hs.
  assert (Htail : unclosed false s = false).
  { destruct (c =? ch "{")%N; [apply unclosed_inside, Hs|].
    destruct (c =? ch "}")%N; exact Hs. }
  rewrite (IH Htail Hnone).
  assert (Hstarts : startsWith (ch "{" :: name ++ [ch "}"]) (c :: s ++ rest) = false).
  { cbn [startsWith] in Hhead |- *.
    destruct (N.eqb_spec (ch "{") c) as [<-|Hc]; [|reflexivity].
    cbn [andb] in Hhead |- *. rewrite N.eqb_refl in Hs.
    destruct (startsWith (name ++ [ch "}"]) (s ++ rest)) eqn:Hrest; [|reflexivity].
    rewrite (startsWith_unclosed name s rest Hopen Hclose Hs Hrest) in Hhead.
    discriminate Hhead. }
  rewrite Hstarts. reflexivity.
Qed.


(** Texts without opening brace and values without opening brace are
    inert. *)
Lemma lacks_unclosed (s : jsstring) : lacks (ch "{") s = true -> unclosed false s = false.
Proof.
  induction s as [|c s IH]; [reflexivity|]. intros [Hc Hs]%lacks_cons.
  cbn [unclosed]. apply N.eqb_neq in Hc. rewrite Hc.
  destruct (c =? ch "}")%N; exact (IH Hs).
Qed.

Lemma lacks_includes_token (p : placeholder) (s : jsstring) :
  lacks (ch "{") s = true -> includes s (token p) = false.
Proof.
  intros Hs. destruct (includes s (token p)) eqn:Hin; [|reflexivity].
  apply occurrences_includes in Hin. destruct (token_shape p) as [Hp _].
  rewrite Hp in Hin. rewrite lacks_occurrences in Hin by exact Hs. lia.
Qed.

Lemma plain_inert (p : placeholder) (config : FactConfiguration.t)
    (feedbackText : jsstring) (segs : list segment) :
  forallb plain segs = true ->
  braceless_values config feedbackText segs = true ->
  forallb (inert p) (map (fill config feedbackText) segs) = true.
Proof.
  intros Hplain Hvalues.
  pose proof (braceless_values_holes config feedbackText _ Hvalues) as Hv. clear Hvalues.
  induction segs as [|seg segs IH]; [reflexivity|].
  cbn [forallb map] in *. apply andb_true_iff in Hplain as [Hseg Hplain].
  assert (Hl : lacks (ch "{") (segment_text (fill config feedbackText seg)) = true).
  { destruct seg as [s|q]; cbn [fill segment_text plain] in *; [exact Hseg|].
    apply Hv. cbn [holes]. left. }
  unfold inert at 1. rewrite lacks_unclosed, lacks_includes_token by exact Hl.
  cbn [negb andb]. apply IH; [exact Hplain|].
  intros q Hq. apply Hv. destruct seg; cbn [holes]; [exact Hq|right; exact Hq].
Qed.

Section Inert.

Variables (config : FactConfiguration.t) (feedbackText : jsstring).

Lemma inert_all_inert (q : placeholder) (seg : segment) :
  inert_all config feedbackText seg = true ->
  inert q (fill config feedbackText seg) = true.
Proof.
  unfold inert_all. rewrite forallb_forall. intros Hall.
  apply Hall, list_elem_of_In, placeholders_complete.
Qed.

Lemma fill_step (q : placeholder) (seg : segment) :
  fill config feedbackText (step config feedbackText q seg) = fill config feedbackText seg.
Proof.
  destruct seg as [s|p]; [reflexivity|]. cbn [step].
  destruct (decide (p = q)) as [->|_]; reflexivity.
Qed.

Lemma inert_quiet (q : placeholder) (segs : list segment) :
  forallb (inert_all config feedbackText) segs = true -> quiet q segs = true.
Proof.
  unfold quiet. rewrite Nat.eqb_eq.
  induction segs as [|[s|p] segs IH]; cbn [forallb holes]; intros Hall.
  - destruct (token_shape q) as [-> _]. reflexivity.
  - apply andb_true_iff in Hall as [Hs Hall]. rewrite flatten_cons. cbn [segment_text].
    apply (inert_all_inert q) in Hs. cbn [fill] in Hs. unfold inert in Hs.
    apply andb_true_iff in Hs as [Hclosed Hnone]. apply negb_true_iff in Hclosed, Hnone.
    cbn [segment_text] in Hclosed, Hnone.
    rewrite occurrences_inert by assumption. exact (IH Hall).
  - apply andb_true_iff in Hall as [_ Hall]. rewrite flatten_cons. cbn [segment_text].
    destruct (decide (p = q)) as [->|Hne].
    + rewrite count_occ_cons_eq by reflexivity. rewrite occurrences_token_same.
      f_equal. exact (IH Hall).
    + rewrite count_occ_cons_neq by exact Hne. rewrite occurrences_token_other by exact Hne.
      exact (IH Hall).
Qed.

(** When no text of the template and no value of a placeholder holds a
    recognized token or ends inside a brace, every call of the chain finds
    its token at the placeholders only. *)
Lemma inert_quiet_chain (l : list placeholder) (segs : list segment) :
  forallb (inert_all config feedbackText) segs = true ->
  quiet_chain config feedbackText l segs = true.
Proof.
  revert segs. induction l as [|q l IH]; intros segs Hall; [reflexivity|].
  cbn [quiet_chain]. rewrite inert_quiet by exact Hall. cbn [andb].
  apply IH. rewrite forallb_forall in Hall |- *.
  intros seg [seg0 [<- Hin]]%in_map_iff.
  unfold inert_all. rewrite fill_step. apply Hall, Hin.
Qed.

End Inert.

(** ** Rendering and literal substitution *)


(** The rendered prompt of that configuration. *)
Example render_later_token :
  render (sampleConfigurationFor (lit "{Customer Todo List Facts}")
                                 (lit "Dear {Customer Name},"))
         (lit "Great food!")
  = lit "Dear Prefers window seating,".
Proof. reflexivity. Qed.

(** A value with [$&] puts the placeholder back. *)
Example render_dollar_ampersand :
  render (sampleConfigurationFor (lit "$&") (lit "Dear {Customer Name},"))
         (lit "Great food!")
  = lit "Dear {Customer Name},".
Proof. reflexivity. Qed.

(** A value that occurs in the text around the placeholder occurs more than
    once in the rendered prompt. *)
Example render_value_twice :
  let config := sampleConfigurationFor (lit "Dear") (lit "Dear {Customer Name},") in
  render config (lit "Great food!") = lit "Dear Dear,"
  /\ occurrences (value config (lit "Great food!") CustomerName)
       (render config (lit "Great food!")) = 2%nat.
Proof. split; reflexivity. Qed.

(** A brace the template has besides its tokens, and a value that holds
    the token of an earlier call, are kept as they are. *)
Example render_other_braces :
  render (sampleConfigurationFor (lit "{Address}") (lit "Dear {Customer Name} {sic},"))
         (lit "Great food!")
  = lit "Dear {Address} {sic},".
Proof. reflexivity. Qed.

(** A token completed by a value substituted after its call is left: the
    text before the placeholder of the feedback text ends inside a brace. *)
Example render_completed_token :
  render (sampleConfiguration (lit "{Meal {Customer Feedback Text}} and {Meal type}"))
         (lit "type")
  = lit "{Meal type} and Dinner".
Proof. reflexivity. Qed.



(** ** Sequential substitution *)




(** The rendered prompt of that configuration. *)
Example render_token_put_back :
  render {| FactConfiguration.id := 1;
            FactConfiguration.restaurantFacts :=
              {| RestaurantFacts.name := lit "Sample Bistro";
                 RestaurantFacts.address := lit "123 Main Street, Anytown";
                 RestaurantFacts.url := lit "https://samplebistro.com";
                 RestaurantFacts.type := lit "Casual";
                 RestaurantFacts.brandTone := lit "Friendly";
                 RestaurantFacts.todoFacts := [lit "$&"] |};
            FactConfiguration.customerFacts :=
              InsertFactConfiguration.customerFacts defaultConfiguration;
            FactConfiguration.systemFacts :=
              FactConfiguration.systemFacts
                (sampleConfiguration (lit "F: {Customer Feedback Text}")) |}
         (lit "{Restaurant Todo List Facts}")
  = lit "F: {Restaurant Todo List Facts}".
Proof. reflexivity. Qed.


(** The default template is made of these segments. *)
Example defaultPromptTemplate_segments :
  defaultPromptTemplate
  = flatten (defaultSegmentsBefore ++ Hole CustomerFeedbackText :: defaultSegmentsAfter).
Proof. reflexivity. Qed.


(** ** Length policy *)

(** The three recognized values get their instruction and their budget. *)
Lemma lengthGuidance_recognized (prompt : jsstring) :
  (appendLengthGuidance prompt (lit "short") = prompt ++ [LF; LF] ++ guidance_short
   /\ max_tokens (lit "short") = 200)
  /\ (appendLengthGuidance prompt (lit "medium") = prompt ++ [LF; LF] ++ guidance_medium
      /\ max_tokens (lit "medium") = 500)
  /\ (appendLengthGuidance prompt (lit "detailed") = prompt ++ [LF; LF] ++ guidance_detailed
      /\ max_tokens (lit "detailed") = 1000).
Proof. repeat split; reflexivity. Qed.

(** The budget of any other value is the one of [medium]. *)
Lemma max_tokens_unrecognized (responseLength : jsstring) :
  responseLength <> lit "short" -> responseLength <> lit "detailed" ->
  max_tokens responseLength = 500.
Proof.
  intros Hs%String_eqb_neq Hd%String_eqb_neq. unfold max_tokens.
  rewrite Hs, Hd. reflexivity.
Qed.

(** A value that is neither recognized nor the name of a property of
    [Object.prototype] gets the instruction of [medium]. *)
Lemma lengthGuidance_unrecognized (prompt responseLength : jsstring) :
  responseLength <> lit "short" -> responseLength <> lit "medium" ->
  responseLength <> lit "detailed" ->
  ObjectPrototype_Get responseLength = Undefined ->
  appendLengthGuidance prompt responseLength
  = appendLengthGuidance prompt (lit "medium").
Proof.
  intros Hs%String_eqb_neq Hm%String_eqb_neq Hd%String_eqb_neq Hu.
  unfold appendLengthGuidance, lengthGuidance at 1.
  rewrite Hs, Hm, Hd, Hu. reflexivity.
Qed.

(** What is appended for a property name of [Object.prototype] is not the
    instruction of [medium]. *)
Lemma ToString_inherited (key : jsstring) :
  ObjectPrototype_Get key <> Undefined ->
  ToString (or_else (ObjectPrototype_Get key) (Str guidance_medium)) <> guidance_medium.
Proof.
  unfold ObjectPrototype_Get.
  destruct (String_eqb key (lit "constructor"));
    [intros _ Heq; vm_compute in Heq; discriminate Heq|].
  destruct (String_eqb key (lit "__proto__"));
    [intros _ Heq; vm_compute in Heq; discriminate Heq|].
  destruct (existsb (String_eqb key) ObjectPrototype_methods); [|congruence].
  intros _ Heq. cbn [or_else ToBoolean ToString] in Heq.
  change (lit "function " ++ key ++ lit "() { [native code] }")
    with (ch "f" :: (lit "unction " ++ key ++ lit "() { [native code] }")) in Heq.
  vm_compute in Heq. discriminate Heq.
Qed.

(** C5 fails on the code: for a value that is none of the three recognized
    ones, the instruction of [medium] is appended exactly when the value is
    not the name of a property of [Object.prototype].  So [constructor] gets
    the source text of the function [Object], not the instruction of
    [medium]; its budget is the one of [medium]. *)
Theorem lengthGuidance_constructor (prompt : jsstring) :
  (forall responseLength : jsstring,
     responseLength <> lit "short" -> responseLength <> lit "medium" ->
     responseLength <> lit "detailed" ->
     (appendLengthGuidance prompt responseLength = appendLengthGuidance prompt (lit "medium")
      <-> ObjectPrototype_Get responseLength = Undefined))
  /\ appendLengthGuidance prompt (lit "constructor")
     = prompt ++ [LF; LF] ++ lit "function Object() { [native code] }"
  /\ appendLengthGuidance prompt (lit "constructor")
     <> appendLengthGuidance prompt (lit "medium")
  /\ max_tokens (lit "constructor") = max_tokens (lit "medium").
Proof.
  split; [|split; [reflexivity|split; [|reflexivity]]].
  - intros responseLength Hs Hm Hd. split.
    + intros Heq. destruct (ObjectPrototype_Get responseLength) eqn:Hget; [reflexivity| | |];
        exfalso; apply (ToString_inherited responseLength); try congruence;
        apply String_eqb_neq in Hs, Hm, Hd;
        unfold appendLengthGuidance, lengthGuidance at 1 in Heq;
        rewrite Hs, Hm, Hd in Heq; do 2 apply app_inv_head in Heq; exact Heq.
    + apply lengthGuidance_unrecognized; assumption.
  - intros Heq. apply app_inv_head in Heq. vm_compute in Heq. discriminate Heq.
Qed.

(** ** Sentiment *)

Lemma toLowerCase_app (a b : jsstring) :
  toLowerCase (a ++ b) = toLowerCase a ++ toLowerCase b.
Proof. apply map_app. Qed.

Lemma toLowerCase_app_inv (s a b : jsstring) :
  toLowerCase s = a ++ b ->
  exists s1 s2, s = s1 ++ s2 /\ toLowerCase s1 = a /\ toLowerCase s2 = b.
Proof.
  revert a. induction s as [|x s IH]; intros a Hs.
  - symmetry in Hs. apply app_eq_nil in Hs as [-> ->]. exists [], []. auto.
  - destruct a as [|y a]; simpl in Hs.
    + exists [], (x :: s). auto.
    + injection Hs as Hx Hs. destruct (IH a Hs) as [s1 [s2 [-> [H1 H2]]]].
      exists (x :: s1), s2. simpl. rewrite Hx, H1. auto.
Qed.

(** Two code units are the same letter without regard to case exactly when
    [toLowerCase] makes them equal. *)
Lemma same_letter_lower (c d : N) : same_letter c d <-> lower c = lower d.
Proof.
  unfold same_letter, lower.
  destruct (N.leb_spec 65 c), (N.leb_spec c 90), (N.leb_spec 65 d), (N.leb_spec d 90);
    cbn [andb]; lia.
Qed.

Lemma Forall2_same_letter (part keyword : jsstring) :
  Forall2 same_letter part keyword <-> toLowerCase part = toLowerCase keyword.
Proof.
  revert keyword. induction part as [|c part IH]; intros [|d keyword]; simpl.
  - split; [reflexivity|constructor].
  - split; [intros Hf; inversion Hf|discriminate].
  - split; [intros Hf; inversion Hf|discriminate].
  - split.
    + intros Hf. inversion Hf as [|? ? ? ? Hcd Hrest]; subst.
      apply same_letter_lower in Hcd. apply IH in Hrest. congruence.
    + intros [= Hcd Hrest]. constructor; [apply same_letter_lower, Hcd|apply IH, Hrest].
Qed.

(** Searching the lower case of a text for a keyword in lower case is
    searching the text without regard to case. *)
Lemma includes_toLowerCase (text keyword : jsstring) :
  toLowerCase keyword = keyword ->
  includes (toLowerCase text) keyword = true <-> contains_ignoring_case text keyword.
Proof.
  intros Hk. rewrite includes_spec. unfold contains_ignoring_case. split.
  - intros [b [a Ht]].
    apply toLowerCase_app_inv in Ht as [s1 [s2 [-> [_ H2]]]].
    apply toLowerCase_app_inv in H2 as [s3 [s4 [-> [H3 _]]]].
    exists s1, s3, s4. rewrite Forall2_same_letter, Hk. auto.
  - intros [b [part [a [-> Hp]]]].
    apply Forall2_same_letter in Hp.
    exists (toLowerCase b), (toLowerCase a).
    rewrite !toLowerCase_app, Hp, Hk. reflexivity.
Qed.

Lemma keyword_search (text : jsstring) (keywords : list jsstring) :
  Forall (fun k => toLowerCase k = k) keywords ->
  existsb (includes (toLowerCase text)) keywords = true
  <-> exists k, k ∈ keywords /\ contains_ignoring_case text k.
Proof.
  intros Hl. rewrite existsb_exists. split.
  - intros [k [Hin Hk]]. exists k. split; [apply list_elem_of_In; exact Hin|].
    apply includes_toLowerCase; [|exact Hk].
    rewrite List.Forall_forall in Hl. auto.
  - intros [k [Hin Hk]]. apply list_elem_of_In in Hin. exists k. split; [exact Hin|].
    apply includes_toLowerCase; [|exact Hk].
    rewrite List.Forall_forall in Hl. auto.
Qed.

Lemma sentiment_existsb (feedbackText : jsstring) :
  sentiment feedbackText
  = if existsb (includes (toLowerCase feedbackText)) positive_keywords
    then lit "Positive"
    else if existsb (includes (toLowerCase feedbackText)) negative_keywords
    then lit "Negative"
    else lit "Neutral".
Proof.
  unfold sentiment, positive_keywords, negative_keywords. cbn [existsb].
  rewrite !orb_false_r, !orb_assoc. reflexivity.
Qed.

(** C6: the sentiment is Positive exactly when the text contains a positive
    keyword without regard to case; it is Negative exactly when it contains
    no positive keyword and a negative one; it is Neutral exactly when it
    contains none of the nine keywords.  A text with a positive and a negative
    keyword is therefore Positive. *)
Theorem sentiment_keywords (feedbackText : jsstring) :
  let positive := exists k, k ∈ positive_keywords
                            /\ contains_ignoring_case feedbackText k in
  let negative := exists k, k ∈ negative_keywords
                            /\ contains_ignoring_case feedbackText k in
  (sentiment feedbackText = lit "Positive" <-> positive)
  /\ (sentiment feedbackText = lit "Negative" <-> ~ positive /\ negative)
  /\ (sentiment feedbackText = lit "Neutral" <-> ~ positive /\ ~ negative).
Proof.
  intros positive negative. subst positive negative.
  assert (Hp : Forall (fun k => toLowerCase k = k) positive_keywords)
    by (repeat constructor).
  assert (Hn : Forall (fun k => toLowerCase k = k) negative_keywords)
    by (repeat constructor).
  rewrite <- (keyword_search feedbackText _ Hp), <- (keyword_search feedbackText _ Hn).
  rewrite sentiment_existsb.
  assert (D1 : lit "Positive" <> lit "Negative") by (vm_compute; discriminate).
  assert (D2 : lit "Positive" <> lit "Neutral") by (vm_compute; discriminate).
  assert (D3 : lit "Negative" <> lit "Neutral") by (vm_compute; discriminate).
  revert D1 D2 D3.
  generalize (lit "Positive"), (lit "Negative"), (lit "Neutral").
  intros pos neg neu D1 D2 D3.
  destruct (existsb _ positive_keywords), (existsb _ negative_keywords);
    intuition congruence.
Qed.

(** The three examples of the specification. *)
Example sentiment_examples :
  sentiment (lit "This was great but also terrible") = lit "Positive"
  /\ sentiment (lit "Service was awful") = lit "Negative"
  /\ sentiment (lit "We visited Tuesday") = lit "Neutral"
  /\ sentiment (lit "GREAT food, Terrible service") = lit "Positive".
Proof. repeat split; reflexivity. Qed.

(** ** Word count *)

(** The pieces that are not empty are the tokens. *)
Lemma split_scan_tokens (rest : jsstring) (in_run : bool) (piece : jsstring) :
  (in_run = true -> piece = []) ->
  List.filter nonempty (split_scan in_run piece rest) = tokens_scan piece rest.
Proof.
  revert in_run piece. induction rest as [|c rest IH]; intros in_run piece Hrun.
  - simpl. destruct piece; reflexivity.
  - cbn [split_scan tokens_scan]. destruct (is_space c).
    + destruct in_run.
      * rewrite (Hrun eq_refl). apply IH. auto.
      * cbn [List.filter]. destruct piece as [|x piece]; cbn [nonempty].
        -- apply IH. auto.
        -- f_equal. apply IH. auto.
    + apply IH. discriminate.
Qed.

Lemma split_scan_nonempty (rest : jsstring) (in_run : bool) (piece : jsstring) :
  (in_run = true \/ piece <> [] \/ exists c r, rest = c :: r /\ is_space c = false) ->
  (rest = [] -> piece <> []) ->
  (forall x, last rest = Some x -> is_space x = false) ->
  forallb nonempty (split_scan in_run piece rest) = true.
Proof.
  revert in_run piece. induction rest as [|c rest IH]; intros in_run piece H1 H2 H3.
  - simpl. destruct piece; [exfalso; exact (H2 eq_refl eq_refl)|reflexivity].
  - assert (Hlast : forall x, last rest = Some x -> is_space x = false).
    { intros x Hx. apply H3. destruct rest; [discriminate|exact Hx]. }
    cbn [split_scan]. destruct (is_space c) eqn:Hc.
    + assert (Hrest : rest = [] -> piece <> [] /\ False).
      { intros ->. specialize (H3 c eq_refl). congruence. }
      destruct in_run.
      * apply IH; auto. intros Hr. destruct (Hrest Hr) as [_ []].
      * cbn [forallb]. apply andb_true_iff. split.
        -- destruct H1 as [H1|[H1|[c' [r [[= <- _] H1]]]]]; try congruence.
           destruct piece; [congruence|reflexivity].
        -- apply IH; auto. intros Hr. destruct (Hrest Hr) as [_ []].
    + apply IH; auto.
      * right. left. destruct piece; discriminate.
      * intros _. destruct piece; discriminate.
Qed.

Lemma filter_all {A} (f : A -> bool) (l : list A) :
  forallb f l = true -> List.filter f l = l.
Proof.
  induction l as [|x l IH]; [reflexivity|]. simpl.
  intros [Hx Hl]%andb_true_iff. rewrite Hx, IH by exact Hl. reflexivity.
Qed.

(** For a text that neither starts nor ends with white space the count is
    the number of tokens. *)
Lemma wordCount_trimmed (c : N) (rest : jsstring) :
  is_space c = false ->
  (forall x, last (c :: rest) = Some x -> is_space x = false) ->
  wordCount (c :: rest) = length (whitespace_tokens (c :: rest)).
Proof.
  intros Hc Hlast. unfold wordCount, whitespace_tokens, split_whitespace.
  rewrite <- (split_scan_tokens (c :: rest) false []) by discriminate.
  rewrite filter_all; [reflexivity|].
  apply split_scan_nonempty; [eauto 6|discriminate|exact Hlast].
Qed.

(** The pieces exceed the tokens by the empty piece before a leading run of
    white space and the empty piece after a trailing one. *)
Lemma split_scan_length (rest : jsstring) (in_run : bool) (piece : jsstring) :
  (in_run = true -> piece = []) ->
  length (split_scan in_run piece rest)
  = (length (tokens_scan piece rest)
     + (if negb in_run && negb (nonempty piece) && leading_space rest then 1 else 0)
     + (if match last rest with
           | Some c => is_space c
           | None => in_run || negb (nonempty piece)
           end then 1 else 0))%nat.
Proof.
  revert in_run piece. induction rest as [|c rest IH]; intros in_run piece Hrun.
  - cbn [split_scan tokens_scan leading_space last]. rewrite andb_false_r.
    destruct in_run; [rewrite (Hrun eq_refl); reflexivity|].
    destruct piece; reflexivity.
  - assert (Hlast : last (c :: rest)
                    = match last rest with Some x => Some x | None => Some c end).
    { apply last_cons. }
    rewrite Hlast. cbn [split_scan tokens_scan leading_space].
    destruct (is_space c) eqn:Hc.
    + destruct in_run.
      * rewrite (Hrun eq_refl), IH by auto. cbn [negb andb nonempty orb].
        destruct (last rest); [reflexivity|rewrite Hc; reflexivity].
      * cbn [length]. rewrite IH by auto. cbn [negb andb nonempty orb].
        destruct piece as [|x piece]; cbn [nonempty negb andb length];
          (destruct (last rest) as [y|]; [destruct (is_space y)|rewrite Hc]); lia.
    + rewrite IH by discriminate.
      assert (Hne : nonempty (piece ++ [c]) = true) by (destruct piece; reflexivity).
      rewrite Hne. cbn [negb]. rewrite !andb_false_r. cbn [andb orb].
      destruct (last rest); [reflexivity|rewrite Hc; reflexivity].
Qed.

(** C7 fails on the code: the count is the number of whitespace-delimited
    tokens plus one if the text starts with white space, plus one if it ends
    with white space.  For an answer that ends with a line feed, the empty
    piece after the line feed is counted: 3 for the 2 tokens of the sample. *)
Theorem wordCount_trailing_whitespace :
  (forall (c : N) (rest : jsstring),
     wordCount (c :: rest)
     = (length (whitespace_tokens (c :: rest))
        + (if leading_space (c :: rest) then 1 else 0)
        + (if trailing_space (c :: rest) then 1 else 0))%nat)
  /\ wordCount (lit "Thank you!" ++ [LF]) = 3%nat
  /\ whitespace_tokens (lit "Thank you!" ++ [LF]) = [lit "Thank"; lit "you!"]
  /\ split_whitespace (lit "Thank you!" ++ [LF]) = [lit "Thank"; lit "you!"; []].
Proof.
  split; [|repeat split; reflexivity].
  intros c rest. unfold wordCount, whitespace_tokens, split_whitespace, trailing_space.
  rewrite split_scan_length by discriminate.
  cbn [negb andb nonempty].
  destruct (last (c :: rest)) eqn:Hlast; [reflexivity|].
  rewrite last_cons in Hlast. destruct (last rest); discriminate Hlast.
Qed.

(** ** Identifiers given out by the stores *)

Lemma run_app {S} `{IStorage S} (storage : S) (calls1 calls2 : list call) :
  run storage (calls1 ++ calls2)
  = (fst (run (fst (run storage calls1)) calls2),
     snd (run storage calls1) ++ snd (run (fst (run storage calls1)) calls2)).
Proof.
  revert storage. induction calls1 as [|c calls1 IH]; intros storage; simpl.
  - destruct (run storage calls2); reflexivity.
  - destruct (perform storage c) as [storage' o]. rewrite IH.
    destruct (run storage' calls1) as [storage'' os]. reflexivity.
Qed.

Lemma reachable_refl {S} `{IStorage S} (init : S) : reachable init init.
Proof. exists []. reflexivity. Qed.

Lemma reachable_step {S} `{IStorage S} (init storage : S) (c : call) :
  reachable init storage -> reachable init (fst (perform storage c)).
Proof.
  intros [calls <-]. exists (calls ++ [c]). rewrite run_app. simpl.
  destruct (perform (fst (run init calls)) c). reflexivity.
Qed.

(** A property of the initial state kept by every call holds of every
    reachable state. *)
Lemma reachable_ind {S} `{IStorage S} (P : S -> Prop) (init : S) :
  P init ->
  (forall storage c, P storage -> P (fst (perform storage c))) ->
  forall storage, reachable init storage -> P storage.
Proof.
  intros Hinit Hstep storage [calls <-]. revert init Hinit.
  induction calls as [|c calls IH]; intros init Hinit; [exact Hinit|].
  simpl. specialize (Hstep init c Hinit).
  destruct (perform init c) as [storage' o]. specialize (IH storage' Hstep).
  destruct (run storage' calls). exact IH.
Qed.

Section Counters.

Context {S : Type} `{IStorage S}.

(** The counter of each of the two stores. *)
Variables (configCounter responseCounter : S -> Z).

Hypothesis createFactConfiguration_counter : forall storage config,
  FactConfiguration.id (snd (createFactConfiguration storage config))
    = configCounter storage
  /\ configCounter (fst (createFactConfiguration storage config))
     = configCounter storage + 1
  /\ responseCounter (fst (createFactConfiguration storage config))
     = responseCounter storage.

Hypothesis updateFactConfiguration_counter : forall storage id config,
  configCounter (fst (updateFactConfiguration storage id config))
    = configCounter storage
  /\ responseCounter (fst (updateFactConfiguration storage id config))
     = responseCounter storage.

Hypothesis createFeedbackResponse_counter : forall storage response,
  FeedbackResponse.id (snd (createFeedbackResponse storage response))
    = responseCounter storage
  /\ responseCounter (fst (createFeedbackResponse storage response))
     = responseCounter storage + 1
  /\ configCounter (fst (createFeedbackResponse storage response))
     = configCounter storage.

Lemma run_identifiers (calls : list call) (storage : S) :
  (StronglySorted Z.lt (configurationIds (snd (run storage calls)))
   /\ Forall (fun i => configCounter storage <= i) (configurationIds (snd (run storage calls))))
  /\ (StronglySorted Z.lt (responseIds (snd (run storage calls)))
      /\ Forall (fun i => responseCounter storage <= i) (responseIds (snd (run storage calls)))).
Proof.
  revert storage. induction calls as [|c calls IH]; intros storage.
  - simpl. repeat split; constructor.
  - simpl. destruct c as [config|id config|response]; simpl.
    + pose proof (createFactConfiguration_counter storage config) as [Hid [Hc Hr]].
      destruct (createFactConfiguration storage config) as [storage' r].
      simpl in Hid, Hc, Hr. specialize (IH storage').
      destruct (run storage' calls) as [storage'' os]. simpl in *.
      destruct IH as [[Hs Hf] [Hs' Hf']]. rewrite Hc in Hf. rewrite Hr in Hf'.
      repeat split; try assumption.
      * constructor; [exact Hs|]. eapply Forall_impl; [exact Hf|].
        intros i Hi. simpl in Hi. lia.
      * constructor; [lia|]. eapply Forall_impl; [exact Hf|].
        intros i Hi. simpl in Hi. lia.
    + pose proof (updateFactConfiguration_counter storage id config) as [Hc Hr].
      destruct (updateFactConfiguration storage id config) as [storage' r].
      simpl in Hc, Hr. specialize (IH storage').
      destruct (run storage' calls) as [storage'' os]. simpl in *.
      rewrite Hc, Hr in IH. exact IH.
    + pose proof (createFeedbackResponse_counter storage response) as [Hid [Hr Hc]].
      destruct (createFeedbackResponse storage response) as [storage' r].
      simpl in Hid, Hc, Hr. specialize (IH storage').
      destruct (run storage' calls) as [storage'' os]. simpl in *.
      destruct IH as [[Hs Hf] [Hs' Hf']]. rewrite Hc in Hf. rewrite Hr in Hf'.
      repeat split; try assumption.
      * constructor; [exact Hs'|]. eapply Forall_impl; [exact Hf'|].
        intros i Hi. simpl in Hi. lia.
      * constructor; [lia|]. eapply Forall_impl; [exact Hf'|].
        intros i Hi. simpl in Hi. lia.
Qed.

End Counters.

Lemma MemStorage_identifiers (calls : list call) (storage : MemStorage.t) :
  StronglySorted Z.lt (configurationIds (snd (run storage calls)))
  /\ StronglySorted Z.lt (responseIds (snd (run storage calls))).
Proof.
  assert (Hupdate : forall s id c,
    MemStorage.currentConfigId (fst (updateFactConfiguration s id c))
      = MemStorage.currentConfigId s
    /\ MemStorage.currentResponseId (fst (updateFactConfiguration s id c))
       = MemStorage.currentResponseId s).
  { intros s id c. simpl. unfold MemStorage.updateFactConfiguration.
    destruct (MemStorage.factConfigs s !! id); simpl; auto. }
  destruct (run_identifiers MemStorage.currentConfigId MemStorage.currentResponseId
              ltac:(intros s c; simpl; auto) Hupdate
              ltac:(intros s r; simpl; auto) calls storage)
    as [[Hc _] [Hr _]].
  auto.
Qed.

Lemma FileStorage_identifiers (calls : list call) (storage : FileStorage.t) :
  StronglySorted Z.lt (configurationIds (snd (run storage calls)))
  /\ StronglySorted Z.lt (responseIds (snd (run storage calls))).
Proof.
  assert (Hupdate : forall s id c,
    ConfigurationsFile.nextId (FileStorage.configFile (fst (updateFactConfiguration s id c)))
      = ConfigurationsFile.nextId (FileStorage.configFile s)
    /\ ResponsesFile.nextId (FileStorage.responsesFile (fst (updateFactConfiguration s id c)))
       = ResponsesFile.nextId (FileStorage.responsesFile s)).
  { intros s id c. simpl. unfold FileStorage.updateFactConfiguration.
    destruct (FileStorage.findIndex _ _); simpl; auto.
    destruct (_ !! _); simpl; auto. }
  destruct (run_identifiers
              (fun s => ConfigurationsFile.nextId (FileStorage.configFile s))
              (fun s => ResponsesFile.nextId (FileStorage.responsesFile s))
              ltac:(intros s c; simpl; auto) Hupdate
              ltac:(intros s r; simpl; auto) calls storage)
    as [[Hc _] [Hr _]].
  auto.
Qed.

(** *** The invariants hold of every reachable state *)

Lemma MemStorage_invariant_perform (this : MemStorage.t) (c : call) :
  MemStorage_invariant this -> MemStorage_invariant (fst (perform this c)).
Proof.
  intros [Hc Hr]. destruct c as [config|id config|response]; simpl.
  - split; simpl; [|exact Hr]. intros k v Hk.
    apply lookup_insert_Some in Hk as [[<- <-]|[Hne Hk]]; simpl; [lia|].
    destruct (Hc k v Hk). lia.
  - unfold MemStorage.updateFactConfiguration.
    destruct (MemStorage.factConfigs this !! id) as [existing|] eqn:He; simpl;
      [|split; assumption].
    split; simpl; [|exact Hr]. intros k v Hk.
    apply lookup_insert_Some in Hk as [[<- <-]|[Hne Hk]]; simpl.
    + destruct (Hc id existing He). auto.
    + exact (Hc k v Hk).
  - split; simpl; [exact Hc|]. intros k v Hk.
    apply lookup_insert_Some in Hk as [[<- <-]|[Hne Hk]]; simpl; [lia|].
    destruct (Hr k v Hk). lia.
Qed.

Lemma MemStorage_invariant_reachable (this : MemStorage.t) :
  reachable MemStorage.empty this -> MemStorage_invariant this.
Proof.
  apply reachable_ind.
  - split; intros k v Hk; simpl in Hk; rewrite lookup_empty in Hk; discriminate.
  - intros storage c. apply MemStorage_invariant_perform.
Qed.

Lemma StronglySorted_snoc (l : list Z) (x : Z) :
  StronglySorted Z.lt l -> Forall (fun i => i < x) l -> StronglySorted Z.lt (l ++ [x]).
Proof.
  induction 1 as [|a l Hs IH Ha]; intros Hf; simpl.
  - repeat constructor.
  - apply Forall_cons_1 in Hf as [Hax Hf]. constructor; [auto|].
    apply Forall_app. split; [exact Ha|]. repeat constructor. exact Hax.
Qed.

Lemma findIndex_Some {A} (f : A -> bool) (l : list A) (i : nat) :
  FileStorage.findIndex f l = Some i ->
  exists x, l !! i = Some x /\ f x = true /\ List.find f l = Some x.
Proof.
  revert i. induction l as [|y l IH]; intros i; simpl; [discriminate|].
  destruct (f y) eqn:Hy.
  - intros [= <-]. exists y. auto.
  - destruct (FileStorage.findIndex f l) as [j|]; simpl; [|discriminate].
    intros [= <-]. destruct (IH j eq_refl) as [x Hx]. exists x. exact Hx.
Qed.

Lemma findIndex_None {A} (f : A -> bool) (l : list A) :
  FileStorage.findIndex f l = None <-> List.find f l = None.
Proof.
  induction l as [|y l IH]; simpl; [tauto|]. destruct (f y).
  - split; discriminate.
  - destruct (FileStorage.findIndex f l); simpl.
    + split; [discriminate|]. intros Hn. apply IH in Hn. discriminate Hn.
    + split; [intros _; apply IH|]; reflexivity.
Qed.

(** Writing at an index an object with the identifier of the object that is
    there keeps the identifiers of the array. *)
Lemma insert_same_id (l : list StoredConfiguration.t) (i : nat)
    (existing updated : StoredConfiguration.t) :
  l !! i = Some existing ->
  StoredConfiguration.id updated = StoredConfiguration.id existing ->
  map StoredConfiguration.id (<[i := updated]> l) = map StoredConfiguration.id l.
Proof.
  revert i. induction l as [|y l IH]; intros i Hi Hid; [reflexivity|].
  destruct i as [|i]; simpl in *.
  - injection Hi as ->. rewrite Hid. reflexivity.
  - f_equal. apply IH; assumption.
Qed.

Lemma FileStorage_invariant_perform (this : FileStorage.t) (c : call) :
  FileStorage_invariant this -> FileStorage_invariant (fst (perform this c)).
Proof.
  intros [[Hcs Hcf] [Hrs Hrf]].
  destruct c as [config|id config|response]; simpl;
    unfold FileStorage.readConfigurations, FileStorage.readResponses.
  - split; simpl; [|split; assumption]. rewrite map_app. simpl. split.
    + apply StronglySorted_snoc; assumption.
    + apply Forall_app. split.
      * eapply Forall_impl; [exact Hcf|]. intros i Hi. simpl in Hi. lia.
      * repeat constructor. lia.
  - unfold FileStorage.updateFactConfiguration, FileStorage.readConfigurations.
    destruct (FileStorage.findIndex _ _) as [index|] eqn:Hi; simpl;
      [|repeat split; assumption].
    apply findIndex_Some in Hi as [x [Hx [Hfx _]]]. rewrite Hx. simpl.
    apply Z.eqb_eq in Hfx.
    unfold FileStorage_invariant. simpl.
    rewrite (insert_same_id _ _ x) by (simpl; auto).
    repeat split; assumption.
  - split; simpl; [split; assumption|]. rewrite map_app. simpl. split.
    + apply StronglySorted_snoc; assumption.
    + apply Forall_app. split.
      * eapply Forall_impl; [exact Hrf|]. intros i Hi. simpl in Hi. lia.
      * repeat constructor. lia.
Qed.

Lemma FileStorage_invariant_reachable (this : FileStorage.t) :
  reachable FileStorage.empty this -> FileStorage_invariant this.
Proof.
  apply reachable_ind.
  - repeat split; simpl; constructor.
  - intros storage c. apply FileStorage_invariant_perform.
Qed.

(** The stores as the program starts them are reachable. *)
Lemma MemStorage_new_reachable : reachable MemStorage.empty MemStorage.new.
Proof. exists [CreateFactConfiguration defaultConfiguration]. reflexivity. Qed.

Lemma FileStorage_new_reachable : reachable FileStorage.empty FileStorage.new.
Proof. exists [CreateFactConfiguration defaultConfiguration]. reflexivity. Qed.

Lemma find_id_None {A} (id : A -> Z) (l : list A) (i : Z) :
  Forall (fun j => j < i) (map id l) -> List.find (fun x => id x =? i) l = None.
Proof.
  induction l as [|y l IH]; simpl; [reflexivity|].
  intros [Hy Hl]%Forall_cons_1.
  destruct (Z.eqb_spec (id y) i); [lia|]. auto.
Qed.

(** When every call is carried out before the next one is made, and the
    files are read and written: in both stores the identifiers given out by
    the [create] calls of any sequence of calls, from any state, are in
    strictly increasing order (so no two are equal); two [create] calls in
    sequence give a smaller and then a larger identifier; and in a state
    reached from the empty store the identifier given out is not the one of an
    object already stored. *)
Lemma sequential_identifiers_increase :
  identifiers_increase MemStorage.t MemStorage.empty
  /\ identifiers_increase FileStorage.t FileStorage.empty.
Proof.
  split; (split; [|split; [|split]]).
  - intros storage calls. apply MemStorage_identifiers.
  - intros storage c1 c2. simpl. lia.
  - intros storage r1 r2. simpl. lia.
  - intros storage [Hc Hr]%MemStorage_invariant_reachable config response. simpl.
    unfold MemStorage.getFactConfiguration, MemStorage.getFeedbackResponse. split.
    + destruct (MemStorage.factConfigs storage !! _) as [v|] eqn:Hv; [|reflexivity].
      destruct (Hc _ _ Hv). lia.
    + destruct (MemStorage.feedbackResp storage !! _) as [v|] eqn:Hv; [|reflexivity].
      destruct (Hr _ _ Hv). lia.
  - intros storage calls. apply FileStorage_identifiers.
  - intros storage c1 c2. simpl. lia.
  - intros storage r1 r2. simpl. lia.
  - intros storage [[_ Hc] [_ Hr]]%FileStorage_invariant_reachable config response.
    simpl. unfold FileStorage.getFactConfiguration, FileStorage.getFeedbackResponse.
    split; apply find_id_None; assumption.
Qed.

(** Two calls carried out by [interleave] one after the other, with reads
    and writes that succeed, are the two calls of [run]. *)
Lemma interleave_in_sequence (this : FileStorage.t) (c1 c2 : call) :
  interleave in_sequence this [AwaitsRead c1; AwaitsRead c2]
  = (fst (run this [c1; c2]), map Resolved (snd (run this [c1; c2]))).
Proof.
  assert (Hone : forall (this : FileStorage.t) (c : call),
            fst (resume true (fst (resume true this (AwaitsRead c)))
                        (snd (resume true this (AwaitsRead c))))
            = fst (perform this c)
            /\ snd (resume true (fst (resume true this (AwaitsRead c)))
                          (snd (resume true this (AwaitsRead c))))
               = Resolved (snd (perform this c))).
  { intros [configs responses] c. destruct c as [config|id config|response]; simpl.
    - split; reflexivity.
    - unfold FileStorage.updateFactConfiguration, FileStorage.readConfigurations. simpl.
      destruct (FileStorage.findIndex _ _) as [index|]; simpl; [|split; reflexivity].
      destruct (_ !! _); simpl; split; reflexivity.
    - split; reflexivity. }
  unfold in_sequence. cbn [interleave lookup list_lookup].
  destruct (Hone this c1) as [H1 H1'].
  destruct (resume true this (AwaitsRead c1)) as [this1 t1]. cbn [fst snd] in H1, H1'.
  cbn [insert list_insert lookup list_lookup].
  destruct (resume true this1 t1) as [this1' t1']. cbn [fst snd] in H1, H1'. subst.
  cbn [insert list_insert lookup list_lookup].
  destruct (Hone (fst (perform this c1)) c2) as [H2 H2'].
  destruct (resume true (fst (perform this c1)) (AwaitsRead c2)) as [this2 t2].
  cbn [fst snd] in H2, H2'. cbn [insert list_insert lookup list_lookup].
  destruct (resume true this2 t2) as [this2' t2']. cbn [fst snd] in H2, H2'. subst.
  cbn [insert list_insert run].
  destruct (perform this c1) as [s1 o1]. cbn [fst].
  destruct (perform s1 c2) as [s2 o2]. reflexivity.
Qed.

(** C3 fails on the code.  In the in-memory store a method runs without
    interruption, so the identifiers given out by [create] increase whatever
    the calls, and none is given out twice.  In the file-backed store
    [create] reads [nextId], waits, and writes: two [create] calls of which
    the second reads before the first has written are both answered the same
    identifier, and the file keeps the object of the second only; the same
    identifier is answered twice, too, by two calls one after the other when
    the file cannot be written, and it is 1 when the file cannot be read
    either.  This holds for configurations and for responses, from every
    content of the files.  Only calls carried out one after the other, on
    files that are read and written, get increasing identifiers. *)
Theorem FileStorage_create_identifier_reused
    (this : FileStorage.t) (c1 c2 : InsertFactConfiguration.t)
    (r1 r2 : InsertFeedbackResponse.t) :
  let nextConfigurationId := ConfigurationsFile.nextId (FileStorage.configFile this) in
  let nextResponseId := ResponsesFile.nextId (FileStorage.responsesFile this) in
  let configurations := [AwaitsRead (CreateFactConfiguration c1);
                         AwaitsRead (CreateFactConfiguration c2)] in
  let responses := [AwaitsRead (CreateFeedbackResponse r1);
                    AwaitsRead (CreateFeedbackResponse r2)] in
  (exists x1 x2,
     snd (interleave overlapping this configurations)
       = [Resolved (CreatedConfiguration x1); Resolved (CreatedConfiguration x2)]
     /\ FactConfiguration.id x1 = nextConfigurationId
     /\ FactConfiguration.id x2 = nextConfigurationId
     /\ ConfigurationsFile.configs
          (FileStorage.configFile (fst (interleave overlapping this configurations)))
        = ConfigurationsFile.configs (FileStorage.configFile this) ++ [stored x2]
     /\ ConfigurationsFile.nextId
          (FileStorage.configFile (fst (interleave overlapping this configurations)))
        = nextConfigurationId + 1)
  /\ (exists y1 y2,
        snd (interleave overlapping this responses)
          = [Resolved (CreatedResponse y1); Resolved (CreatedResponse y2)]
        /\ FeedbackResponse.id y1 = nextResponseId
        /\ FeedbackResponse.id y2 = nextResponseId
        /\ ResponsesFile.responses
             (FileStorage.responsesFile (fst (interleave overlapping this responses)))
           = ResponsesFile.responses (FileStorage.responsesFile this) ++ [y2]
        /\ ResponsesFile.nextId
             (FileStorage.responsesFile (fst (interleave overlapping this responses)))
           = nextResponseId + 1)
  /\ (exists x1 x2,
        interleave unwritable this configurations
          = (this, [Resolved (CreatedConfiguration x1); Resolved (CreatedConfiguration x2)])
        /\ FactConfiguration.id x1 = nextConfigurationId
        /\ FactConfiguration.id x2 = nextConfigurationId)
  /\ (exists y1 y2,
        interleave unwritable this responses
          = (this, [Resolved (CreatedResponse y1); Resolved (CreatedResponse y2)])
        /\ FeedbackResponse.id y1 = nextResponseId
        /\ FeedbackResponse.id y2 = nextResponseId)
  /\ (exists x1 x2,
        interleave unreadable this configurations
          = (this, [Resolved (CreatedConfiguration x1); Resolved (CreatedConfiguration x2)])
        /\ FactConfiguration.id x1 = 1
        /\ FactConfiguration.id x2 = 1)
  /\ (exists x1 x2,
        snd (interleave in_sequence this configurations)
          = [Resolved (CreatedConfiguration x1); Resolved (CreatedConfiguration x2)]
        /\ FactConfiguration.id x1 = nextConfigurationId
        /\ FactConfiguration.id x2 = nextConfigurationId + 1)
  /\ identifiers_increase MemStorage.t MemStorage.empty.
Proof.
  destruct this as [[configs nextId] [responses nextId']].
  cbv zeta.
  do 6 (split; [eexists _, _; cbn; repeat split; reflexivity|]).
  exact (proj1 sequential_identifiers_increase).
Qed.

(** On the store as the program starts it: two overlapping calls are both
    answered the identifier 2, and so are two calls on a file that cannot be
    written; both are answered 1 when the file cannot be read either; in
    sequence, on files that are read and written, the calls are answered 2
    and 3. *)
Example FileStorage_create_twice :
  let answers (schedule : list (nat * bool)) :=
    configurationIds
      (map (fun t => match t with
                     | Resolved answer => answer
                     | _ => UpdatedConfiguration None
                     end)
           (snd (interleave schedule FileStorage.new
                   [AwaitsRead (CreateFactConfiguration defaultConfiguration);
                    AwaitsRead (CreateFactConfiguration defaultConfiguration)]))) in
  answers overlapping = [2; 2]
  /\ answers unwritable = [2; 2]
  /\ answers unreadable = [1; 1]
  /\ answers in_sequence = [2; 3]
  /\ configurationIds
       (snd (run FileStorage.new
               [CreateFactConfiguration defaultConfiguration;
                CreateFactConfiguration defaultConfiguration]))
     = [2; 3]
  /\ configurationIds
       (snd (run MemStorage.new
               [CreateFactConfiguration defaultConfiguration;
                CreateFactConfiguration defaultConfiguration]))
     = [2; 3].
Proof. repeat split; reflexivity. Qed.

(** ** The latest configuration *)

Lemma Math_max_spec (numbers : list Z) :
  match Math_max numbers with
  | None => numbers = []
  | Some m => In m numbers /\ forall n, In n numbers -> n <= m
  end.
Proof.
  induction numbers as [|n numbers IH]; [reflexivity|].
  cbn [Math_max foldr]. fold (Math_max numbers).
  destruct (Math_max numbers) as [m|].
  - destruct IH as [Hin Hmax]. split.
    + destruct (Z.max_spec n m) as [[_ ->]|[_ ->]]; simpl; auto.
    + intros n' [<-|Hn']; [lia|]. specialize (Hmax n' Hn'). lia.
  - subst numbers. split; [left; reflexivity|].
    intros n' [<-|[]]. lia.
Qed.

Lemma MemStorage_keys (m : gmap Z StoredConfiguration.t) (k : Z) :
  In k (map fst (map_to_list m)) <-> exists config, m !! k = Some config.
Proof.
  rewrite in_map_iff. split.
  - intros [[k' v] [<- Hin]]. exists v.
    apply elem_of_map_to_list, list_elem_of_In. exact Hin.
  - intros [v Hv]. exists (k, v). split; [reflexivity|].
    apply list_elem_of_In, elem_of_map_to_list. exact Hv.
Qed.

Lemma MemStorage_latest (this : MemStorage.t) :
  MemStorage_invariant this -> latest_is_highest this.
Proof.
  intros [Hinv _]. unfold latest_is_highest. simpl.
  unfold MemStorage.getLatestFactConfiguration, MemStorage.getFactConfiguration.
  destruct (Nat.eqb_spec (size (MemStorage.factConfigs this)) 0) as [Hsize|Hsize].
  - apply map_size_empty_iff in Hsize. rewrite Hsize. split.
    + split; [intros _ id; apply lookup_empty|reflexivity].
    + discriminate.
  - pose proof (Math_max_spec (map fst (map_to_list (MemStorage.factConfigs this))))
      as Hmax.
    destruct (Math_max _) as [latestId|].
    + destruct Hmax as [Hin Hmax].
      apply MemStorage_keys in Hin as [latest Hlatest]. rewrite Hlatest. split.
      * split; [discriminate|]. intros Hnone. rewrite Hnone in Hlatest.
        discriminate Hlatest.
      * intros ? [= <-]. destruct (Hinv _ _ Hlatest) as [Hid _].
        rewrite Hid. split; [exact Hlatest|].
        intros id config Hconfig. destruct (Hinv _ _ Hconfig) as [-> _].
        apply Hmax, MemStorage_keys. eauto.
    + exfalso. apply Hsize, map_size_empty_iff, map_to_list_empty_iff.
      destruct (map_to_list (MemStorage.factConfigs this)); [reflexivity|discriminate].
Qed.

Lemma sorted_before_last (l : list StoredConfiguration.t) (x : StoredConfiguration.t) :
  StronglySorted Z.lt (map StoredConfiguration.id (l ++ [x])) ->
  Forall (fun y => StoredConfiguration.id y < StoredConfiguration.id x) l.
Proof.
  induction l as [|a l IH]; simpl; intros Hs; [constructor|].
  apply StronglySorted_inv in Hs as [Hs Ha]. constructor; [|auto].
  rewrite List.Forall_forall in Ha. apply Ha, in_map, in_or_app. right. left. reflexivity.
Qed.

Lemma find_last (l : list StoredConfiguration.t) (x : StoredConfiguration.t) :
  Forall (fun y => StoredConfiguration.id y < StoredConfiguration.id x) l ->
  List.find (fun c => StoredConfiguration.id c =? StoredConfiguration.id x) (l ++ [x])
  = Some x.
Proof.
  induction l as [|a l IH]; simpl; intros Hl.
  - rewrite Z.eqb_refl. reflexivity.
  - apply Forall_cons_1 in Hl as [Ha Hl].
    destruct (Z.eqb_spec (StoredConfiguration.id a) (StoredConfiguration.id x)); [lia|auto].
Qed.

Lemma FileStorage_latest (this : FileStorage.t) :
  FileStorage_invariant this -> latest_is_highest this.
Proof.
  intros [[Hsorted _] _]. unfold latest_is_highest. simpl.
  unfold FileStorage.getLatestFactConfiguration, FileStorage.getFactConfiguration,
    FileStorage.readConfigurations.
  revert Hsorted.
  generalize (ConfigurationsFile.configs (FileStorage.configFile this)).
  intros l. induction l as [|x l _] using rev_ind; intros Hsorted.
  - simpl. split; [tauto|discriminate].
  - pose proof (sorted_before_last _ _ Hsorted) as Hbefore.
    assert (Hlen : (length (l ++ [x]) =? 0)%nat = false).
    { apply Nat.eqb_neq. rewrite length_app. simpl. lia. }
    assert (Hlast : (l ++ [x]) !! (length (l ++ [x]) - 1)%nat = Some x).
    { rewrite length_app. simpl.
      replace (length l + 1 - 1)%nat with (length l + 0)%nat by lia.
      rewrite lookup_app_r by lia.
      replace (length l + 0 - length l)%nat with 0%nat by lia. reflexivity. }
    rewrite Hlen, Hlast. split.
    + split; [discriminate|]. intros Hnone.
      specialize (Hnone (StoredConfiguration.id x)).
      rewrite find_last in Hnone by exact Hbefore. discriminate Hnone.
    + intros ? [= <-]. split; [apply find_last; exact Hbefore|].
      intros id config Hfind. apply find_some in Hfind as [Hin _].
      apply in_app_or in Hin as [Hin|[<-|[]]]; [|lia].
      rewrite List.Forall_forall in Hbefore. specialize (Hbefore _ Hin). lia.
Qed.

(** C4: in every state reached from the empty store by create and update
    calls, for the in-memory and for the file-backed store,
    [getLatestFactConfiguration] answers a configuration of the store, none
    of the store has a higher identifier, and it answers nothing exactly when
    the store has no configuration. *)
Theorem getLatestFactConfiguration_highest :
  (forall this : MemStorage.t, reachable MemStorage.empty this -> latest_is_highest this)
  /\ (forall this : FileStorage.t, reachable FileStorage.empty this -> latest_is_highest this).
Proof.
  split; intros this Hreach.
  - apply MemStorage_latest, MemStorage_invariant_reachable, Hreach.
  - apply FileStorage_latest, FileStorage_invariant_reachable, Hreach.
Qed.

(** ** Updating a configuration *)

Lemma find_insert_found {A} (f : A -> bool) (l : list A) (i : nat) (u : A) :
  FileStorage.findIndex f l = Some i -> f u = true ->
  List.find f (<[i := u]> l) = Some u.
Proof.
  revert i. induction l as [|y l IH]; intros i; simpl; [discriminate|].
  destruct (f y) eqn:Hy.
  - intros [= <-] Hu. simpl. rewrite Hu. reflexivity.
  - destruct (FileStorage.findIndex f l) as [j|]; simpl; [|discriminate].
    intros [= <-] Hu. simpl. rewrite Hy. auto.
Qed.

Lemma find_insert_other {A} (g : A -> bool) (l : list A) (i : nat) (x u : A) :
  l !! i = Some x -> g x = false -> g u = false ->
  List.find g (<[i := u]> l) = List.find g l.
Proof.
  revert i. induction l as [|y l IH]; intros i Hi Hx Hu; [reflexivity|].
  destruct i as [|i]; simpl in *.
  - injection Hi as ->. rewrite Hx, Hu. reflexivity.
  - destruct (g y); [reflexivity|]. eauto.
Qed.

Lemma MemStorage_update_in_place :
  update_in_place MemStorage.t (fun partial => defined_payload partial = true).
Proof.
  intros this id partial existing Hdefined. simpl.
  unfold MemStorage.getFactConfiguration, MemStorage.updateFactConfiguration.
  intros ->. eexists. simpl. split; [reflexivity|]. split; [reflexivity|].
  unfold defined_payload in Hdefined.
  apply andb_true_iff in Hdefined as [Hdefined Hs].
  apply andb_true_iff in Hdefined as [Hr Hc].
  split; [destruct (PartialFactConfiguration.restaurantFacts partial);
          try discriminate; reflexivity|].
  split; [destruct (PartialFactConfiguration.customerFacts partial);
          try discriminate; reflexivity|].
  split; [destruct (PartialFactConfiguration.systemFacts partial);
          try discriminate; reflexivity|].
  split; [apply lookup_insert_eq|].
  split; [|split; reflexivity].
  intros id' Hne. apply lookup_insert_ne. congruence.
Qed.

Lemma FileStorage_update_in_place :
  update_in_place FileStorage.t (fun _ => True).
Proof.
  intros this id partial existing _. simpl.
  unfold FileStorage.getFactConfiguration, FileStorage.updateFactConfiguration,
    FileStorage.readConfigurations.
  intros Hfind.
  destruct (FileStorage.findIndex _ _) as [index|] eqn:Hindex.
  2:{ apply findIndex_None in Hindex. congruence. }
  pose proof Hindex as Hindex'.
  apply findIndex_Some in Hindex' as [x [Hx [Hfx Hfind']]].
  assert (x = existing) as -> by congruence.
  rewrite Hx. eexists. simpl. split; [reflexivity|]. split; [reflexivity|].
  split; [destruct (PartialFactConfiguration.restaurantFacts partial); reflexivity|].
  split; [destruct (PartialFactConfiguration.customerFacts partial); reflexivity|].
  split; [destruct (PartialFactConfiguration.systemFacts partial); reflexivity|].
  split; [apply find_insert_found; [exact Hindex|]; simpl; apply Z.eqb_refl|].
  split; [|split; reflexivity].
  intros id' Hne. apply Z.eqb_eq in Hfx.
  apply (find_insert_other _ _ _ existing); [exact Hx| |]; simpl;
    apply Z.eqb_neq; congruence.
Qed.

Lemma MemStorage_update_not_found : update_not_found MemStorage.t.
Proof.
  intros this id partial. simpl.
  unfold MemStorage.getFactConfiguration, MemStorage.updateFactConfiguration.
  intros ->. reflexivity.
Qed.

Lemma FileStorage_update_not_found : update_not_found FileStorage.t.
Proof.
  intros this id partial. simpl.
  unfold FileStorage.getFactConfiguration, FileStorage.updateFactConfiguration,
    FileStorage.readConfigurations.
  intros Hfind%findIndex_None. rewrite Hfind. reflexivity.
Qed.

(** A payload whose [restaurantFacts] key has the value [undefined]. *)
Example MemStorage_update_undefined :
  let partial :=
    {| PartialFactConfiguration.restaurantFacts := KeyUndefined;
       PartialFactConfiguration.customerFacts := KeyAbsent;
       PartialFactConfiguration.systemFacts := KeyAbsent |} in
  StoredConfiguration.restaurantFacts
    <$> getFactConfiguration (fst (updateFactConfiguration MemStorage.new 1 partial)) 1
  = Some None
  /\ StoredConfiguration.restaurantFacts
       <$> getFactConfiguration (fst (updateFactConfiguration FileStorage.new 1 partial)) 1
     = Some (Some (InsertFactConfiguration.restaurantFacts defaultConfiguration))
  /\ StoredConfiguration.restaurantFacts <$> getFactConfiguration MemStorage.new 1
     = Some (Some (InsertFactConfiguration.restaurantFacts defaultConfiguration)).
Proof. repeat split; vm_compute; reflexivity. Qed.

(** C8 fails on the code.  The file-backed store does what the
    specification asks, for every payload: when a configuration with the identifier exists,
    [updateFactConfiguration] answers a configuration with that identifier
    whose fact groups are those the payload gives, and the stored ones for
    the groups it does not give; that configuration is then the one stored
    under the identifier, and the other configurations, the responses and the
    next identifier are unchanged.  The in-memory store does so only for a
    payload none of whose keys has the value [undefined]: a group whose key
    is there with the value [undefined], which the type of the payload
    admits, is not left unchanged but lost, the stored configuration having
    [undefined] in its place.  In both stores an identifier that is not found
    gives not-found and leaves the store unchanged. *)
Theorem MemStorage_updateFactConfiguration_undefined :
  (update_in_place FileStorage.t (fun _ => True) /\ update_not_found FileStorage.t)
  /\ (update_in_place MemStorage.t (fun partial => defined_payload partial = true)
      /\ update_not_found MemStorage.t)
  /\ (forall (this : MemStorage.t) (id : Z) (partial : PartialFactConfiguration.t)
             (existing : StoredConfiguration.t),
        getFactConfiguration this id = Some existing ->
        exists updated,
          snd (updateFactConfiguration this id partial) = Some updated
          /\ getFactConfiguration (fst (updateFactConfiguration this id partial)) id
             = Some updated
          /\ (PartialFactConfiguration.restaurantFacts partial = KeyUndefined ->
              StoredConfiguration.restaurantFacts updated = None)
          /\ (PartialFactConfiguration.customerFacts partial = KeyUndefined ->
              StoredConfiguration.customerFacts updated = None)
          /\ (PartialFactConfiguration.systemFacts partial = KeyUndefined ->
              StoredConfiguration.systemFacts updated = None))
  /\ ~ update_in_place MemStorage.t (fun _ => True).
Proof.
  split; [split; [apply FileStorage_update_in_place|apply FileStorage_update_not_found]|].
  split; [split; [apply MemStorage_update_in_place|apply MemStorage_update_not_found]|].
  split.
  - intros this id partial existing. simpl.
    unfold MemStorage.getFactConfiguration, MemStorage.updateFactConfiguration.
    intros ->. eexists. simpl. split; [reflexivity|].
    split; [apply lookup_insert_eq|].
    repeat split; intros ->; reflexivity.
  - intros Hall.
    destruct (Hall MemStorage.new 1
                {| PartialFactConfiguration.restaurantFacts := KeyUndefined;
                   PartialFactConfiguration.customerFacts := KeyAbsent;
                   PartialFactConfiguration.systemFacts := KeyAbsent |}
                _ I eq_refl) as [updated [Hupdated [_ [Hgroup _]]]].
    vm_compute in Hupdated. injection Hupdated as <-.
    vm_compute in Hgroup. discriminate Hgroup.
Qed.

(** ** The configuration of a response *)

(** The file-backed store puts 1 when the payload has no [configurationId]. *)
Lemma FileStorage_createFeedbackResponse_fallback
    (this : FileStorage.t) (feedbackText : BodyValue) (aiResponse : jsstring) :
  FeedbackResponse.configurationId
    (snd (createFeedbackResponse this
            {| InsertFeedbackResponse.feedbackText := feedbackText;
               InsertFeedbackResponse.aiResponse := aiResponse;
               InsertFeedbackResponse.configurationId := None |}))
  = Some 1.
Proof. reflexivity. Qed.

(** C9 fails on the code: the in-memory store keeps the payload as it is, so
    a payload without [configurationId] gives a stored response without
    [configurationId], where the file-backed store puts 1. *)
Theorem MemStorage_createFeedbackResponse_no_fallback
    (this : MemStorage.t) (feedbackText : BodyValue) (aiResponse : jsstring) :
  let response :=
    {| InsertFeedbackResponse.feedbackText := feedbackText;
       InsertFeedbackResponse.aiResponse := aiResponse;
       InsertFeedbackResponse.configurationId := None |} in
  let saved := snd (createFeedbackResponse this response) in
  FeedbackResponse.configurationId saved = None
  /\ getFeedbackResponse (fst (createFeedbackResponse this response))
       (FeedbackResponse.id saved) = Some saved.
Proof.
  simpl. split; [reflexivity|].
  unfold MemStorage.getFeedbackResponse. simpl. apply lookup_insert_eq.
Qed.

(** ** Failures of the handler *)

Section HandlerFailures.

Context {S : Type} `{IStorage S}.
Variable openai : ChatRequest.t -> Completion.
Variable openaiApiKey : option jsstring.

(** What [prepare] hands on is the value of the body. *)
Lemma prepare_feedbackText (storage : S) (body : RequestBody.t)
    (feedbackText : BodyValue) (config : FactConfiguration.t) (prompt : jsstring) :
  prepare storage body = inr (feedbackText, config, prompt) ->
  feedbackText = RequestBody.feedbackText body.
Proof.
  unfold prepare. cbv zeta. destruct (BodyValue_falsy _); [discriminate|].
  match goal with
  | |- match ?chosen with _ => _ end = _ -> _ => destruct chosen as [found|]
  end; [|discriminate].
  destruct (readConfiguration found); [discriminate|].
  destruct (BodyValue_ToString _); [|discriminate].
  intros [= <- _ _]. reflexivity.
Qed.

(** For a feedback text that is a string, only an answer with a generated
    response changes the store. *)
Lemma generateResponse_failure_keeps_store (storage : S) (body : RequestBody.t)
    (text : jsstring) :
  RequestBody.feedbackText body = StringValue text ->
  (status (snd (generateResponse openai openaiApiKey storage body)) <> 200 ->
   fst (generateResponse openai openaiApiKey storage body) = storage)
  /\ (status (snd (generateResponse_first openai storage body)) <> 200 ->
      fst (generateResponse_first openai storage body) = storage).
Proof.
  intros Htext. unfold generateResponse, generateResponse_first, complete.
  destruct (prepare storage body) as [reply|[[feedbackText config] prompt]] eqn:Hprepare;
    [auto|].
  apply prepare_feedbackText in Hprepare. rewrite Htext in Hprepare. subst feedbackText.
  destruct (falsy openaiApiKey || _); simpl;
    destruct (openai _) as [message|content]; simpl; auto;
    destruct (falsy content); simpl; auto;
    destruct (createFeedbackResponse _ _); simpl; split; auto; congruence.
Qed.

(** C2: a request without feedback text, or with an empty one, is answered
    by status 400 and the store is unchanged; when the service answers an
    absent or empty content to the request of the handler, the answer is
    status 500 and the store is unchanged, so no response is created. *)
Theorem generateResponse_failures (storage : S) (body : RequestBody.t) :
  (BodyValue_falsy (RequestBody.feedbackText body) = true ->
   generateResponse openai openaiApiKey storage body
     = (storage, Message 400 (lit "Feedback text is required"))
   /\ generateResponse_first openai storage body
      = (storage, Message 400 (lit "Feedback text is required")))
  /\ (forall feedbackText config prompt content,
        prepare storage body = inr (feedbackText, config, prompt) ->
        openai (chatRequest config prompt) = Content content ->
        falsy content = true ->
        generateResponse_first openai storage body
          = (storage, Message 500 (lit "Failed to generate response"))
        /\ (falsy openaiApiKey
            || String_eqb (default [] openaiApiKey) (lit "dummy_key_for_development")
            = false ->
            generateResponse openai openaiApiKey storage body
              = (storage, Message 500 (lit "Failed to generate response")))
        /\ fst (generateResponse openai openaiApiKey storage body) = storage
        /\ getAllFeedbackResponses (fst (generateResponse openai openaiApiKey storage body))
           = getAllFeedbackResponses storage
        /\ status (snd (generateResponse openai openaiApiKey storage body)) = 500).
Proof.
  split.
  - intros Hempty. unfold generateResponse, generateResponse_first, prepare.
    rewrite Hempty. split; reflexivity.
  - intros feedbackText config prompt content Hprepare Hopenai Hcontent.
    unfold generateResponse, generateResponse_first, complete.
    rewrite Hprepare, Hopenai, Hcontent.
    split; [reflexivity|]. split; [intros ->; reflexivity|].
    destruct (falsy openaiApiKey || _); simpl; auto.
Qed.

End HandlerFailures.

(** ** The statements on sample data *)

Lemma getLatestFactConfiguration_highest_witness :
  latest_is_highest (fst (run MemStorage.empty sampleCalls))
  /\ latest_is_highest (fst (run FileStorage.empty sampleCalls)).
Proof.
  destruct getLatestFactConfiguration_highest as [Hmem Hfile]. split.
  - apply Hmem. exists sampleCalls. reflexivity.
  - apply Hfile. exists sampleCalls. reflexivity.
Defined.

Example getLatestFactConfiguration_sample :
  StoredConfiguration.id <$> getLatestFactConfiguration (fst (run MemStorage.empty sampleCalls))
    = Some 3
  /\ StoredConfiguration.id <$> getLatestFactConfiguration (fst (run FileStorage.empty sampleCalls))
     = Some 3
  /\ getLatestFactConfiguration MemStorage.empty = None
  /\ getLatestFactConfiguration FileStorage.empty = None.
Proof. repeat split; vm_compute; reflexivity. Qed.

Lemma generateResponse_failures_witness :
  generateResponse emptyCompletion (Some (lit "sk-test")) FileStorage.new
    {| RequestBody.feedbackText := StringValue [];
       RequestBody.configurationId := None |}
  = (FileStorage.new, Message 400 (lit "Feedback text is required"))
  /\ generateResponse emptyCompletion (Some (lit "sk-test")) FileStorage.new
       {| RequestBody.feedbackText := StringValue (lit "Great food!");
          RequestBody.configurationId := Some 1 |}
     = (FileStorage.new, Message 500 (lit "Failed to generate response")).
Proof.
  split.
  - exact (proj1 (proj1 (generateResponse_failures emptyCompletion
                           (Some (lit "sk-test")) FileStorage.new
                           {| RequestBody.feedbackText := StringValue [];
                              RequestBody.configurationId := None |}) eq_refl)).
  - destruct (generateResponse_failures emptyCompletion (Some (lit "sk-test"))
                FileStorage.new
                {| RequestBody.feedbackText := StringValue (lit "Great food!");
                   RequestBody.configurationId := Some 1 |}) as [_ Hempty].
    edestruct Hempty as [_ [Hreply _]]; [reflexivity|reflexivity|reflexivity|].
    apply Hreply. reflexivity.
Defined.

(** A request that succeeds creates one response, with the identifier of the
    configuration used. *)
Example generateResponse_success :
  let reply :=
    generateResponse (fun _ => Content (Some (lit "Thank you, John!")))
      (Some (lit "sk-test")) FileStorage.new
      {| RequestBody.feedbackText := StringValue (lit "Great food!");
         RequestBody.configurationId := None |} in
  snd reply
  = Generated {| FeedbackResponse.id := 1;
                 FeedbackResponse.feedbackText := StringValue (lit "Great food!");
                 FeedbackResponse.aiResponse := lit "Thank you, John!";
                 FeedbackResponse.configurationId := Some 1 |}
              3 (lit "Positive")
  /\ length (getAllFeedbackResponses (fst reply)) = 1%nat.
Proof. split; reflexivity. Qed.

(** * Further properties *)

(** ** Rendering *)

Lemma replace_scan_absent (pat repl str : jsstring) (position : nat) (s : jsstring) :
  includes s pat = false -> replace_scan pat repl str 0 position s = s.
Proof.
  revert position. induction s as [|c s IH]; intros position Hs; [reflexivity|].
  cbn [includes] in Hs. apply orb_false_iff in Hs as [Hhead Hs].
  cbn [replace_scan]. rewrite Hhead, IH by exact Hs. reflexivity.
Qed.

(** X1: a template in which no recognized token occurs is rendered as it is,
    whatever the facts and the feedback text are; braces that open no
    recognized token are kept. *)
Theorem render_without_placeholder
    (config : FactConfiguration.t) (feedbackText : jsstring) :
  (forall p, includes (SystemFacts.promptTemplate (FactConfiguration.systemFacts config))
                      (token p) = false) ->
  render config feedbackText
  = SystemFacts.promptTemplate (FactConfiguration.systemFacts config).
Proof.
  intros Habsent. rewrite render_passes.
  generalize placeholders. intros l. induction l as [|p l IH]; [reflexivity|].
  rewrite passes_cons. unfold pass, replace.
  rewrite replace_scan_absent by apply Habsent. exact IH.
Qed.

Lemma render_without_placeholder_witness :
  render (sampleConfiguration (lit "Dear {Guest}, thank you for your {feedback}."))
         (lit "Great food!")
  = lit "Dear {Guest}, thank you for your {feedback}.".
Proof.
  apply render_without_placeholder. intros p. destruct p; reflexivity.
Defined.

(** X2: when every opening brace of the template opens a recognized token
    and the values of the placeholders of the template have neither an
    opening brace nor a dollar sign, every occurrence of every token is
    replaced by its value, a token that occurs several times included, the
    text between the tokens is kept, and no token is left. *)
Theorem render_every_occurrence
    (config : FactConfiguration.t) (feedbackText : jsstring) (segs : list segment) :
  SystemFacts.promptTemplate (FactConfiguration.systemFacts config) = flatten segs ->
  forallb plain segs = true ->
  forallb (substitutable config feedbackText) segs = true ->
  render config feedbackText = flatten (map (fill config feedbackText) segs)
  /\ forall p, occurrences (token p) (render config feedbackText) = 0%nat.
Proof.
  intros Ht Hp Hs.
  rewrite (render_fill config feedbackText segs Ht Hp Hs). split; [reflexivity|].
  intros p. destruct (token_shape p) as [-> _].
  apply lacks_occurrences, lacks_fill; assumption.
Qed.

Lemma render_every_occurrence_witness :
  render (sampleConfiguration
            (lit "{Customer Name}! Yes, {Customer Name}: {Meal type} at {Restaurant Name}."))
         (lit "Great food!")
  = lit "John Doe! Yes, John Doe: Dinner at Sample Bistro.".
Proof.
  exact (proj1 (render_every_occurrence
           (sampleConfiguration
              (lit "{Customer Name}! Yes, {Customer Name}: {Meal type} at {Restaurant Name}."))
           (lit "Great food!")
           [Hole CustomerName; Text (lit "! Yes, "); Hole CustomerName; Text (lit ": ");
            Hole MealType; Text (lit " at "); Hole RestaurantName; Text (lit ".")]
           eq_refl eq_refl eq_refl)).
Defined.

(** X3: a value in which no dollar sign is followed by [$], [&], a backquote
    or a quote, such as an amount of money, is substituted as it is, in a
    template with any number of tokens: when every opening brace of the
    template opens a recognized token and the values of the placeholders of
    the template have no opening brace and are such values, the rendered
    prompt is the template with every token replaced by its value, and no
    token is left. *)
Theorem render_dollar_amount
    (config : FactConfiguration.t) (feedbackText : jsstring) (segs : list segment) :
  SystemFacts.promptTemplate (FactConfiguration.systemFacts config) = flatten segs ->
  forallb plain segs = true ->
  braceless_values config feedbackText segs = true ->
  safe_values config feedbackText segs = true ->
  render config feedbackText = flatten (map (fill config feedbackText) segs)
  /\ forall p, occurrences (token p) (render config feedbackText) = 0%nat.
Proof.
  intros Ht Hplain Hbraceless Hsafe.
  pose proof (braceless_values_holes config feedbackText _ Hbraceless) as Hvalues.
  assert (Hr : render config feedbackText = flatten (map (fill config feedbackText) segs)).
  { apply render_quiet; [exact Ht| |exact Hsafe].
    apply plain_quiet_chain; assumption. }
  split; [exact Hr|]. intros p. rewrite Hr.
  destruct (token_shape p) as [-> _]. apply lacks_occurrences.
  apply lacks_fill_holes; assumption.
Qed.

Lemma render_dollar_amount_witness :
  let config := sampleConfigurationFor (lit "Mr $mith (owes $20)") defaultPromptTemplate in
  let feedbackText := lit "It cost $25, great!" in
  render config feedbackText
  = flatten (map (fill config feedbackText)
               (defaultSegmentsBefore ++ Hole CustomerFeedbackText :: defaultSegmentsAfter)).
Proof.
  intros config feedbackText.
  exact (proj1 (render_dollar_amount config feedbackText
                  (defaultSegmentsBefore ++ Hole CustomerFeedbackText :: defaultSegmentsAfter)
                  eq_refl eq_refl eq_refl eq_refl)).
Defined.

(** ** Round trips through the stores *)

Lemma find_app_fresh {A} (f : A -> bool) (l : list A) (x : A) :
  List.find f (l ++ [x])
  = match List.find f l with
    | Some y => Some y
    | None => if f x then Some x else None
    end.
Proof.
  induction l as [|y l IH]; simpl; [reflexivity|].
  destruct (f y); [reflexivity|exact IH].
Qed.

Lemma MemStorage_size_responses (this : MemStorage.t) :
  length (getAllFeedbackResponses this) = size (MemStorage.feedbackResp this).
Proof.
  simpl. unfold MemStorage.getAllFeedbackResponses.
  rewrite length_map. apply length_map_to_list.
Qed.

Lemma MemStorage_create_configuration (this : MemStorage.t) :
  MemStorage_invariant this -> create_configuration_round_trip this.
Proof.
  intros Hinv config created this'.
  assert (Hinv' : MemStorage_invariant this').
  { exact (MemStorage_invariant_perform this (CreateFactConfiguration config) Hinv). }
  assert (Hget : getFactConfiguration this' (FactConfiguration.id created)
                 = Some (stored created)).
  { simpl. unfold MemStorage.getFactConfiguration. simpl. apply lookup_insert_eq. }
  split; [repeat split|]. split; [exact Hget|]. split; [|split].
  - destruct (MemStorage_latest this' Hinv') as [Hnone Hsome].
    destruct (getLatestFactConfiguration this') as [latest|] eqn:Hlatest.
    + destruct (Hsome latest eq_refl) as [Hstored Hmax].
      specialize (Hmax _ _ Hget).
      destruct Hinv' as [Hc _].
      simpl in Hstored. unfold MemStorage.getFactConfiguration in Hstored.
      destruct (Hc _ _ Hstored) as [_ Hlt]. simpl in Hlt, Hmax.
      assert (Heq : StoredConfiguration.id latest = MemStorage.currentConfigId this) by lia.
      simpl in Hget. unfold MemStorage.getFactConfiguration in Hget. simpl in Hget.
      rewrite Heq in Hstored. simpl in Hstored. congruence.
    + rewrite (proj1 Hnone eq_refl) in Hget. discriminate Hget.
  - intros id Hne. simpl. unfold MemStorage.getFactConfiguration. simpl.
    apply lookup_insert_ne. simpl in Hne. congruence.
  - reflexivity.
Qed.

Lemma FileStorage_create_configuration (this : FileStorage.t) :
  FileStorage_invariant this -> create_configuration_round_trip this.
Proof.
  destruct this as [[l nextId] responsesFile].
  intros [[Hsorted Hbelow] _] config created this'. simpl in Hsorted, Hbelow.
  split; [repeat split|].
  unfold created, this'. cbn.
  unfold FileStorage.getLatestFactConfiguration, FileStorage.getFactConfiguration,
    FileStorage.writeConfigurations, FileStorage.readConfigurations. cbn.
  split; [|split; [|split]].
  - rewrite find_app_fresh, find_id_None by exact Hbelow. cbn.
    rewrite Z.eqb_refl. reflexivity.
  - rewrite length_app. cbn [length].
    replace (length l + 1 =? 0)%nat with false by (symmetry; apply Nat.eqb_neq; lia).
    replace (length l + 1 - 1)%nat with (length l + 0)%nat by lia.
    rewrite lookup_app_r by lia.
    replace (length l + 0 - length l)%nat with 0%nat by lia. reflexivity.
  - intros id Hne. rewrite find_app_fresh. destruct (List.find _ l); [reflexivity|].
    cbn. destruct (Z.eqb_spec nextId id); [|reflexivity].
    exfalso. apply Hne. congruence.
  - reflexivity.
Qed.

(** X4: in a state reached from the empty store, the configuration answered
    by [createFactConfiguration] has the facts given; it is then the one
    [getFactConfiguration] answers for its identifier and the one
    [getLatestFactConfiguration] answers; the other configurations and the
    responses are unchanged.  For the in-memory and the file-backed store. *)
Theorem createFactConfiguration_round_trip :
  (forall this : MemStorage.t,
     reachable MemStorage.empty this -> create_configuration_round_trip this)
  /\ (forall this : FileStorage.t,
        reachable FileStorage.empty this -> create_configuration_round_trip this).
Proof.
  split; intros this Hreach.
  - apply MemStorage_create_configuration, MemStorage_invariant_reachable, Hreach.
  - apply FileStorage_create_configuration, FileStorage_invariant_reachable, Hreach.
Qed.

Lemma createFactConfiguration_round_trip_witness :
  create_configuration_round_trip (fst (run MemStorage.empty sampleCalls))
  /\ create_configuration_round_trip (fst (run FileStorage.empty sampleCalls)).
Proof.
  destruct createFactConfiguration_round_trip as [Hmem Hfile]. split.
  - apply Hmem. exists sampleCalls. reflexivity.
  - apply Hfile. exists sampleCalls. reflexivity.
Defined.

Lemma MemStorage_create_response (this : MemStorage.t) :
  MemStorage_invariant this -> create_response_round_trip this.
Proof.
  intros [_ Hr] response saved this'.
  split; [split; reflexivity|]. split; [|split; [|split; [|split; [|split]]]].
  - simpl. unfold MemStorage.getFeedbackResponse. simpl. apply lookup_insert_eq.
  - intros id Hne. simpl. unfold MemStorage.getFeedbackResponse. simpl.
    apply lookup_insert_ne. simpl in Hne. congruence.
  - rewrite !MemStorage_size_responses. simpl. apply map_size_insert_None.
    destruct (MemStorage.feedbackResp this !! MemStorage.currentResponseId this)
      as [r|] eqn:Hlookup; [|reflexivity].
    destruct (Hr _ _ Hlookup). lia.
  - simpl. unfold MemStorage.getAllFeedbackResponses. simpl.
    apply in_map_iff. exists (MemStorage.currentResponseId this, saved).
    split; [reflexivity|]. apply list_elem_of_In, elem_of_map_to_list.
    apply lookup_insert_eq.
  - reflexivity.
  - reflexivity.
Qed.

Lemma FileStorage_create_response (this : FileStorage.t) :
  FileStorage_invariant this -> create_response_round_trip this.
Proof.
  destruct this as [configFile [l nextId]].
  intros [_ [Hsorted Hbelow]] response saved this'. simpl in Hsorted, Hbelow.
  split; [split; reflexivity|].
  unfold saved, this'. cbn.
  unfold FileStorage.getFeedbackResponse, FileStorage.getAllFeedbackResponses,
    FileStorage.getLatestFactConfiguration, FileStorage.getFactConfiguration,
    FileStorage.writeResponses, FileStorage.readResponses,
    FileStorage.readConfigurations. cbn.
  split; [|split; [|split; [|split; [|split]]]].
  - rewrite find_app_fresh, find_id_None by exact Hbelow. cbn.
    rewrite Z.eqb_refl. reflexivity.
  - intros id Hne. rewrite find_app_fresh. destruct (List.find _ l); [reflexivity|].
    cbn. destruct (Z.eqb_spec nextId id); [|reflexivity].
    exfalso. apply Hne. congruence.
  - rewrite length_app. cbn [length]. lia.
  - apply in_or_app. right. left. reflexivity.
  - reflexivity.
  - reflexivity.
Qed.

(** X5: in a state reached from the empty store, the response answered by
    [createFeedbackResponse] has the feedback text and the answer given; it
    is then the one [getFeedbackResponse] answers for its identifier and it is
    in the list of [getAllFeedbackResponses], which has one response more;
    the other responses and the configurations are unchanged.  For the
    in-memory and the file-backed store. *)
Theorem createFeedbackResponse_round_trip :
  (forall this : MemStorage.t,
     reachable MemStorage.empty this -> create_response_round_trip this)
  /\ (forall this : FileStorage.t,
        reachable FileStorage.empty this -> create_response_round_trip this).
Proof.
  split; intros this Hreach.
  - apply MemStorage_create_response, MemStorage_invariant_reachable, Hreach.
  - apply FileStorage_create_response, FileStorage_invariant_reachable, Hreach.
Qed.

Lemma createFeedbackResponse_round_trip_witness :
  create_response_round_trip (fst (run MemStorage.empty sampleCalls))
  /\ create_response_round_trip (fst (run FileStorage.empty sampleCalls)).
Proof.
  destruct createFeedbackResponse_round_trip as [Hmem Hfile]. split.
  - apply Hmem. exists sampleCalls. reflexivity.
  - apply Hfile. exists sampleCalls. reflexivity.
Defined.

(** ** What no call undoes *)

Section Persist.

Context {S : Type} `{IStorage S}.

Variable invariant : S -> Prop.

Hypothesis invariant_perform : forall storage c,
  invariant storage -> invariant (fst (perform storage c)).

Hypothesis perform_persist : forall storage c,
  invariant storage ->
  (forall id response, getFeedbackResponse storage id = Some response ->
     getFeedbackResponse (fst (perform storage c)) id = Some response)
  /\ (forall id config, getFactConfiguration storage id = Some config ->
        exists config', getFactConfiguration (fst (perform storage c)) id = Some config'
                        /\ StoredConfiguration.id config' = StoredConfiguration.id config)
  /\ (length (getAllFeedbackResponses storage)
      <= length (getAllFeedbackResponses (fst (perform storage c))))%nat.

Lemma run_persist (storage : S) : invariant storage -> records_persist storage.
Proof.
  intros Hinv calls. revert storage Hinv.
  induction calls as [|c calls IH]; intros storage Hinv; cbn zeta.
  - simpl. repeat split; eauto.
  - destruct (perform_persist storage c Hinv) as [Hr [Hc Hl]].
    specialize (IH _ (invariant_perform storage c Hinv)). cbn zeta in IH.
    simpl. destruct (perform storage c) as [storage1 o]. simpl in *.
    destruct (run storage1 calls) as [storage2 os]. simpl in *.
    destruct IH as [IHr [IHc IHl]]. repeat split.
    + intros id response Hget. apply IHr, Hr, Hget.
    + intros id config Hget. destruct (Hc id config Hget) as [config1 [Hget1 Hid1]].
      destruct (IHc id config1 Hget1) as [config2 [Hget2 Hid2]].
      exists config2. split; [exact Hget2|congruence].
    + lia.
Qed.

End Persist.

Lemma MemStorage_perform_persist (this : MemStorage.t) (c : call) :
  MemStorage_invariant this ->
  (forall id response, getFeedbackResponse this id = Some response ->
     getFeedbackResponse (fst (perform this c)) id = Some response)
  /\ (forall id config, getFactConfiguration this id = Some config ->
        exists config', getFactConfiguration (fst (perform this c)) id = Some config'
                        /\ StoredConfiguration.id config' = StoredConfiguration.id config)
  /\ (length (getAllFeedbackResponses this)
      <= length (getAllFeedbackResponses (fst (perform this c))))%nat.
Proof.
  intros Hinv. destruct c as [config|id0 partial|response].
  - destruct (MemStorage_create_configuration this Hinv config)
      as [_ [_ [_ [Hother Hall]]]].
    simpl in *. repeat split; [auto| |rewrite Hall; lia].
    intros id c Hget. exists c. split; [|reflexivity].
    rewrite Hother; [exact Hget|].
    destruct Hinv as [Hc _]. unfold MemStorage.getFactConfiguration in Hget.
    destruct (Hc _ _ Hget). simpl. lia.
  - simpl. unfold MemStorage.updateFactConfiguration, MemStorage.getFactConfiguration.
    destruct (MemStorage.factConfigs this !! id0) as [existing|] eqn:Hex; simpl.
    + repeat split; [auto| |apply Nat.eq_le_incl; reflexivity].
      intros id c Hget. destruct (decide (id = id0)) as [->|Hne].
      * rewrite lookup_insert_eq. eexists. split; [reflexivity|]. simpl.
        destruct Hinv as [Hc _]. destruct (Hc _ _ Hget). congruence.
      * rewrite lookup_insert_ne by congruence. eauto.
    + repeat split; eauto.
  - destruct (MemStorage_create_response this Hinv response)
      as [_ [_ [Hother [Hlen [_ [Hconfigs _]]]]]].
    simpl in *. repeat split; [| |rewrite Hlen; lia].
    + intros id r Hget. rewrite Hother; [exact Hget|].
      destruct Hinv as [_ Hr]. unfold MemStorage.getFeedbackResponse in Hget.
      destruct (Hr _ _ Hget). simpl. lia.
    + intros id c Hget. exists c. rewrite Hconfigs. auto.
Qed.

Lemma FileStorage_find_id (l : list StoredConfiguration.t) (id : Z)
    (config : StoredConfiguration.t) :
  List.find (fun c => StoredConfiguration.id c =? id) l = Some config ->
  StoredConfiguration.id config = id.
Proof. intros [_ Heq]%find_some. apply Z.eqb_eq. exact Heq. Qed.

Lemma FileStorage_update_in_place_step (this : FileStorage.t) (id : Z)
    (partial : PartialFactConfiguration.t) (existing : StoredConfiguration.t) :
  getFactConfiguration this id = Some existing ->
  exists updated,
    getFactConfiguration (fst (updateFactConfiguration this id partial)) id = Some updated
    /\ StoredConfiguration.id updated = id
    /\ (forall id', id' <> id ->
          getFactConfiguration (fst (updateFactConfiguration this id partial)) id'
          = getFactConfiguration this id').
Proof.
  simpl.
  unfold FileStorage.getFactConfiguration, FileStorage.updateFactConfiguration,
    FileStorage.readConfigurations.
  intros Hfind.
  destruct (FileStorage.findIndex _ _) as [index|] eqn:Hindex.
  2:{ apply findIndex_None in Hindex. congruence. }
  pose proof Hindex as Hindex'.
  apply findIndex_Some in Hindex' as [x [Hx [Hfx Hfind']]].
  assert (x = existing) as -> by congruence.
  rewrite Hx. simpl.
  match goal with |- context [<[index := ?u]> _] => exists u end.
  split; [|split; [reflexivity|]].
  - apply find_insert_found; [exact Hindex|]. simpl. apply Z.eqb_refl.
  - intros id' Hne. apply Z.eqb_eq in Hfx.
    apply (find_insert_other _ _ _ existing); [exact Hx| |]; simpl;
      apply Z.eqb_neq; congruence.
Qed.

Lemma FileStorage_perform_persist (this : FileStorage.t) (c : call) :
  FileStorage_invariant this ->
  (forall id response, getFeedbackResponse this id = Some response ->
     getFeedbackResponse (fst (perform this c)) id = Some response)
  /\ (forall id config, getFactConfiguration this id = Some config ->
        exists config', getFactConfiguration (fst (perform this c)) id = Some config'
                        /\ StoredConfiguration.id config' = StoredConfiguration.id config)
  /\ (length (getAllFeedbackResponses this)
      <= length (getAllFeedbackResponses (fst (perform this c))))%nat.
Proof.
  intros Hinv. destruct c as [config|id0 partial|response].
  - destruct (FileStorage_create_configuration this Hinv config)
      as [_ [_ [_ [Hother Hall]]]].
    simpl in *. repeat split; [auto| |rewrite Hall; lia].
    intros id c Hget. exists c. split; [|reflexivity].
    rewrite Hother; [exact Hget|].
    destruct Hinv as [[_ Hbelow] _].
    unfold FileStorage.getFactConfiguration, FileStorage.readConfigurations in Hget.
    pose proof (FileStorage_find_id _ _ _ Hget) as Hid.
    apply find_some in Hget as [Hin _]. rewrite List.Forall_forall in Hbelow.
    specialize (Hbelow _ (in_map StoredConfiguration.id _ _ Hin)). unfold FileStorage.readConfigurations, FileStorage.readResponses in *.
    simpl in *. lia.
  - assert (Hresponses : FileStorage.responsesFile
                           (fst (FileStorage.updateFactConfiguration this id0 partial))
                         = FileStorage.responsesFile this).
    { unfold FileStorage.updateFactConfiguration.
      destruct (FileStorage.findIndex _ _); [|reflexivity].
      destruct (_ !! _); reflexivity. }
    assert (Hconfigs : forall id c,
              FileStorage.getFactConfiguration this id = Some c ->
              exists c',
                FileStorage.getFactConfiguration
                  (fst (FileStorage.updateFactConfiguration this id0 partial)) id = Some c'
                /\ StoredConfiguration.id c' = StoredConfiguration.id c).
    { intros id c Hget.
      destruct (FileStorage.getFactConfiguration this id0) as [existing|] eqn:Hex.
      - destruct (FileStorage_update_in_place_step this id0 partial existing Hex)
          as [updated [Hstored [Hid Hother]]].
        destruct (decide (id = id0)) as [->|Hne].
        + exists updated. split; [exact Hstored|].
          unfold FileStorage.getFactConfiguration in Hget.
          rewrite (FileStorage_find_id _ _ _ Hget). exact Hid.
        + exists c. split; [|reflexivity].
          rewrite <- Hget. apply Hother. exact Hne.
      - unfold FileStorage.getFactConfiguration in Hex.
        unfold FileStorage.updateFactConfiguration.
        apply findIndex_None in Hex. unfold FileStorage.readConfigurations in *.
        rewrite Hex. simpl. eauto. }
    simpl.
    destruct (FileStorage.updateFactConfiguration this id0 partial) as [this' r].
    simpl in *. split; [|split].
    + intros id response Hget.
      unfold FileStorage.getFeedbackResponse, FileStorage.readResponses in *.
      rewrite Hresponses. exact Hget.
    + exact Hconfigs.
    + apply Nat.eq_le_incl.
      unfold FileStorage.getAllFeedbackResponses, FileStorage.readResponses.
      rewrite Hresponses. reflexivity.
  - destruct (FileStorage_create_response this Hinv response)
      as [_ [_ [Hother [Hlen [_ [Hconfigs _]]]]]].
    simpl in *. repeat split; [| |rewrite Hlen; lia].
    + intros id r Hget. rewrite Hother; [exact Hget|].
      destruct Hinv as [_ [_ Hbelow]].
      unfold FileStorage.getFeedbackResponse, FileStorage.readResponses in Hget.
      apply find_some in Hget as [Hin Heq]. apply Z.eqb_eq in Heq.
      rewrite List.Forall_forall in Hbelow.
      specialize (Hbelow _ (in_map FeedbackResponse.id _ _ Hin)). unfold FileStorage.readConfigurations, FileStorage.readResponses in *.
    simpl in *. lia.
    + intros id c Hget. exists c. rewrite Hconfigs. auto.
Qed.

(** X6: from a state reached from the empty store, no sequence of calls
    removes or changes a stored response, no sequence removes a configuration
    or changes its identifier, and the list of responses never gets shorter.
    For the in-memory and the file-backed store. *)
Theorem stored_records_persist :
  (forall this : MemStorage.t, reachable MemStorage.empty this -> records_persist this)
  /\ (forall this : FileStorage.t, reachable FileStorage.empty this -> records_persist this).
Proof.
  split; intros this Hreach.
  - apply (run_persist MemStorage_invariant).
    + apply MemStorage_invariant_perform.
    + apply MemStorage_perform_persist.
    + apply MemStorage_invariant_reachable, Hreach.
  - apply (run_persist FileStorage_invariant).
    + apply FileStorage_invariant_perform.
    + apply FileStorage_perform_persist.
    + apply FileStorage_invariant_reachable, Hreach.
Qed.

Lemma stored_records_persist_witness :
  records_persist MemStorage.new /\ records_persist FileStorage.new.
Proof.
  destruct stored_records_persist as [Hmem Hfile]. split.
  - apply Hmem. exists [CreateFactConfiguration defaultConfiguration]. reflexivity.
  - apply Hfile. exists [CreateFactConfiguration defaultConfiguration]. reflexivity.
Defined.

(** ** The handler on a store *)

Lemma falsy_Some (s : jsstring) : falsy (Some s) = false <-> s <> [].
Proof. simpl. destruct s; simpl; split; congruence. Qed.

(** What the handler reads of a configuration with its three groups, and
    the configurations it reads without error. *)
Lemma readConfiguration_stored (config : FactConfiguration.t) :
  readConfiguration (stored config) = inr config.
Proof. destruct config. reflexivity. Qed.

Lemma readConfiguration_inr (found : StoredConfiguration.t) (config : FactConfiguration.t) :
  readConfiguration found = inr config -> found = stored config.
Proof.
  destruct found as [id [restaurantFacts|] [customerFacts|] [systemFacts|]];
    cbn; try discriminate.
  intros [= <-]. reflexivity.
Qed.

(** What [prepare] answers with comes from the request and the store. *)
Lemma prepare_chosen {S} `{IStorage S} (storage : S) (body : RequestBody.t)
    (feedbackText : BodyValue) (config : FactConfiguration.t) (prompt : jsstring) :
  prepare storage body = inr (feedbackText, config, prompt) ->
  (RequestBody.feedbackText body = feedbackText /\ BodyValue_falsy feedbackText = false)
  /\ (exists text,
        BodyValue_ToString feedbackText = Some text
        /\ prompt = appendLengthGuidance (render config text)
                      (SystemFacts.responseLength (FactConfiguration.systemFacts config)))
  /\ (getLatestFactConfiguration storage = Some (stored config)
      \/ exists configurationId,
           configurationId <> 0
           /\ RequestBody.configurationId body = Some configurationId
           /\ getFactConfiguration storage configurationId = Some (stored config)).
Proof.
  unfold prepare. cbv zeta.
  destruct (BodyValue_falsy (RequestBody.feedbackText body)) eqn:Hfalsy; [discriminate|].
  assert (Hread : forall found,
            match readConfiguration found with
            | inl property =>
              inl (Failure 500 (lit "Failed to generate AI response")
                           (TypeError_reading property))
            | inr config0 =>
              match BodyValue_ToString (RequestBody.feedbackText body) with
              | Some text =>
                inr (RequestBody.feedbackText body, config0,
                     appendLengthGuidance (render config0 text)
                       (SystemFacts.responseLength (FactConfiguration.systemFacts config0)))
              | None =>
                inl (Failure 500 (lit "Failed to generate AI response")
                             (lit "Cannot convert object to primitive value"))
              end
            end = inr (feedbackText, config, prompt) ->
            found = stored config
            /\ RequestBody.feedbackText body = feedbackText
            /\ exists text,
                 BodyValue_ToString feedbackText = Some text
                 /\ prompt = appendLengthGuidance (render config text)
                               (SystemFacts.responseLength
                                  (FactConfiguration.systemFacts config))).
  { intros found. destruct (readConfiguration found) as [property|config0] eqn:Hfound;
      [discriminate|].
    destruct (BodyValue_ToString (RequestBody.feedbackText body)) as [text|] eqn:Htext;
      [|discriminate].
    intros [= <- <- <-]. split; [apply readConfiguration_inr, Hfound|].
    split; [reflexivity|]. exists text. auto. }
  destruct (RequestBody.configurationId body) as [configurationId|].
  - destruct (Z.eqb_spec configurationId 0) as [->|Hne].
    + destruct (getLatestFactConfiguration storage) as [found|]; [|discriminate].
      intros [-> [<- Hprompt]]%Hread. auto.
    + destruct (getFactConfiguration storage configurationId) as [found|] eqn:Hget;
        [|discriminate].
      intros [-> [<- Hprompt]]%Hread. repeat split; [exact Hfalsy|exact Hprompt|].
      right. exists configurationId. auto.
  - destruct (getLatestFactConfiguration storage) as [found|]; [|discriminate].
    intros [-> [<- Hprompt]]%Hread. auto.
Qed.

(** The answers of [prepare] that are no prompt: their status is 400, 404 or
    500. *)
Lemma prepare_inl {S} `{IStorage S} (storage : S) (body : RequestBody.t) (reply : Reply) :
  prepare storage body = inl reply ->
  In (status reply) [400; 404; 500].
Proof.
  unfold prepare. cbv zeta.
  destruct (BodyValue_falsy _); [intros [= <-]; simpl; tauto|].
  match goal with
  | |- match ?chosen with _ => _ end = _ -> _ => destruct chosen as [found|]
  end; [|intros [= <-]; simpl; tauto].
  destruct (readConfiguration found); [intros [= <-]; simpl; tauto|].
  destruct (BodyValue_ToString _); [discriminate|].
  intros [= <-]. simpl. tauto.
Qed.

Section HandlerOnStore.

Context {S : Type} `{IStorage S}.

Variable storage : S.

Hypothesis storage_round_trip : create_response_round_trip storage.

(** The configuration chosen for a request is stored under its identifier,
    and a response created with that identifier keeps it. *)
Hypothesis chosen_stored : forall body feedbackText config prompt,
  prepare storage body = inr (feedbackText, config, prompt) ->
  getFactConfiguration storage (FactConfiguration.id config) = Some (stored config).

Hypothesis chosen_kept : forall body feedbackText config prompt response,
  prepare storage body = inr (feedbackText, config, prompt) ->
  InsertFeedbackResponse.configurationId response = Some (FactConfiguration.id config) ->
  FeedbackResponse.configurationId (snd (createFeedbackResponse storage response))
  = Some (FactConfiguration.id config).


End HandlerOnStore.

Section HandlerCounts.

Context {S : Type} `{IStorage S}.

Variable storage : S.

Hypothesis storage_round_trip : create_response_round_trip storage.

Lemma one_response_per_success_on : one_response_per_success storage.
Proof.
  intros openai key body result before after.
  unfold after, before, result, generateResponse, complete, configured.
  destruct (prepare storage body) as [reply|[[fb config] prompt]] eqn:Hprepare.
  { pose proof (prepare_inl _ _ _ Hprepare) as Hstatus. cbn [fst snd].
    split; [simpl in *; tauto|].
    split; [intros H200; rewrite H200 in Hstatus; simpl in Hstatus;
            repeat destruct Hstatus as [Hstatus|Hstatus]; try discriminate; tauto|].
    split.
    { intros _. destruct (Z.eqb_spec (status reply) 200) as [H200|_]; [|lia].
      rewrite H200 in Hstatus; simpl in Hstatus.
      repeat destruct Hstatus as [Hstatus|Hstatus]; try discriminate; tauto. }
    intros truthy text _. split; [left; reflexivity|].
    split; [|intros Hlen; lia].
    split; [intros Hlen; lia|]. intros [config [prompt [ai [Hinr _]]]]. discriminate Hinr. }
  pose proof (prepare_chosen _ _ _ _ _ Hprepare) as [[Hfb Htruthy] _].
  rewrite Hfb.
  destruct (falsy key || _) eqn:Hkey.
  { cbn [fst snd status]. split; [simpl; tauto|]. split; [discriminate|].
    split; [intros _; simpl; lia|].
    intros truthy text _. split; [left; reflexivity|].
    split; [|intros Hlen; lia].
    split; [intros Hlen; lia|]. intros [config' [prompt' [ai [_ [Hconfigured _]]]]].
    discriminate Hconfigured. }
  destruct (openai (chatRequest config prompt)) as [message|content] eqn:Hopenai.
  { cbn [fst snd status]. split; [simpl; tauto|]. split; [discriminate|].
    split; [intros _; simpl; lia|].
    intros truthy text _. split; [left; reflexivity|].
    split; [|intros Hlen; lia].
    split; [intros Hlen; lia|]. intros [config' [prompt' [ai [[= <- <-] [_ [Hcontent _]]]]]].
    congruence. }
  destruct (falsy content) eqn:Hcontent.
  { cbn [fst snd status]. split; [simpl; tauto|]. split; [discriminate|].
    split; [intros _; simpl; lia|].
    intros truthy text _. split; [left; reflexivity|].
    split; [|intros Hlen; lia].
    split; [intros Hlen; lia|]. intros [config' [prompt' [ai [[= <- <-] [_ [Hai Hne]]]]]].
    rewrite Hopenai in Hai. injection Hai as ->. apply falsy_Some in Hne. congruence. }
  match goal with |- context [createFeedbackResponse storage ?r] =>
    destruct (storage_round_trip r) as [_ [_ [_ [Hlen _]]]];
    destruct (createFeedbackResponse storage r) as [storage' saved]
  end.
  cbn [fst snd] in Hlen.
  destruct fb as [|text|truthy text]; cbn [fst snd status].
  - discriminate Htruthy.
  - split; [simpl; tauto|]. split; [eauto|]. split; [intros _; simpl; lia|].
    intros truthy text' [=].
  - split; [simpl; tauto|]. split; [discriminate|]. split.
    { intros [[text' [=]]|Hfalsy]. congruence. }
    intros truthy' text' _. split; [right; exact Hlen|].
    split; [|reflexivity].
    split; [|intros _; exact Hlen]. intros _.
    destruct content as [ai|]; [|discriminate Hcontent].
    exists config, prompt, ai. repeat split; try assumption.
    intros ->. discriminate Hcontent.
Qed.

Lemma generated_response_found_on : generated_response_found storage.
Proof.
  intros openai key body storage' saved count tone.
  unfold generateResponse, complete.
  destruct (prepare storage body) as [reply|[[fb config] prompt]] eqn:Hprepare.
  { pose proof (prepare_inl _ _ _ Hprepare) as Hstatus. intros [= _ ->].
    simpl in Hstatus. repeat destruct Hstatus as [Hstatus|Hstatus]; try discriminate.
    contradiction. }
  destruct (falsy key || _); [discriminate|].
  destruct (openai _) as [message|content]; [discriminate|].
  destruct (falsy content); [discriminate|].
  match goal with |- context [createFeedbackResponse storage ?r] =>
    destruct (storage_round_trip r) as [_ [Hget _]];
    destruct (createFeedbackResponse storage r) as [storage1 saved1]
  end.
  simpl in Hget. destruct fb as [|text|truthy text]; try discriminate.
  intros [= <- <- _ _].
  unfold saveResponseRoute, emailResponseRoute, lookupResponse, responseId_text.
  rewrite Hget. split; reflexivity.
Qed.

End HandlerCounts.


Lemma FileStorage_positive_perform (this : FileStorage.t) (c : call) :
  FileStorage_positive this -> FileStorage_positive (fst (perform this c)).
Proof.
  intros [Hids Hnext].
  destruct c as [config|id config|response]; simpl;
    unfold FileStorage.readConfigurations, FileStorage.readResponses.
  - split; simpl; [|lia]. rewrite map_app. apply Forall_app. split; [exact Hids|].
    repeat constructor. exact Hnext.
  - unfold FileStorage.updateFactConfiguration, FileStorage.readConfigurations.
    destruct (FileStorage.findIndex _ _) as [index|] eqn:Hi; simpl;
      [|split; assumption].
    apply findIndex_Some in Hi as [x [Hx [Hfx _]]]. rewrite Hx. simpl.
    apply Z.eqb_eq in Hfx.
    unfold FileStorage_positive. simpl.
    rewrite (insert_same_id _ _ x) by (simpl; auto).
    split; assumption.
  - split; assumption.
Qed.

Lemma FileStorage_positive_reachable (this : FileStorage.t) :
  reachable FileStorage.empty this -> FileStorage_positive this.
Proof.
  apply reachable_ind.
  - split; simpl; [constructor|lia].
  - intros storage c. apply FileStorage_positive_perform.
Qed.

Lemma FileStorage_chosen (this : FileStorage.t) body feedbackText config prompt :
  FileStorage_invariant this -> FileStorage_positive this ->
  prepare this body = inr (feedbackText, config, prompt) ->
  getFactConfiguration this (FactConfiguration.id config) = Some (stored config)
  /\ FactConfiguration.id config <> 0.
Proof.
  intros Hinv [Hpositive _] [_ [_ [Hlatest|[configurationId [Hne [_ Hget]]]]]]%prepare_chosen.
  - destruct (FileStorage_latest this Hinv) as [_ Hhighest].
    destruct (Hhighest _ Hlatest) as [Hget _]. split; [exact Hget|].
    simpl in Hget. unfold FileStorage.getFactConfiguration in Hget.
    apply find_some in Hget as [Hin _].
    rewrite Forall_forall in Hpositive.
    specialize (Hpositive (FactConfiguration.id config)).
    unfold FileStorage.readConfigurations in Hin.
    assert (1 <= FactConfiguration.id config); [|lia].
    apply Hpositive, list_elem_of_In.
    exact (in_map StoredConfiguration.id _ _ Hin).
  - pose proof Hget as Hid. simpl in Hid. unfold FileStorage.getFactConfiguration in Hid.
    apply FileStorage_find_id in Hid. simpl in Hid. rewrite Hid. split; assumption.
Qed.



Lemma posted_configuration_used_on {S} `{IStorage S} (storage : S) :
  create_configuration_round_trip storage -> posted_configuration_used storage.
Proof.
  intros Hrt validatedData result.
  destruct (Hrt validatedData) as [[Hr [Hc Hs]] [_ [Hlatest _]]].
  unfold result, postFactConfigurationRoute, getFactConfigurationRoute.
  destruct (createFactConfiguration storage validatedData) as [storage' config].
  simpl in *. exists config. rewrite Hlatest. repeat split; try assumption.
  intros [|c text] Hne; [congruence|]. unfold prepare. simpl.
  rewrite Hlatest, readConfiguration_stored. reflexivity.
Qed.



(** X8: in a state reached from the empty store, whatever the request, the
    key and the service, the status of the answer of the handler is 200, 400,
    404 or 500, and it is 200 only for a feedback text that is a string.  For
    a feedback text that is a string, or that is not truthy, the store lists
    one response more when the status is 200 and as many as before otherwise.
    For a feedback text that is not a string (a number, [true], an array, an
    object) the store lists one response more exactly when the service is
    asked and answers a text, although the answer is then the status 500 of
    the [catch] clause: the response is saved before the sentiment is
    computed.  For the in-memory and the file-backed store. *)
Theorem generateResponse_one_response_per_success :
  (forall this : MemStorage.t,
     reachable MemStorage.empty this -> one_response_per_success this)
  /\ (forall this : FileStorage.t,
        reachable FileStorage.empty this -> one_response_per_success this).
Proof.
  split; intros this Hreach openai key body.
  - apply one_response_per_success_on.
    apply MemStorage_create_response, MemStorage_invariant_reachable, Hreach.
  - apply one_response_per_success_on.
    apply FileStorage_create_response, FileStorage_invariant_reachable, Hreach.
Qed.

Lemma generateResponse_one_response_per_success_witness :
  one_response_per_success (fst (run MemStorage.empty sampleCalls))
  /\ one_response_per_success (fst (run FileStorage.empty sampleCalls)).
Proof.
  destruct generateResponse_one_response_per_success as [Hmem Hfile]. split.
  - apply Hmem. exists sampleCalls. reflexivity.
  - apply Hfile. exists sampleCalls. reflexivity.
Defined.

(** X9: in a state reached from the empty store, when the handler answers a
    generated response, the route that saves a response finds it by its
    identifier and answers the file name [response_<id>.txt], and the route
    that sends a response finds it too.  For the in-memory and the
    file-backed store. *)
Theorem generateResponse_then_save_and_email :
  (forall this : MemStorage.t,
     reachable MemStorage.empty this -> generated_response_found this)
  /\ (forall this : FileStorage.t,
        reachable FileStorage.empty this -> generated_response_found this).
Proof.
  split; intros this Hreach openai key body storage' saved count tone Hreply.
  - eapply generated_response_found_on; [|exact Hreply].
    apply MemStorage_create_response, MemStorage_invariant_reachable, Hreach.
  - eapply generated_response_found_on; [|exact Hreply].
    apply FileStorage_create_response, FileStorage_invariant_reachable, Hreach.
Qed.

Lemma generateResponse_then_save_and_email_witness :
  saveResponseRoute
    (fst (generateResponse sampleCompletion sampleKey FileStorage.new sampleBody))
    (Some 1)
  = ResponseSaved (lit "Response saved successfully") (lit "response_1.txt").
Proof.
  destruct generateResponse_then_save_and_email as [_ Hfile].
  exact (proj1 (Hfile FileStorage.new FileStorage_new_reachable sampleCompletion
                  sampleKey sampleBody _ _ _ _ eq_refl)).
Defined.

(** X10: in a state reached from the empty store, a configuration posted to
    [/api/fact-configuration] is answered with the facts given; it is then the
    configuration [GET /api/fact-configuration] answers, and the one the
    handler renders the prompt from for a request without configuration
    identifier.  For the in-memory and the file-backed store. *)
Theorem postFactConfiguration_then_used :
  (forall this : MemStorage.t,
     reachable MemStorage.empty this -> posted_configuration_used this)
  /\ (forall this : FileStorage.t,
        reachable FileStorage.empty this -> posted_configuration_used this).
Proof.
  split; intros this Hreach.
  - apply posted_configuration_used_on, MemStorage_create_configuration,
      MemStorage_invariant_reachable, Hreach.
  - apply posted_configuration_used_on, FileStorage_create_configuration,
      FileStorage_invariant_reachable, Hreach.
Qed.

Lemma postFactConfiguration_then_used_witness :
  posted_configuration_used (fst (run MemStorage.empty sampleCalls))
  /\ posted_configuration_used (fst (run FileStorage.empty sampleCalls)).
Proof.
  destruct postFactConfiguration_then_used as [Hmem Hfile]. split.
  - apply Hmem. exists sampleCalls. reflexivity.
  - apply Hfile. exists sampleCalls. reflexivity.
Defined.

(** Past the choice of the configuration no answer is 404. *)
Lemma generateResponse_past_choice {S} `{IStorage S} (storage : S)
    (openai : ChatRequest.t -> Completion) (key : option jsstring)
    (prepared : Reply + (BodyValue * FactConfiguration.t * jsstring)) :
  (forall reply, prepared = inl reply -> status reply <> 404) ->
  status (snd (match prepared with
               | inl reply => (storage, reply)
               | inr (feedbackText, config, prompt) =>
                 if falsy key
                    || String_eqb (default [] key) (lit "dummy_key_for_development")
                 then (storage,
                       Failure 500
                         (lit "OpenAI API key not configured. Please set the OPENAI_API_KEY environment variable.")
                         (lit "Missing API key"))
                 else complete openai storage feedbackText config prompt
               end))
  <> 404.
Proof.
  destruct prepared as [reply|[[fb config] prompt]]; [intros Hreply; exact (Hreply _ eq_refl)|].
  intros _. unfold complete.
  destruct (falsy key || _); [simpl; lia|].
  destruct (openai _) as [message|content]; [simpl; lia|].
  destruct (falsy content); [simpl; lia|].
  destruct (createFeedbackResponse storage _). destruct fb; simpl; lia.
Qed.

Lemma not_found_is_unknown_identifier_on {S} `{IStorage S} (storage : S) :
  getLatestFactConfiguration storage <> None ->
  not_found_is_unknown_identifier storage.
Proof.
  intros Hlatest openai key body. unfold generateResponse, prepare.
  destruct (BodyValue_falsy (RequestBody.feedbackText body)).
  { simpl. split; [discriminate|]. intros [Hfalse _]. discriminate. }
  cbv zeta.
  assert (Hstatus : forall found reply,
            match readConfiguration found with
            | inl property =>
              inl (Failure 500 (lit "Failed to generate AI response")
                           (TypeError_reading property))
            | inr config =>
              match BodyValue_ToString (RequestBody.feedbackText body) with
              | Some text =>
                inr (RequestBody.feedbackText body, config,
                     appendLengthGuidance (render config text)
                       (SystemFacts.responseLength (FactConfiguration.systemFacts config)))
              | None =>
                inl (Failure 500 (lit "Failed to generate AI response")
                             (lit "Cannot convert object to primitive value"))
              end
            end = inl reply -> status reply <> 404).
  { intros found reply. destruct (readConfiguration found); [intros [= <-]; simpl; lia|].
    destruct (BodyValue_ToString _); [discriminate|]. intros [= <-]. simpl. lia. }
  destruct (RequestBody.configurationId body) as [configurationId|].
  - destruct (Z.eqb_spec configurationId 0) as [->|Hne].
    + destruct (getLatestFactConfiguration storage) as [found|]; [|congruence].
      split.
      * intros H404. exfalso. revert H404.
        apply generateResponse_past_choice, Hstatus.
      * intros [_ [configurationId [[= <-] [Hne _]]]]. congruence.
    + destruct (getFactConfiguration storage configurationId) as [found|] eqn:Hget.
      * split.
        -- intros H404. exfalso. revert H404.
           apply generateResponse_past_choice, Hstatus.
        -- intros [_ [configurationId' [[= <-] [_ Hnone]]]]. congruence.
      * simpl. split; [|reflexivity]. intros _. split; [reflexivity|].
        exists configurationId. auto.
  - destruct (getLatestFactConfiguration storage) as [found|]; [|congruence].
    split.
    + intros H404. exfalso. revert H404.
      apply generateResponse_past_choice, Hstatus.
    + intros [_ [configurationId [[=] _]]].
Qed.

(** A store reached from the one the program starts with has a latest
    configuration. *)
Lemma MemStorage_started (this : MemStorage.t) :
  reachable MemStorage.new this ->
  MemStorage_invariant this /\ getLatestFactConfiguration this <> None.
Proof.
  intros [calls <-].
  assert (Hnew : MemStorage_invariant MemStorage.new).
  { apply MemStorage_invariant_reachable, MemStorage_new_reachable. }
  assert (Hinv : MemStorage_invariant (fst (run MemStorage.new calls))).
  { apply (reachable_ind MemStorage_invariant MemStorage.new Hnew).
    - intros storage c. apply MemStorage_invariant_perform.
    - exists calls. reflexivity. }
  split; [exact Hinv|]. intros Hnone.
  destruct (run_persist MemStorage_invariant MemStorage_invariant_perform
              MemStorage_perform_persist MemStorage.new Hnew calls) as [_ [Hconfigs _]].
  edestruct (Hconfigs 1) as [config [Hget _]]; [vm_compute; reflexivity|].
  destruct (MemStorage_latest _ Hinv) as [[Hempty _] _].
  rewrite (Hempty Hnone 1) in Hget. discriminate.
Qed.

Lemma FileStorage_started (this : FileStorage.t) :
  reachable FileStorage.new this ->
  FileStorage_invariant this /\ getLatestFactConfiguration this <> None.
Proof.
  intros [calls <-].
  assert (Hnew : FileStorage_invariant FileStorage.new).
  { apply FileStorage_invariant_reachable, FileStorage_new_reachable. }
  assert (Hinv : FileStorage_invariant (fst (run FileStorage.new calls))).
  { apply (reachable_ind FileStorage_invariant FileStorage.new Hnew).
    - intros storage c. apply FileStorage_invariant_perform.
    - exists calls. reflexivity. }
  split; [exact Hinv|]. intros Hnone.
  destruct (run_persist FileStorage_invariant FileStorage_invariant_perform
              FileStorage_perform_persist FileStorage.new Hnew calls) as [_ [Hconfigs _]].
  edestruct (Hconfigs 1) as [config [Hget _]]; [vm_compute; reflexivity|].
  destruct (FileStorage_latest _ Hinv) as [[Hempty _] _].
  rewrite (Hempty Hnone 1) in Hget. discriminate.
Qed.

(** X11: in a state reached from the store the program starts with, which
    has the default configuration, the answer of the handler is 404 exactly
    for a request with a feedback text and a configuration identifier, other
    than 0, that the store does not have: a request without identifier, or
    with the identifier 0, is never answered 404, and an unknown identifier is
    never replaced by the latest configuration.  For the in-memory and the
    file-backed store. *)
Theorem generateResponse_not_found :
  (forall this : MemStorage.t,
     reachable MemStorage.new this -> not_found_is_unknown_identifier this)
  /\ (forall this : FileStorage.t,
        reachable FileStorage.new this -> not_found_is_unknown_identifier this).
Proof.
  split; intros this Hreach.
  - apply not_found_is_unknown_identifier_on.
    destruct (MemStorage_started this Hreach) as [_ Hlatest]. exact Hlatest.
  - apply not_found_is_unknown_identifier_on.
    destruct (FileStorage_started this Hreach) as [_ Hlatest]. exact Hlatest.
Qed.

Lemma generateResponse_not_found_witness :
  status (snd (generateResponse sampleCompletion sampleKey
                 (fst (run MemStorage.new sampleCalls))
                 {| RequestBody.feedbackText := StringValue (lit "Great food!");
                    RequestBody.configurationId := Some 9 |})) = 404
  /\ status (snd (generateResponse sampleCompletion sampleKey
                    (fst (run FileStorage.new sampleCalls))
                    {| RequestBody.feedbackText := StringValue (lit "Great food!");
                       RequestBody.configurationId := Some 9 |})) = 404.
Proof.
  destruct generateResponse_not_found as [Hmem Hfile]. split.
  - apply (Hmem _ (ex_intro _ sampleCalls eq_refl)).
    split; [reflexivity|]. exists 9. split; [reflexivity|]. split; [lia|].
    vm_compute. reflexivity.
  - apply (Hfile _ (ex_intro _ sampleCalls eq_refl)).
    split; [reflexivity|]. exists 9. split; [reflexivity|]. split; [lia|].
    vm_compute. reflexivity.
Defined.

(** ** The request of the client *)

Lemma trimStart_blank (str : jsstring) : trimStart str = [] <-> blank str.
Proof.
  unfold blank. induction str as [|c str IH]; simpl.
  - split; [constructor|reflexivity].
  - destruct (is_space c) eqn:Hc.
    + rewrite IH. split; [intros Hs; constructor; assumption|].
      intros Hs. apply Forall_cons_1 in Hs. tauto.
    + split; [discriminate|]. intros Hs. apply Forall_cons_1 in Hs.
      destruct Hs. congruence.
Qed.

Lemma trimStart_split (str : jsstring) :
  exists before, str = before ++ trimStart str /\ blank before.
Proof.
  induction str as [|c str [before [Hstr Hbefore]]]; simpl.
  - exists []. split; [reflexivity|constructor].
  - destruct (is_space c) eqn:Hc.
    + exists (c :: before). split; [simpl; congruence|]. constructor; assumption.
    + exists []. split; [reflexivity|constructor].
Qed.

Lemma trimStart_head (str : jsstring) (c : N) (rest : jsstring) :
  trimStart str = c :: rest -> is_space c = false.
Proof.
  induction str as [|x str IH]; simpl; [discriminate|].
  destruct (is_space x) eqn:Hx; [exact IH|]. intros [= <- _]. exact Hx.
Qed.

Lemma trimEnd_split (str : jsstring) :
  exists after, str = trimEnd str ++ after /\ blank after.
Proof.
  destruct (trimStart_split (rev str)) as [before [Hstr Hbefore]].
  exists (rev before). split.
  - unfold trimEnd. rewrite <- rev_app_distr, <- Hstr, rev_involutive. reflexivity.
  - apply Forall_rev. exact Hbefore.
Qed.

Lemma trimEnd_last (str : jsstring) (c : N) (rest : jsstring) :
  trimEnd str = c :: rest ->
  exists front last, trimEnd str = front ++ [last] /\ is_space last = false.
Proof.
  unfold trimEnd. destruct (trimStart (rev str)) as [|x tail] eqn:Htrim.
  - discriminate.
  - intros _. exists (rev tail), x. split; [reflexivity|].
    exact (trimStart_head _ _ _ Htrim).
Qed.

Lemma blank_rev (str : jsstring) : blank (rev str) <-> blank str.
Proof.
  split; intros Hs; [|apply Forall_rev; exact Hs].
  rewrite <- (rev_involutive str). apply Forall_rev. exact Hs.
Qed.

Lemma trim_blank (str : jsstring) : trim str = [] <-> blank str.
Proof.
  unfold trim, trimEnd. split.
  - intros Hs. apply (f_equal (@rev N)) in Hs. rewrite rev_involutive in Hs.
    simpl in Hs. apply (proj1 (trimStart_blank _)) in Hs.
    apply (proj1 (blank_rev _)) in Hs.
    destruct (trimStart str) as [|c rest] eqn:Htrim.
    + apply trimStart_blank. exact Htrim.
    + apply trimStart_head in Htrim. apply Forall_cons_1 in Hs.
      destruct Hs. congruence.
  - intros Hs. apply trimStart_blank in Hs. rewrite Hs. reflexivity.
Qed.

Lemma trim_split (str : jsstring) :
  exists before after, str = before ++ trim str ++ after /\ blank before /\ blank after.
Proof.
  destruct (trimStart_split str) as [before [Hstr Hbefore]].
  destruct (trimEnd_split (trimStart str)) as [after [Htrim Hafter]].
  exists before, after. unfold trim. rewrite <- Htrim. auto.
Qed.

Lemma trim_ends (str : jsstring) (c : N) (rest : jsstring) :
  trim str = c :: rest ->
  is_space c = false
  /\ exists front last, trim str = front ++ [last] /\ is_space last = false.
Proof.
  intros Htrim. split; [|exact (trimEnd_last _ _ _ Htrim)].
  destruct (trimEnd_split (trimStart str)) as [after [Hsplit _]].
  unfold trim in Htrim. rewrite Htrim in Hsplit.
  exact (trimStart_head _ _ _ Hsplit).
Qed.

Lemma lower_space (c : N) : is_space c = true -> lower c = c.
Proof.
  unfold is_space, lower. intros Hc.
  destruct (N.leb_spec 65 c) as [Hlow|]; [|reflexivity].
  destruct (N.leb_spec c 90) as [Hhigh|]; [|reflexivity]. exfalso.
  rewrite !orb_true_iff, !andb_true_iff, !N.leb_le, !N.eqb_eq in Hc. lia.
Qed.

Lemma toLowerCase_blank (str : jsstring) : blank str -> toLowerCase str = str.
Proof.
  unfold toLowerCase. induction 1 as [|c str Hc _ IH]; simpl; [reflexivity|].
  rewrite lower_space, IH by exact Hc. reflexivity.
Qed.

Lemma startsWith_space (keyword : jsstring) (c : N) (s : jsstring) :
  spaceless keyword = true -> is_space c = true -> startsWith keyword (c :: s) = false.
Proof.
  destruct keyword as [|k keyword]; [discriminate|].
  unfold spaceless. cbn [nonempty forallb andb startsWith].
  intros [Hk _]%andb_true_iff Hc.
  destruct (N.eqb_spec k c) as [->|]; [|reflexivity].
  rewrite Hc in Hk. discriminate.
Qed.

Lemma startsWith_snoc_space (keyword : jsstring) (c : N) (s : jsstring) :
  forallb (fun k => negb (is_space k)) keyword = true -> is_space c = true ->
  startsWith keyword (s ++ [c]) = startsWith keyword s.
Proof.
  intros Hkeyword Hc. revert s.
  induction keyword as [|k keyword IH]; intros s; [reflexivity|].
  cbn [forallb] in Hkeyword. apply andb_true_iff in Hkeyword as [Hk Hkeyword].
  destruct s as [|x s]; cbn [app startsWith].
  - destruct (N.eqb_spec k c) as [->|]; [|reflexivity].
    rewrite Hc in Hk. discriminate.
  - rewrite IH by exact Hkeyword. reflexivity.
Qed.

Lemma includes_blank (keyword before s after : jsstring) :
  spaceless keyword = true -> blank before -> blank after ->
  includes (before ++ s ++ after) keyword = includes s keyword.
Proof.
  intros Hkeyword Hbefore Hafter.
  induction Hbefore as [|c before Hc _ IH].
  - cbn [app]. unfold blank in Hafter. revert Hafter.
    induction after as [|c after IH] using rev_ind; intros Hafter.
    + rewrite app_nil_r. reflexivity.
    + apply Forall_app in Hafter as [Hafter Hc]. apply Forall_cons_1 in Hc as [Hc _].
      rewrite app_assoc. rewrite <- (IH Hafter). clear IH.
      apply andb_true_iff in Hkeyword as [Hnonempty Hkeyword].
      generalize (s ++ after). intros l. induction l as [|x l IH].
      * pose proof (startsWith_snoc_space keyword c [] Hkeyword Hc) as Hs.
        cbn [app] in Hs. cbn [app includes]. rewrite Hs.
        destruct keyword; [discriminate|]. reflexivity.
      * pose proof (startsWith_snoc_space keyword c (x :: l) Hkeyword Hc) as Hs.
        cbn [app] in Hs. cbn [app includes]. rewrite Hs, IH. reflexivity.
  - cbn [app includes]. rewrite startsWith_space by assumption. exact IH.
Qed.

Lemma sentiment_blank (before s after : jsstring) :
  blank before -> blank after -> sentiment (before ++ s ++ after) = sentiment s.
Proof.
  intros Hbefore Hafter. unfold sentiment.
  rewrite !toLowerCase_app, (toLowerCase_blank before), (toLowerCase_blank after)
    by assumption.
  rewrite !(includes_blank _ before (toLowerCase s) after) by (assumption || reflexivity).
  reflexivity.
Qed.

(** X12: the client sends no request exactly when the feedback field holds
    white space only.  Otherwise it sends the text of the field without the
    white space around it, with the identifier of its configuration: the text
    sent is not empty, starts and ends with a code unit that is not white
    space, and has the sentiment of the text of the field; the handler, on
    any store, with any key and service, does not answer it with 400. *)
Theorem handleGenerateResponse_sends (feedbackText : jsstring)
    (configuration : FactConfiguration.t) :
  (handleGenerateResponse feedbackText configuration = None <-> blank feedbackText)
  /\ forall body,
       handleGenerateResponse feedbackText configuration = Some body ->
       exists before text after,
         feedbackText = before ++ text ++ after /\ blank before /\ blank after
         /\ body = {| RequestBody.feedbackText := StringValue text;
                      RequestBody.configurationId :=
                        Some (FactConfiguration.id configuration) |}
         /\ (exists first rest, text = first :: rest /\ is_space first = false)
         /\ (exists front last, text = front ++ [last] /\ is_space last = false)
         /\ sentiment text = sentiment feedbackText
         /\ forall (S : Type) (H : IStorage S) (storage : S)
                   (openai : ChatRequest.t -> Completion) (openaiApiKey : option jsstring),
              status (snd (generateResponse openai openaiApiKey storage body)) <> 400.
Proof.
  unfold handleGenerateResponse.
  destruct (String_eqb (trim feedbackText) []) eqn:Hempty.
  - apply String_eqb_eq in Hempty. split.
    + split; [intros _; apply trim_blank; exact Hempty|reflexivity].
    + discriminate.
  - apply String_eqb_neq in Hempty. split.
    + split; [discriminate|]. intros Hblank. apply trim_blank in Hblank. contradiction.
    + intros body [= <-].
      destruct (trim_split feedbackText) as [before [after [Hsplit [Hbefore Hafter]]]].
      exists before, (trim feedbackText), after.
      destruct (trim feedbackText) as [|first rest] eqn:Htrim; [contradiction|].
      destruct (trim_ends _ _ _ Htrim) as [Hfirst Hlast]. rewrite Htrim in Hlast.
      repeat split; try assumption.
      * exists first, rest. auto.
      * rewrite Hsplit. symmetry. apply sentiment_blank; assumption.
      * intros S H storage openai key.
        unfold generateResponse, complete, prepare. simpl.
        destruct (if FactConfiguration.id configuration =? 0
                  then getLatestFactConfiguration storage
                  else getFactConfiguration storage (FactConfiguration.id configuration))
          as [found|]; [|simpl; lia].
        destruct (readConfiguration found); [simpl; lia|].
        destruct (falsy key || _); [simpl; lia|].
        destruct (openai _) as [message|content]; [simpl; lia|].
        destruct (falsy content); [simpl; lia|].
        destruct (createFeedbackResponse storage _). simpl. lia.
Qed.

Lemma handleGenerateResponse_sends_witness :
  exists before text after,
    lit "  Great food! " = before ++ text ++ after /\ blank before /\ blank after
    /\ sentiment text = sentiment (lit "  Great food! ").
Proof.
  destruct (proj2 (handleGenerateResponse_sends (lit "  Great food! ")
                     (sampleConfiguration defaultPromptTemplate)) _ eq_refl)
    as [before [text [after [Hsplit [Hbefore [Hafter [_ [_ [_ [Hsentiment _]]]]]]]]]].
  exists before, text, after. auto.
Defined.

(** ** The address of the customer *)

Lemma replaceFirst_space (str : jsstring) (position : nat) (rest : jsstring) :
  (spaces rest = 0%nat ->
   replaceFirst_scan (lit " ") (lit ".") str position rest = rest)
  /\ (forall first after, rest = first ++ lit " " ++ after -> spaces first = 0%nat ->
        replaceFirst_scan (lit " ") (lit ".") str position rest
        = first ++ lit "." ++ after)
  /\ spaces (replaceFirst_scan (lit " ") (lit ".") str position rest)
     = (spaces rest - 1)%nat.
Proof.
  revert position. unfold spaces.
  induction rest as [|c rest IH]; intros position.
  - repeat split; try reflexivity.
    intros [|x first] after Hrest; discriminate.
  - destruct (IH (Datatypes.S position)) as [Hnone [Hfirst Hcount]].
    cbn [replaceFirst_scan startsWith List.filter].
    change (lit " ") with [ch " "] in *. cbn [startsWith].
    rewrite (N.eqb_sym (ch " ") c), andb_true_r.
    destruct (N.eqb_spec c (ch " ")) as [->|Hc].
    + split; [discriminate|]. split.
      * intros [|x first] after; cbn [app List.filter length].
        -- intros [= <-] _. reflexivity.
        -- intros [= <- _]. rewrite N.eqb_refl. discriminate.
      * assert (Hsub : GetSubstitution [ch " "] str position (lit ".") = [ch "."])
          by (vm_compute; reflexivity).
        rewrite Hsub.
        change (drop (length [ch " "]) (ch " " :: rest)) with rest.
        change ([ch "."] ++ rest) with (ch "." :: rest).
        cbn [List.filter]. change (ch "." =? ch " ")%N with false.
        cbn [length]. lia.
    + split; [|split].
      * intros Hrest. rewrite Hnone by exact Hrest. reflexivity.
      * intros [|x first] after; cbn [app List.filter length].
        -- intros [= -> _]. contradiction.
        -- intros [= <- ->]. apply N.eqb_neq in Hc. rewrite Hc. intros Hspaces.
           rewrite (Hfirst first after eq_refl Hspaces). reflexivity.
      * cbn [List.filter]. apply N.eqb_neq in Hc. rewrite Hc. exact Hcount.
Qed.

(** X13: the address the client makes for the customer is the name in lower
    case, with its first space only replaced by a dot, followed by
    [@example.com]: a name without space is kept, and the address of a name
    with two spaces or more still has a space.  [lowerCase] is any function
    for [toLowerCase]. *)
Theorem customerEmail_first_space (lowerCase : jsstring -> jsstring)
    (configuration : FactConfiguration.t) :
  let name :=
    lowerCase (CustomerFacts.name (FactConfiguration.customerFacts configuration)) in
  (spaces name = 0%nat -> customerEmail lowerCase configuration = name ++ lit "@example.com")
  /\ (forall first after, name = first ++ lit " " ++ after -> spaces first = 0%nat ->
        customerEmail lowerCase configuration
        = first ++ lit "." ++ after ++ lit "@example.com")
  /\ spaces (customerEmail lowerCase configuration) = (spaces name - 1)%nat.
Proof.
  intros name. unfold customerEmail, replaceFirst. fold name.
  destruct (replaceFirst_space name 0 name) as [Hnone [Hfirst Hcount]].
  split; [|split].
  - intros Hname. rewrite Hnone by exact Hname. reflexivity.
  - intros first after Hname Hspaces. rewrite (Hfirst first after Hname Hspaces).
    rewrite <- !app_assoc. reflexivity.
  - assert (Hdomain : spaces (lit "@example.com") = 0%nat) by (vm_compute; reflexivity).
    unfold spaces in *. rewrite List.filter_app, length_app, Hcount, Hdomain. lia.
Qed.

Lemma customerEmail_first_space_witness :
  customerEmail toLowerCase (sampleConfigurationFor (lit "Mary Ann Smith") [])
  = lit "mary.ann smith@example.com".
Proof.
  exact (proj1 (proj2 (customerEmail_first_space toLowerCase
                         (sampleConfigurationFor (lit "Mary Ann Smith") [])))
           (lit "mary") (lit "ann smith") eq_refl eq_refl).
Defined.

(** ** Profile files *)







(** ** Facts extracted from a screenshot *)

Lemma upToLast_None (c : N) (str : jsstring) :
  upToLast c str = None <-> lacks c str = true.
Proof.
  induction str as [|x str IH]; [split; reflexivity|].
  rewrite lacks_cons. cbn [upToLast].
  destruct (upToLast c str) as [prefix|].
  - split; [discriminate|]. intros [_ Hstr]. apply IH in Hstr. discriminate.
  - destruct (N.eqb_spec x c).
    + split; [discriminate|]. intros [Hx _]. contradiction.
    + split; [|reflexivity]. intros _. split; [assumption|]. apply IH. reflexivity.
Qed.

Lemma upToLast_Some (c : N) (str prefix : jsstring) :
  upToLast c str = Some prefix
  <-> exists body after,
        str = body ++ [c] ++ after /\ lacks c after = true /\ prefix = body ++ [c].
Proof.
  revert prefix. induction str as [|x str IH]; intros prefix.
  - split; [discriminate|]. intros [[|y body] [after [Hstr _]]]; discriminate.
  - cbn [upToLast]. destruct (upToLast c str) as [inner|] eqn:Hinner.
    + destruct (proj1 (IH inner) eq_refl) as [body [after [-> [Hafter ->]]]]. split.
      * intros [= <-]. exists (x :: body), after. auto.
      * intros [body' [after' [Hstr [Hafter' ->]]]]. f_equal.
        destruct body' as [|y body'].
        -- injection Hstr as -> <-.
           rewrite lacks_app in Hafter'. apply andb_true_iff in Hafter' as [_ Hc].
           apply lacks_cons in Hc as [Hc _]. contradiction.
        -- injection Hstr as -> Hstr.
           assert (Hsome : Some (body ++ [c]) = Some (body' ++ [c])).
           { apply IH. exists body', after'. auto. }
           injection Hsome as Hsome. cbn [app]. congruence.
    + apply upToLast_None in Hinner. destruct (N.eqb_spec x c) as [->|Hx].
      * split.
        -- intros [= <-]. exists [], str. auto.
        -- intros [[|y body] [after [Hstr [_ ->]]]]; [reflexivity|].
           injection Hstr as -> ->.
           rewrite lacks_app in Hinner. apply andb_true_iff in Hinner as [_ Hc].
           apply lacks_cons in Hc as [Hc _]. contradiction.
      * split; [discriminate|].
        intros [[|y body] [after [Hstr _]]].
        -- injection Hstr as -> _. contradiction.
        -- injection Hstr as -> ->.
           rewrite lacks_app in Hinner. apply andb_true_iff in Hinner as [_ Hc].
           apply lacks_cons in Hc as [Hc _]. contradiction.
Qed.

Lemma matchJsonArray_Some (str matched : jsstring) :
  matchJsonArray str = Some matched
  <-> exists before body after,
        str = before ++ lit "[" ++ body ++ lit "]" ++ after
        /\ lacks (ch "[") before = true /\ lacks (ch "]") after = true
        /\ matched = lit "[" ++ body ++ lit "]".
Proof.
  change (lit "[") with [ch "["]. change (lit "]") with [ch "]"].
  revert matched. induction str as [|x str IH]; intros matched.
  - split; [discriminate|]. intros [[|y before] [body [after [Hstr _]]]]; discriminate.
  - cbn [matchJsonArray]. destruct (N.eqb_spec x (ch "[")) as [->|Hx].
    + destruct (upToLast (ch "]") str) as [inner|] eqn:Hinner.
      * apply upToLast_Some in Hinner as [body [after [-> [Hafter ->]]]]. split.
        -- intros [= <-]. exists [], body, after. auto.
        -- intros [[|y before] [body' [after' [Hstr [Hbefore [Hafter' ->]]]]]].
           ++ assert (Hstr' : body ++ [ch "]"] ++ after = body' ++ [ch "]"] ++ after')
                by exact (f_equal (@tail N) Hstr).
              assert (Hsome : Some (body ++ [ch "]"]) = Some (body' ++ [ch "]"])).
              { rewrite <- (proj2 (upToLast_Some (ch "]") (body ++ [ch "]"] ++ after)
                                     (body ++ [ch "]"])))
                  by (exists body, after; auto).
                apply upToLast_Some. exists body', after'. auto. }
              cbn [app]. congruence.
           ++ injection Hstr as <- _. apply lacks_cons in Hbefore as [Hy _].
              contradiction.
      * split; [discriminate|].
        intros [[|y before] [body' [after' [Hstr [Hbefore [Hafter' ->]]]]]].
        -- assert (Hstr' : str = body' ++ [ch "]"] ++ after')
             by exact (f_equal (@tail N) Hstr).
           subst str.
           assert (Hsome : upToLast (ch "]") (body' ++ [ch "]"] ++ after')
                           = Some (body' ++ [ch "]"])).
           { apply upToLast_Some. exists body', after'. auto. }
           congruence.
        -- injection Hstr as <- _. apply lacks_cons in Hbefore as [Hy _].
           contradiction.
    + rewrite IH. split.
      * intros [before [body [after [-> [Hbefore [Hafter ->]]]]]].
        exists (x :: before), body, after. repeat split; try assumption.
        apply lacks_cons. auto.
      * intros [[|y before] [body [after [Hstr [Hbefore [Hafter ->]]]]]].
        -- injection Hstr as -> _. contradiction.
        -- injection Hstr as <- ->. apply lacks_cons in Hbefore as [_ Hbefore].
           exists before, body, after. auto.
Qed.

(** X15: the text the screenshot route gives to [JSON.parse] is the text of
    the answer from its first opening bracket to its last closing bracket,
    whatever is between them.  When the answer has no such text, or when
    [JSON.parse] throws on it, the route answers one fact of category
    [Raw Feedback] and confidence [low] whose value is the first 200 code
    units of the answer, and the client makes the one string
    [Raw Feedback: <value>] of it. *)
Theorem extractFacts_first_to_last_bracket
    (JSON_parse : jsstring -> option (list ExtractedFact.t)) (responseText : jsstring) :
  (forall before body after,
     responseText = before ++ lit "[" ++ body ++ lit "]" ++ after ->
     lacks (ch "[") before = true -> lacks (ch "]") after = true ->
     forall facts, JSON_parse (lit "[" ++ body ++ lit "]") = Some facts ->
       extractFacts JSON_parse responseText = facts)
  /\ ((forall matched, matchJsonArray responseText = Some matched ->
         JSON_parse matched = None) ->
      extractFacts JSON_parse responseText
      = [{| ExtractedFact.category := lit "Raw Feedback";
            ExtractedFact.value := take 200 responseText;
            ExtractedFact.confidence := lit "low" |}]
      /\ factStrings (extractFacts JSON_parse responseText)
         = [lit "Raw Feedback: " ++ take 200 responseText]
      /\ length (take 200 responseText) = Nat.min 200 (length responseText))
  /\ (lacks (ch "[") responseText = true \/ lacks (ch "]") responseText = true ->
      matchJsonArray responseText = None).
Proof.
  split; [|split].
  - intros before body after Hresponse Hbefore Hafter facts Hfacts.
    assert (Hmatch : matchJsonArray responseText = Some (lit "[" ++ body ++ lit "]")).
    { apply matchJsonArray_Some. exists before, body, after. auto. }
    unfold extractFacts. rewrite Hmatch, Hfacts. reflexivity.
  - intros Hthrows.
    assert (Hfallback : extractFacts JSON_parse responseText
      = [{| ExtractedFact.category := lit "Raw Feedback";
            ExtractedFact.value := take 200 responseText;
            ExtractedFact.confidence := lit "low" |}]).
    { unfold extractFacts.
      destruct (matchJsonArray responseText) as [matched|]; [|reflexivity].
      rewrite (Hthrows matched eq_refl). reflexivity. }
    rewrite Hfallback. split; [reflexivity|]. split; [reflexivity|].
    apply length_take.
  - intros Hlacks.
    destruct (matchJsonArray responseText) as [matched|] eqn:Hmatch; [|reflexivity].
    apply matchJsonArray_Some in Hmatch
      as [before [body [after [-> [Hbefore [Hafter _]]]]]].
    change (lit "[") with [ch "["] in Hlacks. change (lit "]") with [ch "]"] in Hlacks.
    rewrite !lacks_app in Hlacks.
    destruct Hlacks as [Hlacks|Hlacks];
      repeat (apply andb_true_iff in Hlacks as [? Hlacks]);
      match goal with
      | H : lacks ?c [?c] = true |- _ => vm_compute in H; discriminate H
      end.
Qed.

Lemma extractFacts_first_to_last_bracket_witness :
  extractFacts (fun text => if String_eqb text (lit "[]") then Some [] else None)
    (lit "Here you go: [] (no facts)") = []
  /\ matchJsonArray (lit "No facts found") = None.
Proof.
  destruct (extractFacts_first_to_last_bracket
              (fun text => if String_eqb text (lit "[]") then Some [] else None)
              (lit "Here you go: [] (no facts)")) as [Hparsed _].
  destruct (extractFacts_first_to_last_bracket (fun _ => None) (lit "No facts found"))
    as [_ [_ Hnone]].
  split.
  - exact (Hparsed (lit "Here you go: ") [] (lit " (no facts)") eq_refl eq_refl eq_refl
             [] eq_refl).
  - apply Hnone. left. reflexivity.
Defined.

(** ** The facts editor *)

Lemma filter_index_all {A} (keep : nat -> bool) (k : nat) (l : list A) :
  (forall i, (k <= i)%nat -> keep i = true) -> filter_index keep k l = l.
Proof.
  revert k. induction l as [|x l IH]; intros k Hkeep; [reflexivity|].
  cbn [filter_index]. rewrite Hkeep by lia. rewrite IH; [reflexivity|].
  intros i Hi. apply Hkeep. lia.
Qed.

(** [filter((_, i) => i !== index)] removes the element of index [index], if
    there is one. *)
Lemma filter_index_delete {A} (k index : nat) (l : list A) :
  filter_index (fun i => negb (i =? k + index)%nat) k l = delete index l.
Proof.
  revert k index. induction l as [|x l IH]; intros k index; [reflexivity|].
  cbn [filter_index]. destruct index as [|index].
  - rewrite Nat.add_0_r, Nat.eqb_refl. cbn [negb].
    change (delete 0%nat (x :: l)) with l.
    apply filter_index_all. intros i Hi.
    apply negb_true_iff, Nat.eqb_neq. lia.
  - destruct (Nat.eqb_spec k (k + Datatypes.S index)) as [Heq|_]; [lia|].
    cbn [negb]. change (delete (Datatypes.S index) (x :: l)) with (x :: delete index l).
    f_equal. rewrite <- (IH (Datatypes.S k) index).
    replace (Datatypes.S k + index)%nat with (k + Datatypes.S index)%nat by lia.
    reflexivity.
Qed.

(** [map((x, i) => i === index ? value : x)] replaces the element of index
    [index], if there is one. *)
Lemma map_index_insert {A} (k index : nat) (value : A) (l : list A) :
  map_index (fun x i => if (i =? k + index)%nat then value else x) k l
  = <[index := value]> l.
Proof.
  revert k index. induction l as [|x l IH]; intros k index; [reflexivity|].
  cbn [map_index]. destruct index as [|index].
  - rewrite Nat.add_0_r, Nat.eqb_refl.
    change (<[0%nat := value]> (x :: l)) with (value :: l). f_equal.
    clear IH. generalize (Nat.lt_succ_diag_r k). generalize (Datatypes.S k).
    induction l as [|y l IH]; intros j Hj; [reflexivity|].
    cbn [map_index]. destruct (Nat.eqb_spec j k); [lia|].
    rewrite IH by lia. reflexivity.
  - destruct (Nat.eqb_spec k (k + Datatypes.S index)) as [Heq|_]; [lia|].
    change (<[Datatypes.S index := value]> (x :: l)) with (x :: <[index := value]> l).
    f_equal. rewrite <- (IH (Datatypes.S k) index).
    replace (Datatypes.S k + index)%nat with (k + Datatypes.S index)%nat by lia.
    reflexivity.
Qed.

Lemma delete_out_of_range {A} (index : nat) (l : list A) :
  (length l <= index)%nat -> delete index l = l.
Proof.
  revert index. induction l as [|x l IH]; intros index Hindex; [reflexivity|].
  destruct index as [|index]; simpl in Hindex; [lia|].
  change (delete (Datatypes.S index) (x :: l)) with (x :: delete index l).
  rewrite IH by lia. reflexivity.
Qed.

(** X16: removing a fact in the facts editor removes the fact of the index
    given and no other, in the list of the editor and in the configuration
    given to [onConfigurationChange], in which nothing but that list changes:
    the list is one shorter for an index of the list, and the same for any
    other index.  Removing the fact that [add] has just appended gives the
    list before.  For the facts of the restaurant and of the customer. *)
Theorem removeFact_deletes (configuration : FactConfiguration.t)
    (state : FactsEditor.State) (index : nat) :
  let restaurant := FactsEditor.localRestaurantFacts state in
  let customer := FactsEditor.localCustomerFacts state in
  (FactsEditor.removeRestaurantFact configuration state index
   = ({| FactsEditor.localRestaurantFacts := delete index restaurant;
         FactsEditor.localCustomerFacts := customer;
         FactsEditor.editingRestaurantFact := None;
         FactsEditor.editingCustomerFact := FactsEditor.editingCustomerFact state |},
      Some (FactsEditor.updateRestaurantFacts configuration (delete index restaurant)))
   /\ FactsEditor.removeCustomerFact configuration state index
      = ({| FactsEditor.localRestaurantFacts := restaurant;
            FactsEditor.localCustomerFacts := delete index customer;
            FactsEditor.editingRestaurantFact := FactsEditor.editingRestaurantFact state;
            FactsEditor.editingCustomerFact := None |},
         Some (FactsEditor.updateCustomerFacts configuration (delete index customer))))
  /\ ((index < length restaurant)%nat ->
      length (delete index restaurant) = (length restaurant - 1)%nat)
  /\ ((length restaurant <= index)%nat -> delete index restaurant = restaurant)
  /\ FactsEditor.localRestaurantFacts
       (fst (FactsEditor.removeRestaurantFact configuration
               (fst (FactsEditor.addRestaurantFact configuration state))
               (length restaurant)))
     = restaurant
  /\ FactsEditor.localCustomerFacts
       (fst (FactsEditor.removeCustomerFact configuration
               (fst (FactsEditor.addCustomerFact configuration state))
               (length customer)))
     = customer.
Proof.
  intros restaurant customer.
  assert (Hremove : forall l : list jsstring,
    filter_index (fun i => negb (i =? index)%nat) 0 l = delete index l).
  { intros l. exact (filter_index_delete 0 index l). }
  assert (Hlast : forall l : list jsstring,
    filter_index (fun i => negb (i =? length l)%nat) 0 (l ++ [[]]) = l).
  { intros l. transitivity (delete (length l) (l ++ [[]])).
    - exact (filter_index_delete 0 (length l) (l ++ [[]])).
    - induction l as [|x l IH]; [reflexivity|].
      change (delete (length (x :: l)) ((x :: l) ++ [[]]))
        with (x :: delete (length l) (l ++ [[]])).
      f_equal. exact IH. }
  split; [split|split; [|split; [|split]]].
  - unfold FactsEditor.removeRestaurantFact. rewrite Hremove. reflexivity.
  - unfold FactsEditor.removeCustomerFact. rewrite Hremove. reflexivity.
  - intros Hindex. rewrite length_delete; [reflexivity|].
    apply lookup_lt_is_Some. exact Hindex.
  - intros Hindex. apply delete_out_of_range. exact Hindex.
  - unfold FactsEditor.removeRestaurantFact, FactsEditor.addRestaurantFact. cbn [fst].
    cbn [FactsEditor.localRestaurantFacts]. apply Hlast.
  - unfold FactsEditor.removeCustomerFact, FactsEditor.addCustomerFact. cbn [fst].
    cbn [FactsEditor.localCustomerFacts]. apply Hlast.
Qed.

(** X17: editing a restaurant fact in the facts editor replaces the fact of
    the index given in the list of the editor, if there is one, and gives
    nothing to [onConfigurationChange].  After the edit, Enter gives
    [onConfigurationChange] the configuration with the edited list and
    nothing else changed, for which no row of that list is marked as changed;
    Escape puts the list of the configuration back in the editor and gives
    nothing; any other key changes nothing. *)
Theorem editFact_commit_or_cancel (configuration : FactConfiguration.t)
    (state : FactsEditor.State) (index : nat) (value key : jsstring) :
  let edited := fst (FactsEditor.updateLocalRestaurantFact state index value) in
  (FactsEditor.localRestaurantFacts edited
   = <[index := value]> (FactsEditor.localRestaurantFacts state)
   /\ snd (FactsEditor.updateLocalRestaurantFact state index value) = None)
  /\ (key = lit "Enter" ->
      FactsEditor.handleRestaurantFactKeyDown configuration edited key index
      = ({| FactsEditor.localRestaurantFacts :=
              <[index := value]> (FactsEditor.localRestaurantFacts state);
            FactsEditor.localCustomerFacts := FactsEditor.localCustomerFacts state;
            FactsEditor.editingRestaurantFact := None;
            FactsEditor.editingCustomerFact := FactsEditor.editingCustomerFact state |},
         Some (FactsEditor.updateRestaurantFacts configuration
                 (<[index := value]> (FactsEditor.localRestaurantFacts state)))))
  /\ (key = lit "Escape" ->
      FactsEditor.handleRestaurantFactKeyDown configuration edited key index
      = ({| FactsEditor.localRestaurantFacts :=
              RestaurantFacts.todoFacts (FactConfiguration.restaurantFacts configuration);
            FactsEditor.localCustomerFacts := FactsEditor.localCustomerFacts state;
            FactsEditor.editingRestaurantFact := None;
            FactsEditor.editingCustomerFact := FactsEditor.editingCustomerFact state |},
         None))
  /\ (key <> lit "Enter" -> key <> lit "Escape" ->
      FactsEditor.handleRestaurantFactKeyDown configuration edited key index
      = (edited, None))
  /\ forall todoFacts,
       let sent := FactsEditor.updateRestaurantFacts configuration todoFacts in
       RestaurantFacts.todoFacts (FactConfiguration.restaurantFacts sent) = todoFacts
       /\ FactsEditor.updateRestaurantFacts sent
            (RestaurantFacts.todoFacts (FactConfiguration.restaurantFacts configuration))
          = FactsEditor.updateRestaurantFacts configuration
              (RestaurantFacts.todoFacts (FactConfiguration.restaurantFacts configuration))
       /\ FactConfiguration.id sent = FactConfiguration.id configuration
       /\ FactConfiguration.customerFacts sent = FactConfiguration.customerFacts configuration
       /\ FactConfiguration.systemFacts sent = FactConfiguration.systemFacts configuration
       /\ forall i fact, todoFacts !! i = Some fact ->
            FactsEditor.restaurantFactHasChanges sent fact i = false.
Proof.
  intros edited.
  assert (Hedited : edited
    = {| FactsEditor.localRestaurantFacts :=
           <[index := value]> (FactsEditor.localRestaurantFacts state);
         FactsEditor.localCustomerFacts := FactsEditor.localCustomerFacts state;
         FactsEditor.editingRestaurantFact := FactsEditor.editingRestaurantFact state;
         FactsEditor.editingCustomerFact := FactsEditor.editingCustomerFact state |}).
  { unfold edited, FactsEditor.updateLocalRestaurantFact. cbn [fst].
    f_equal. exact (map_index_insert 0 index value _). }
  split; [|split; [|split; [|split]]].
  - rewrite Hedited. split; reflexivity.
  - intros ->. rewrite Hedited. reflexivity.
  - intros ->. rewrite Hedited. reflexivity.
  - intros Henter Hescape. unfold FactsEditor.handleRestaurantFactKeyDown.
    apply String_eqb_neq in Henter, Hescape. rewrite Henter, Hescape. reflexivity.
  - intros todoFacts sent. repeat split.
    intros i fact Hfact. unfold FactsEditor.restaurantFactHasChanges.
    cbn [sent FactsEditor.updateRestaurantFacts FactConfiguration.restaurantFacts
         RestaurantFacts.todoFacts].
    rewrite Hfact. cbn [default]. rewrite String_eqb_refl. reflexivity.
Qed.

Lemma editFact_commit_or_cancel_witness :
  let state :=
    {| FactsEditor.localRestaurantFacts := [lit "Patio"; lit "Vegan menu"];
       FactsEditor.localCustomerFacts := [];
       FactsEditor.editingRestaurantFact := Some 1%nat;
       FactsEditor.editingCustomerFact := None |} in
  let edited :=
    fst (FactsEditor.updateLocalRestaurantFact state 1%nat
           (lit "Vegan and gluten-free menu")) in
  snd (FactsEditor.handleRestaurantFactKeyDown (sampleConfiguration []) edited
         (lit "Escape") 1%nat)
  = None.
Proof.
  intros state edited.
  destruct (editFact_commit_or_cancel (sampleConfiguration []) state 1%nat
              (lit "Vegan and gluten-free menu") (lit "Escape"))
    as [_ [_ [Hescape _]]].
  unfold edited. rewrite (Hescape eq_refl). reflexivity.
Defined.

Lemma removeFact_deletes_witness :
  let state :=
    {| FactsEditor.localRestaurantFacts := [lit "Patio"; lit "Vegan menu"];
       FactsEditor.localCustomerFacts := [];
       FactsEditor.editingRestaurantFact := None;
       FactsEditor.editingCustomerFact := None |} in
  FactsEditor.localRestaurantFacts
    (fst (FactsEditor.removeRestaurantFact (sampleConfiguration []) state 1%nat))
  = [lit "Patio"]
  /\ length (delete 1%nat (FactsEditor.localRestaurantFacts state)) = 1%nat.
Proof.
  intros state.
  destruct (removeFact_deletes (sampleConfiguration []) state 1%nat)
    as [[Hremove _] [Hlength _]].
  split.
  - rewrite Hremove. reflexivity.
  - apply Hlength. simpl. lia.
Defined.

(** ** The two stores side by side *)

Lemma find_id_fresh {A} (id : A -> Z) (l : list A) (x : A) (i : Z) :
  Forall (fun j => j < id x) (map id l) ->
  List.find (fun y => id y =? i) (l ++ [x])
  = if id x =? i then Some x else List.find (fun y => id y =? i) l.
Proof.
  intros Hbelow. rewrite find_app_fresh.
  destruct (Z.eqb_spec (id x) i) as [<-|Hne].
  - rewrite find_id_None by exact Hbelow. reflexivity.
  - destruct (List.find _ l); reflexivity.
Qed.

Lemma spread_defined {A} (existing : option A) (payload : property A) :
  defined payload = true -> spread existing payload = or_existing payload existing.
Proof. destruct payload; [reflexivity|discriminate|reflexivity]. Qed.

Lemma stores_related_perform (mem : MemStorage.t) (file : FileStorage.t) (c : call) :
  MemStorage_invariant mem -> FileStorage_invariant file ->
  stores_related mem file -> taken_alike c = true ->
  snd (perform mem c) = snd (perform file c)
  /\ stores_related (fst (perform mem c)) (fst (perform file c)).
Proof.
  destruct mem as [factConfigs feedbackResp currentConfigId currentResponseId].
  destruct file as [[configs nextConfigId] [responses nextResponseId]].
  intros [_ Hmem] [[_ Hconfigs] [_ Hresponses]] [[Hc Hr] [Hcs [Hrs Hsize]]] Hnames.
  cbn in Hc, Hr, Hcs, Hrs, Hsize, Hconfigs, Hresponses, Hmem. subst.
  destruct c as [config|id partial|response].
  - cbn. split; [reflexivity|]. unfold stores_related. cbn.
    split; [auto|]. split; [|auto]. intros id.
    rewrite find_id_fresh by exact Hconfigs. cbn.
    destruct (Z.eqb_spec nextConfigId id) as [->|Hne].
    + apply lookup_insert_eq.
    + rewrite lookup_insert_ne by exact Hne. apply Hcs.
  - cbn in Hnames. unfold defined_payload in Hnames.
    apply andb_true_iff in Hnames as [Hnames Hsystem].
    apply andb_true_iff in Hnames as [Hrestaurant Hcustomer].
    cbn. unfold MemStorage.updateFactConfiguration, FileStorage.updateFactConfiguration.
    cbn. rewrite Hcs.
    destruct (FileStorage.findIndex _ configs) as [index|] eqn:Hindex.
    + destruct (findIndex_Some _ _ _ Hindex) as [existing [Hlookup [Hid Hfind]]].
      rewrite Hfind, Hlookup.
      rewrite !spread_defined by assumption. cbn. split; [reflexivity|].
      unfold stores_related. cbn. split; [auto|]. split; [|auto]. intros id'.
      apply Z.eqb_eq in Hid.
      destruct (Z.eq_dec id id') as [<-|Hne].
      * rewrite lookup_insert_eq. symmetry.
        apply find_insert_found; [exact Hindex|]. cbn. apply Z.eqb_refl.
      * rewrite lookup_insert_ne by exact Hne. rewrite Hcs. symmetry.
        apply (find_insert_other _ _ _ existing); [exact Hlookup| |].
        -- apply Z.eqb_neq. lia.
        -- cbn. apply Z.eqb_neq. exact Hne.
    + apply findIndex_None in Hindex. rewrite Hindex. cbn. split; [reflexivity|].
      unfold stores_related. cbn. auto.
  - cbn in Hnames.
    destruct (InsertFeedbackResponse.configurationId response) as [configurationId|] eqn:Hcid;
      [|discriminate].
    apply negb_true_iff in Hnames.
    cbn. rewrite Hcid, Hnames. split; [reflexivity|].
    unfold stores_related. cbn. split; [auto|]. split; [auto|]. split.
    + intros id. rewrite find_id_fresh by exact Hresponses. cbn.
      destruct (Z.eqb_spec nextResponseId id) as [->|Hne].
      * apply lookup_insert_eq.
      * rewrite lookup_insert_ne by exact Hne. apply Hrs.
    + rewrite length_app. cbn. rewrite <- Hsize, Nat.add_1_r.
      apply map_size_insert_None.
      destruct (feedbackResp !! nextResponseId) as [saved|] eqn:Hsaved; [|reflexivity].
      destruct (Hmem _ _ Hsaved). lia.
Qed.

Lemma stores_related_run (calls : list call) (mem : MemStorage.t) (file : FileStorage.t) :
  MemStorage_invariant mem -> FileStorage_invariant file ->
  stores_related mem file -> forallb taken_alike calls = true ->
  snd (run mem calls) = snd (run file calls)
  /\ stores_related (fst (run mem calls)) (fst (run file calls)).
Proof.
  revert mem file. induction calls as [|c calls IH]; intros mem file Hmem Hfile Hrel Hcalls.
  - split; [reflexivity|exact Hrel].
  - cbn [forallb] in Hcalls. apply andb_true_iff in Hcalls as [Hc Hcalls].
    destruct (stores_related_perform mem file c Hmem Hfile Hrel Hc) as [Hout Hrel'].
    pose proof (MemStorage_invariant_perform mem c Hmem) as Hmem'.
    pose proof (FileStorage_invariant_perform file c Hfile) as Hfile'.
    cbn [run].
    destruct (perform mem c) as [mem' o]. destruct (perform file c) as [file' o'].
    cbn [fst snd] in *. subst o'.
    destruct (IH mem' file' Hmem' Hfile' Hrel' Hcalls) as [Houts Hrel''].
    destruct (run mem' calls) as [mem'' os]. destruct (run file' calls) as [file'' os'].
    cbn [fst snd] in *. subst os'. split; [reflexivity|exact Hrel''].
Qed.

Lemma stores_related_agree (mem : MemStorage.t) (file : FileStorage.t) :
  MemStorage_invariant mem -> FileStorage_invariant file ->
  stores_related mem file -> stores_agree mem file.
Proof.
  intros Hmem Hfile [_ [Hcs [Hrs Hsize]]].
  assert (Hget : forall id, getFactConfiguration mem id = getFactConfiguration file id).
  { intros id. apply Hcs. }
  split; [exact Hget|]. split; [|split].
  - destruct (MemStorage_latest mem Hmem) as [Hnone Hsome].
    destruct (FileStorage_latest file Hfile) as [Hnone' Hsome'].
    destruct (getLatestFactConfiguration mem) as [latest|] eqn:Hlatest;
      destruct (getLatestFactConfiguration file) as [latest'|] eqn:Hlatest'.
    + destruct (Hsome latest eq_refl) as [Hstored Hhighest].
      destruct (Hsome' latest' eq_refl) as [Hstored' Hhighest'].
      pose proof (Hhighest _ _ (eq_trans (Hget _) Hstored')) as Hle.
      rewrite Hget in Hstored. pose proof (Hhighest' _ _ Hstored) as Hle'.
      assert (Hid : StoredConfiguration.id latest = StoredConfiguration.id latest') by lia.
      rewrite Hid in Hstored. congruence.
    + destruct (Hsome latest eq_refl) as [Hstored _].
      rewrite Hget, (proj1 Hnone' eq_refl) in Hstored. discriminate.
    + destruct (Hsome' latest' eq_refl) as [Hstored' _].
      rewrite <- Hget, (proj1 Hnone eq_refl) in Hstored'. discriminate.
    + reflexivity.
  - intros id. apply Hrs.
  - rewrite MemStorage_size_responses. exact Hsize.
Qed.

(** X18: the in-memory store and the file-backed store, started empty and
    given the same calls one after the other, the files being read and
    written, answer the same to every call, and then answer the same to every
    read (the configuration and the response of an identifier, the latest
    configuration and the number of responses), when every response created
    has the identifier of a configuration other than 0 and no key of the
    payload of an update has the value [undefined]. *)
Theorem MemStorage_FileStorage_agree (calls : list call) :
  forallb taken_alike calls = true ->
  snd (run MemStorage.empty calls) = snd (run FileStorage.empty calls)
  /\ stores_agree (fst (run MemStorage.empty calls)) (fst (run FileStorage.empty calls)).
Proof.
  intros Hcalls.
  assert (Hmem : MemStorage_invariant MemStorage.empty).
  { apply MemStorage_invariant_reachable, reachable_refl. }
  assert (Hfile : FileStorage_invariant FileStorage.empty).
  { apply FileStorage_invariant_reachable, reachable_refl. }
  assert (Hrel : stores_related MemStorage.empty FileStorage.empty).
  { unfold stores_related. cbn. repeat split; intros id; apply lookup_empty. }
  destruct (stores_related_run calls _ _ Hmem Hfile Hrel Hcalls) as [Houts Hrel'].
  split; [exact Houts|].
  apply stores_related_agree; [| |exact Hrel'].
  - apply MemStorage_invariant_reachable. exists calls. reflexivity.
  - apply FileStorage_invariant_reachable. exists calls. reflexivity.
Qed.

Lemma MemStorage_FileStorage_agree_witness :
  snd (run MemStorage.empty sampleCalls) = snd (run FileStorage.empty sampleCalls)
  /\ stores_agree (fst (run MemStorage.empty sampleCalls))
       (fst (run FileStorage.empty sampleCalls)).
Proof. exact (MemStorage_FileStorage_agree sampleCalls eq_refl). Defined.

Lemma perform_CreateFeedbackResponse {S} `{IStorage S} (storage : S)
    (response : InsertFeedbackResponse.t) :
  perform storage (CreateFeedbackResponse response)
  = (fst (createFeedbackResponse storage response),
     CreatedResponse (snd (createFeedbackResponse storage response))).
Proof. cbn [perform]. destruct (createFeedbackResponse storage response). reflexivity. Qed.

(** X19: on an in-memory store and a file-backed store that were started
    empty and given the same calls one after the other, the files being read
    and written, in which every response created has the identifier of a
    configuration other than 0 and no key of the payload of an update has the
    value [undefined], the handler gives the same answer to the same request,
    with the same key and service, and leaves stores that answer the same to
    every read. *)
Theorem generateResponse_same_on_both_stores (calls : list call)
    (openai : ChatRequest.t -> Completion) (openaiApiKey : option jsstring)
    (body : RequestBody.t) :
  forallb taken_alike calls = true ->
  let mem := fst (run MemStorage.empty calls) in
  let file := fst (run FileStorage.empty calls) in
  snd (generateResponse openai openaiApiKey mem body)
  = snd (generateResponse openai openaiApiKey file body)
  /\ stores_agree (fst (generateResponse openai openaiApiKey mem body))
       (fst (generateResponse openai openaiApiKey file body)).
Proof.
  intros Hcalls mem file.
  assert (Hmem : MemStorage_invariant mem).
  { apply MemStorage_invariant_reachable. exists calls. reflexivity. }
  assert (Hfile : FileStorage_invariant file).
  { apply FileStorage_invariant_reachable. exists calls. reflexivity. }
  assert (Hpositive : FileStorage_positive file).
  { apply FileStorage_positive_reachable. exists calls. reflexivity. }
  assert (Hrel : stores_related mem file).
  { apply stores_related_run; try assumption.
    - apply MemStorage_invariant_reachable, reachable_refl.
    - apply FileStorage_invariant_reachable, reachable_refl.
    - unfold stores_related. cbn. repeat split; intros id; apply lookup_empty. }
  pose proof (stores_related_agree mem file Hmem Hfile Hrel) as Hagree.
  assert (Hprepare : prepare mem body = prepare file body).
  { destruct Hagree as [Hget [Hlatest _]]. unfold prepare.
    rewrite Hlatest. destruct (RequestBody.configurationId body) as [id|]; [|reflexivity].
    rewrite Hget. reflexivity. }
  unfold generateResponse. rewrite Hprepare.
  destruct (prepare file body) as [reply|[[feedbackText config] prompt]] eqn:Hchosen.
  { split; [reflexivity|exact Hagree]. }
  destruct (falsy openaiApiKey || _); [split; [reflexivity|exact Hagree]|].
  unfold complete.
  destruct (openai _) as [message|content]; [split; [reflexivity|exact Hagree]|].
  destruct (falsy content); [split; [reflexivity|exact Hagree]|].
  cbv zeta.
  set (response := {| InsertFeedbackResponse.feedbackText := feedbackText;
                      InsertFeedbackResponse.aiResponse := default [] content;
                      InsertFeedbackResponse.configurationId :=
                        Some (FactConfiguration.id config) |}).
  destruct (FileStorage_chosen file body feedbackText config prompt Hfile Hpositive Hchosen)
    as [_ Hid].
  assert (Hnames : taken_alike (CreateFeedbackResponse response) = true).
  { cbn. apply negb_true_iff, Z.eqb_neq. exact Hid. }
  destruct (stores_related_perform mem file _ Hmem Hfile Hrel Hnames) as [Hout Hrel'].
  pose proof (MemStorage_invariant_perform mem (CreateFeedbackResponse response) Hmem)
    as Hmem'.
  pose proof (FileStorage_invariant_perform file (CreateFeedbackResponse response) Hfile)
    as Hfile'.
  rewrite (perform_CreateFeedbackResponse mem), (perform_CreateFeedbackResponse file)
    in Hout, Hrel'.
  rewrite (perform_CreateFeedbackResponse mem) in Hmem'.
  rewrite (perform_CreateFeedbackResponse file) in Hfile'.
  cbn [fst snd] in Hout, Hrel', Hmem', Hfile'.
  assert (Hsaved : snd (createFeedbackResponse mem response)
                   = snd (createFeedbackResponse file response)) by congruence.
  clear Hout.
  destruct (createFeedbackResponse mem response) as [mem' saved].
  destruct (createFeedbackResponse file response) as [file' saved'].
  cbn [fst snd] in *. subst saved'.
  destruct feedbackText; (split; [reflexivity|]);
    apply stores_related_agree; assumption.
Qed.

Lemma generateResponse_same_on_both_stores_witness :
  snd (generateResponse sampleCompletion sampleKey
         (fst (run MemStorage.empty sampleCalls)) sampleBody)
  = snd (generateResponse sampleCompletion sampleKey
           (fst (run FileStorage.empty sampleCalls)) sampleBody).
Proof.
  exact (proj1 (generateResponse_same_on_both_stores sampleCalls sampleCompletion
                  sampleKey sampleBody eq_refl)).
Defined.

(** After an update whose payload has the key [restaurantFacts] with the
    value [undefined], the two stores no longer answer the same: the handler
    on the in-memory store throws when it reads the name of the restaurant,
    and answers 500; on the file-backed store it answers the generated
    response. *)
Example generateResponse_after_undefined_update :
  let partial :=
    {| PartialFactConfiguration.restaurantFacts := KeyUndefined;
       PartialFactConfiguration.customerFacts := KeyAbsent;
       PartialFactConfiguration.systemFacts := KeyAbsent |} in
  let calls := [CreateFactConfiguration defaultConfiguration;
                UpdateFactConfiguration 1 partial] in
  snd (generateResponse sampleCompletion sampleKey (fst (run MemStorage.empty calls))
         sampleBody)
  = Failure 500 (lit "Failed to generate AI response")
            (lit "Cannot read properties of undefined (reading 'name')")
  /\ status (snd (generateResponse sampleCompletion sampleKey
                    (fst (run FileStorage.empty calls)) sampleBody))
     = 200.
Proof. split; vm_compute; reflexivity. Qed.

(** A feedback text that is not a string: the response is saved, and the
    answer is status 500. *)
Example generateResponse_number :
  let body := {| RequestBody.feedbackText := OtherValue true (Some (lit "5"));
                 RequestBody.configurationId := None |} in
  let result := generateResponse sampleCompletion sampleKey FileStorage.new body in
  snd result
  = Failure 500 (lit "Failed to generate AI response")
            (lit "feedbackText.toLowerCase is not a function")
  /\ length (getAllFeedbackResponses FileStorage.new) = 0%nat
  /\ length (getAllFeedbackResponses (fst result)) = 1%nat.
Proof. repeat split; vm_compute; reflexivity. Qed.

(** ** The list of responses *)

Lemma find_sorted (l : list FeedbackResponse.t) (response : FeedbackResponse.t) :
  StronglySorted Z.lt (map FeedbackResponse.id l) ->
  In response l ->
  List.find (fun r => FeedbackResponse.id r =? FeedbackResponse.id response) l
  = Some response.
Proof.
  induction l as [|a l IH]; intros Hsorted Hin; [contradiction|].
  cbn [map] in Hsorted. apply StronglySorted_inv in Hsorted as [Hsorted Hhead].
  cbn [List.find]. destruct Hin as [->|Hin].
  - rewrite Z.eqb_refl. reflexivity.
  - rewrite List.Forall_forall in Hhead.
    specialize (Hhead _ (in_map FeedbackResponse.id _ _ Hin)).
    destruct (Z.eqb_spec (FeedbackResponse.id a) (FeedbackResponse.id response)); [lia|].
    apply IH; assumption.
Qed.

(** X20: in a state reached from the empty store, the responses that
    [getAllFeedbackResponses] lists are exactly the ones that
    [getFeedbackResponse] answers for their identifiers: every response
    listed is found by its identifier, no two responses listed share an
    identifier, and every response found is listed.  For the in-memory and
    the file-backed store. *)
Theorem getAllFeedbackResponses_listed :
  (forall this : MemStorage.t, reachable MemStorage.empty this -> responses_listed this)
  /\ (forall this : FileStorage.t, reachable FileStorage.empty this -> responses_listed this).
Proof.
  split; intros this Hreach response.
  - destruct (MemStorage_invariant_reachable this Hreach) as [_ Hinv].
    cbn. unfold MemStorage.getAllFeedbackResponses, MemStorage.getFeedbackResponse.
    rewrite in_map_iff. split.
    + intros [[k r] [Hr Hin]]. cbn in Hr. subst r.
      apply list_elem_of_In, elem_of_map_to_list in Hin.
      destruct (Hinv _ _ Hin) as [-> _]. exact Hin.
    + intros Hget. exists (FeedbackResponse.id response, response). split; [reflexivity|].
      apply list_elem_of_In, elem_of_map_to_list. exact Hget.
  - destruct (FileStorage_invariant_reachable this Hreach) as [_ [Hsorted _]].
    cbn. unfold FileStorage.getAllFeedbackResponses, FileStorage.getFeedbackResponse,
      FileStorage.readResponses.
    split.
    + apply find_sorted. exact Hsorted.
    + intros Hfind. apply find_some in Hfind as [Hin _]. exact Hin.
Qed.

Lemma getAllFeedbackResponses_listed_witness :
  responses_listed (fst (run MemStorage.empty sampleCalls))
  /\ responses_listed (fst (run FileStorage.empty sampleCalls)).
Proof.
  destruct getAllFeedbackResponses_listed as [Hmem Hfile]. split.
  - apply Hmem. exists sampleCalls. reflexivity.
  - apply Hfile. exists sampleCalls. reflexivity.
Defined.
